(** * ts-play-core: the grid animation runtime

    A shallow embedding of the cell buffer helpers ([modules/buffer.ts]),
    the diffing text renderer ([core/textrenderer.ts]) and the frame
    scheduler ([run.ts]), with the properties of the specification that
    concern them.

    Conventions of the embedding.
    - A JavaScript object whose fields hold primitive values (a cell, a
      styled text object) is a finite map from property names to
      primitives; object spread is right-biased map union and [delete]
      is map deletion.
    - An array is a list; reading past the end gives [undefined] and an
      indexed write past the end extends the array, as in JavaScript.
    - Grid coordinates and numeric glyphs are integers.  Timestamps,
      pixel offsets and cell metrics are exact rationals: the rounding
      of IEEE doubles is not part of the model.  A division is the one
      operation that leaves the rationals, giving [Infinity] or [NaN]
      when the divisor is 0.
    - A user hook is a function of its arguments and of the buffer that
      returns either an exception or its result with the buffer as the
      hook left it. *)

From Stdlib Require Import Ascii String QArith Qround Qminmax Qabs Lqa.
From stdpp Require Import gmap strings list fin_maps pretty.

Open Scope Z_scope.

(** ** JavaScript values *)

Module JS.

Inductive prim : Type :=
  | PUndef
  | PNull
  | PStr (s : string)
  | PNum (n : Z).

#[global] Instance prim_eq_dec : EqDecision prim.
Proof. solve_decision. Defined.

Abbreviation obj := (gmap string prim).

Inductive value : Type :=
  | VPrim (p : prim)
  | VObj (o : obj).

#[global] Instance value_eq_dec : EqDecision value.
Proof. solve_decision. Defined.

Definition undefined : value := VPrim PUndef.

(** [typeof v == 'object']: true of objects and of [null]. *)
Definition typeof_object (v : value) : bool :=
  match v with
  | VObj _ | VPrim PNull => true
  | VPrim _ => false
  end.

(** [Boolean(p)] *)
Definition truthy (p : prim) : bool :=
  match p with
  | PUndef | PNull => false
  | PStr s => negb (bool_decide (s = ""))
  | PNum n => negb (bool_decide (n = 0))
  end.

(** [String(p)] *)
Definition to_string (p : prim) : string :=
  match p with
  | PUndef => "undefined"
  | PNull => "null"
  | PStr s => s
  | PNum n => pretty n
  end.

(** Property read [o.k]: an absent property reads as [undefined]. *)
Definition field (k : string) (o : obj) : prim := default PUndef (o !! k).

(** The characters of a string, each as a one-character string
    ([s.split('')]). *)
Fixpoint chars (s : string) : list string :=
  match s with
  | EmptyString => []
  | String a s' => String a EmptyString :: chars s'
  end.

(** The own enumerable properties that [{...v}] copies: those of an
    object, the indexed characters of a string, none for the other
    primitives. *)
Definition spread (v : value) : obj :=
  match v with
  | VObj o => o
  | VPrim (PStr s) => list_to_map (imap (λ i c, (pretty i, PStr c)) (chars s))
  | VPrim _ => ∅
  end.

(** [{...a, ...b}]: the properties of [b] win. *)
Definition spread2 (a b : value) : obj := spread b ∪ spread a.

(** Array read [l[i]]. *)
Definition arr_get (i : nat) (l : list value) : value :=
  default undefined (l !! i).

(** Array write [l[i] = v]: in range it replaces the entry, past the end
    it extends the array, the skipped entries reading as [undefined]. *)
Definition arr_set (i : nat) (v : value) (l : list value) : list value :=
  if bool_decide (i < length l)%nat then <[i:=v]> l
  else l ++ replicate (i - length l) undefined ++ [v].

(** [l.length = n]: truncates, or extends with entries that read as
    [undefined]. *)
Definition arr_resize (n : nat) (l : list value) : list value :=
  take n l ++ replicate (n - length l) undefined.

End JS.

Import JS.

(** ** Effects: mutable state and exceptions

    A computation reads and updates a state and either returns or
    throws.  The state a computation leaves behind when it throws is the
    state at the point of the throw: what was mutated before stays
    mutated. *)

Module Eff.

Inductive result (A : Type) : Type :=
  | Ok (a : A)
  | Throw (e : string).
Arguments Ok {A} a.
Arguments Throw {A} e.

Definition M (S A : Type) : Type := S → result A * S.

#[global] Instance M_ret {S} : MRet (M S) := λ A a s, (Ok a, s).

#[global] Instance M_bind {S} : MBind (M S) := λ A B f m s,
  match m s with
  | (Ok a, s') => f a s'
  | (Throw e, s') => (Throw e, s')
  end.

Definition gets {S A} (f : S → A) : M S A := λ s, (Ok (f s), s).

Definition modify {S} (f : S → S) : M S unit := λ s, (Ok tt, f s).

Definition throw {S A} (e : string) : M S A := λ s, (Throw e, s).

(** A computation on a part [T] of the state [S]. *)
Definition lift {S T A} (proj : S → T) (inj : T → S → S) (m : M T A) : M S A :=
  λ s, let '(r, t) := m (proj s) in (r, inj t s).

(** [for (const a of l) body(a)] *)
Fixpoint for_each {S A} (l : list A) (body : A → M S unit) : M S unit :=
  match l with
  | [] => mret tt
  | a :: l' => body a;; for_each l' body
  end.

(** [if (c) body] *)
Definition when {S} (c : bool) (body : M S unit) : M S unit :=
  if c then body else mret tt.

End Eff.

Import Eff.

(** ** The cell buffer ([modules/buffer.ts]) *)

Module Buffer.

(** [CellValue = string | Cell]; [Buffer = CellValue[]]. *)
Abbreviation CellValue := value.
Abbreviation Buffer := (list value).

Record WrapInfo : Type := { first : CellValue; last : CellValue }.

Record Offset : Type := { col : Z; row : Z }.

Record MergeTextResult : Type := { offset : Offset; wrapInfo : list WrapInfo }.

(** [TextObject]: the object [{text: to_text, ...to_fields}].  The
    interface requires [text] to be a string. *)
Record TextObject : Type := { to_text : string; to_fields : obj }.

Definition TextObject_obj (t : TextObject) : obj :=
  <["text" := PStr (to_text t)]> (to_fields t).

Inductive TextArg : Type :=
  | TextOfObject (t : TextObject)
  | TextOfString (s : string).

Definition get (x y : Z) (target : Buffer) (targetCols targetRows : Z)
  : CellValue :=
  if bool_decide (x < 0 ∨ x >= targetCols) then VObj ∅
  else if bool_decide (y < 0 ∨ y >= targetRows) then VObj ∅
  else
    let i := x + y * targetCols in
    arr_get (Z.to_nat i) target.

Definition set (val : CellValue) (x y : Z) (target : Buffer)
    (targetCols targetRows : Z) : Buffer :=
  if bool_decide (x < 0 ∨ x >= targetCols) then target
  else if bool_decide (y < 0 ∨ y >= targetRows) then target
  else
    let i := x + y * targetCols in
    arr_set (Z.to_nat i) val target.

Definition merge (val : CellValue) (x y : Z) (target : Buffer)
    (targetCols targetRows : Z) : Buffer :=
  if bool_decide (x < 0 ∨ x >= targetCols) then target
  else if bool_decide (y < 0 ∨ y >= targetRows) then target
  else
    let i := Z.to_nat (x + y * targetCols) in
    (* Flatten: convert string to Cell object if needed *)
    let cell :=
      if typeof_object (arr_get i target) then arr_get i target
      else match arr_get i target with
           | VPrim p => VObj {["char" := p]}
           | VObj o => VObj o
           end in
    arr_set i (VObj (spread2 cell val)) target.

(** The two nested counting loops of [setRect] and [mergeRect]: [f] is
    applied at every [(i, j)] with [x <= i < x + w] and [y <= j < y + h],
    row by row. *)
Definition rect_coords (x y w h : Z) : list (Z * Z) :=
  j ← seqZ y h; i ← seqZ x w; [(i, j)].

Definition setRect (val : CellValue) (x y w h : Z) (target : Buffer)
    (targetCols targetRows : Z) : Buffer :=
  foldl (λ t '(i, j), set val i j t targetCols targetRows) target
        (rect_coords x y w h).

Definition mergeRect (val : CellValue) (x y w h : Z) (target : Buffer)
    (targetCols targetRows : Z) : Buffer :=
  foldl (λ t '(i, j), merge val i j t targetCols targetRows) target
        (rect_coords x y w h).

(** [text.split('\n')]: always at least one line. *)
Fixpoint split_lines (s : string) : list string :=
  match s with
  | EmptyString => [EmptyString]
  | String a s' =>
      if Ascii.eqb a "010"%char then EmptyString :: split_lines s'
      else match split_lines s' with
           | l :: ls => String a l :: ls
           | [] => [String a EmptyString]
           end
  end.

(** The state threaded through [mergeText]'s loops: the variables [col]
    and [row], the [wrapInfo] array and the target buffer. *)
Record MTState : Type :=
  { mt_col : Z; mt_row : Z; mt_wrap : list WrapInfo; mt_target : Buffer }.

(** The inner [forEach]: one merge per character of the line. *)
Definition mergeText_chars (mergeObj : option obj) (x : Z)
    (targetCols targetRows : Z) (line : string) (st : MTState) : MTState :=
  foldl (λ st '(charNum, char),
           let col := x + Z.of_nat charNum in
           {| mt_col := col; mt_row := mt_row st; mt_wrap := mt_wrap st;
              mt_target :=
                merge (VObj (from_option id ∅ mergeObj ∪ {["char" := PStr char]}))
                      col (mt_row st) (mt_target st) targetCols targetRows |})
        st (imap pair (chars line)).

(** The body of the outer [forEach], for one line. *)
Definition mergeText_line (mergeObj : option obj) (x : Z)
    (targetCols targetRows : Z) (st : MTState) (line : string) : MTState :=
  let st := mergeText_chars mergeObj x targetCols targetRows line st in
  let first := get x (mt_row st) (mt_target st) targetCols targetRows in
  let last := get (x + Z.of_nat (String.length line) - 1) (mt_row st)
                  (mt_target st) targetCols targetRows in
  {| mt_col := mt_col st; mt_row := mt_row st + 1;
     mt_wrap := mt_wrap st ++ [{| first := first; last := last |}];
     mt_target := mt_target st |}.

Definition mergeText (textObj : TextArg) (x y : Z) (target : Buffer)
    (targetCols targetRows : Z) : MergeTextResult * Buffer :=
  let '(text, mergeObj) :=
    match textObj with
    | TextOfObject t =>
        (* Extract all the fields to be merged, but remove text field *)
        (to_text t, Some (delete "text" (TextObject_obj t)))
    | TextOfString s => (s, None)
    end in
  let st := foldl (mergeText_line mergeObj x targetCols targetRows)
                  {| mt_col := x; mt_row := y; mt_wrap := []; mt_target := target |}
                  (split_lines text) in
  (* Adjust for last ++ *)
  let row := Z.max y (mt_row st - 1) in
  ({| offset := {| col := mt_col st; row := row |}; wrapInfo := mt_wrap st |},
   mt_target st).

End Buffer.

(** ** The text renderer ([core/textrenderer.ts]) *)

Module TextRenderer.

(** The three settings the renderer reads. *)
Record Settings : Type :=
  { color : prim; backgroundColor : prim; fontWeight : prim }.

(** What the renderer reads of the context. *)
Record Context : Type :=
  { ctx_cols : nat; ctx_rows : nat; ctx_settings : Settings }.

(** The module's variables [backBuffer], [cols] and [rows], and the
    target element, an [HTMLElement] whose children are the row
    elements: the [innerHTML] of each of them.
    [writes] is instrumentation: the rows whose [innerHTML] was
    assigned, latest first. *)
Record State : Type :=
  { backBuffer : list value;
    cols : option nat;
    rows : option nat;
    children : list string;
    writes : list nat }.

Definition set_backBuffer (b : list value) (s : State) : State :=
  {| backBuffer := b; cols := cols s; rows := rows s;
     children := children s; writes := writes s |}.

(** Property read [v.k] for the cell properties, on an object or on a
    truthy primitive (which has none of them). *)
Definition prop (k : string) (v : value) : prim :=
  match v with
  | VObj o => field k o
  | VPrim _ => PUndef
  end.

(** [Boolean(v)] *)
Definition truthy_value (v : value) : bool :=
  match v with
  | VObj _ => true
  | VPrim p => truthy p
  end.

(** Compares two cells.  Reading a property of [null], which passes the
    [typeof] test, throws. *)
Definition isSameCell {S} (cellA cellB : value) : M S bool :=
  if negb (typeof_object cellA) then mret false
  else if negb (typeof_object cellB) then mret false
  else match cellA, cellB with
       | VObj a, VObj b =>
           if negb (bool_decide (field "char" a = field "char" b))
           then mret false
           else if negb (bool_decide (field "fontWeight" a = field "fontWeight" b))
           then mret false
           else if negb (bool_decide (field "color" a = field "color" b))
           then mret false
           else if negb (bool_decide
                           (field "backgroundColor" a = field "backgroundColor" b))
           then mret false
           else mret true
       | _, _ => throw "TypeError"
       end.

(** Compares two cells for style only. *)
Definition isSameCellStyle (cellA cellB : value) : bool :=
  if negb (bool_decide (prop "fontWeight" cellA = prop "fontWeight" cellB))
  then false
  else if negb (bool_decide (prop "color" cellA = prop "color" cellB))
  then false
  else if negb (bool_decide
                  (prop "backgroundColor" cellA = prop "backgroundColor" cellB))
  then false
  else true.

(** The first inner loop of a row: compares its cells with the back
    buffer and copies those that differ.  Returns [rowNeedsUpdate]. *)
Fixpoint compare_cells (buffer : list value) (offs : nat) (columns : list nat)
    (rowNeedsUpdate : bool) : M State bool :=
  match columns with
  | [] => mret rowNeedsUpdate
  | i :: columns' =>
      let idx := (i + offs)%nat in
      let newCell := arr_get idx buffer in
      oldCell ← gets (λ s, arr_get idx (backBuffer s));
      same ← isSameCell newCell oldCell;
      if negb same then
        modify (λ s, set_backBuffer
                       (arr_set idx (VObj (spread newCell)) (backBuffer s)) s);;
        compare_cells buffer offs columns' true
      else compare_cells buffer offs columns' rowNeedsUpdate
  end.

(** The local variables of the second inner loop. *)
Record Markup : Type :=
  { html : string; prevCell : value; tagIsOpen : bool }.

Definition close_tag (m : Markup) : Markup :=
  if tagIsOpen m
  then {| html := html m +:+ "</span>"; prevCell := VObj ∅; tagIsOpen := false |}
  else m.

(** One cell of the second inner loop. *)
Definition markup_cell (settings : Settings) (currCell : value) (m : Markup)
  : Markup :=
  if negb (truthy_value currCell) then m
  else
    let m :=
      if truthy (prop "beginHTML" currCell) then
        let m := close_tag m in
        {| html := html m +:+ to_string (prop "beginHTML" currCell);
           prevCell := prevCell m; tagIsOpen := tagIsOpen m |}
      else m in
    let m :=
      if negb (isSameCellStyle currCell (prevCell m)) then
        let h := if tagIsOpen m then html m +:+ "</span>" else html m in
        let c := if bool_decide (prop "color" currCell = color settings)
                 then PNull else prop "color" currCell in
        let b := if bool_decide
                      (prop "backgroundColor" currCell = backgroundColor settings)
                 then PNull else prop "backgroundColor" currCell in
        let w := if bool_decide (prop "fontWeight" currCell = fontWeight settings)
                 then PNull else prop "fontWeight" currCell in
        let css := "" in
        let css := if truthy c then css +:+ "color:" +:+ to_string c +:+ ";"
                   else css in
        let css := if truthy b then css +:+ "background:" +:+ to_string b +:+ ";"
                   else css in
        let css := if truthy w then css +:+ "font-weight:" +:+ to_string w +:+ ";"
                   else css in
        let css := if truthy (PStr css)
                   then " style=" +:+ String "034" css +:+ String "034" ""
                   else css in
        {| html := h +:+ "<span" +:+ css +:+ ">";
           prevCell := prevCell m; tagIsOpen := true |}
      else m in
    let m := {| html := html m +:+ to_string (prop "char" currCell);
                prevCell := currCell; tagIsOpen := tagIsOpen m |} in
    if truthy (prop "endHTML" currCell) then
      let m := close_tag m in
      {| html := html m +:+ to_string (prop "endHTML" currCell);
         prevCell := prevCell m; tagIsOpen := tagIsOpen m |}
    else m.

(** The markup of row [j]. *)
Definition row_html (settings : Settings) (buffer : list value)
    (offs cols : nat) : string :=
  let m := foldl (λ m i, markup_cell settings (arr_get (i + offs) buffer) m)
                 {| html := ""; prevCell := VObj ∅; tagIsOpen := false |}
                 (seq 0 cols) in
  if tagIsOpen m then html m +:+ "</span>" else html m.

(** [childNode.innerHTML = html], when the row element exists. *)
Definition write_row (j : nat) (h : string) (s : State) : State :=
  if bool_decide (j < length (children s))%nat then
    {| backBuffer := backBuffer s; cols := cols s; rows := rows s;
       children := <[j := h]> (children s); writes := j :: writes s |}
  else s.

(** The body of the loop over the rows. *)
Definition render_row (context : Context) (buffer : list value) (cols : nat)
    (j : nat) : M State unit :=
  let offs := (j * cols)%nat in
  rowNeedsUpdate ← compare_cells buffer offs (seq 0 cols) false;
  (* Skip row if update is not necessary *)
  if negb rowNeedsUpdate then mret tt
  else modify (write_row j (row_html (ctx_settings context) buffer offs cols)).

Definition render (context : Context) (buffer : list value) : M State unit :=
  (* Detect resize *)
  modify (λ s,
    if negb (bool_decide (Some (ctx_rows context) = rows s))
       || negb (bool_decide (Some (ctx_cols context) = cols s))
    then {| backBuffer := []; cols := Some (ctx_cols context);
            rows := Some (ctx_rows context);
            children := children s; writes := writes s |}
    else s);;
  (* DOM rows update: expand, then shorten, to [rows] lines *)
  modify (λ s,
    let n := default 0%nat (rows s) in
    {| backBuffer := backBuffer s; cols := cols s; rows := rows s;
       children := take n (children s ++ replicate (n - length (children s)) "");
       writes := writes s |});;
  cols ← gets (λ s, default 0%nat (cols s));
  rows ← gets (λ s, default 0%nat (rows s));
  for_each (seq 0 rows) (render_row context buffer cols).

End TextRenderer.

(** ** The scheduler ([run.ts]) *)

Module Run.

Open Scope Q_scope.

(** The remainder [a % b] of JavaScript on numbers, the quotient being
    truncated towards zero. *)
Definition js_rem (a b : Q) : Q :=
  a - b * inject_Z (Z.quot (Qnum (a / b)) (Zpos (Qden (a / b)))).

(** The numbers a division can give: a rational, an infinity or [NaN].
    The sums, differences and products the scheduler takes of
    timestamps and sizes stay rationals; a quotient does not when the
    divisor is 0.  (There is one zero: a measured size is never
    [-0].) *)
Inductive number : Type :=
  | Finite (q : Q)
  | Infinity (negative : bool)
  | NaN.

(** [a / b] *)
Definition js_div (a b : Q) : number :=
  if Qeq_dec b 0 then
    if Qeq_dec a 0 then NaN
    else if Qlt_le_dec a 0 then Infinity true else Infinity false
  else Finite (a / b).

(** [Math.min(a, b)] *)
Definition js_min (a : Q) (b : number) : number :=
  match b with
  | Finite q => Finite (Qmin a q)
  | Infinity false => Finite a
  | Infinity true => Infinity true
  | NaN => NaN
  end.

Record State : Type := { time : Q; frame : Z; cycle : Z }.

Inductive RendererType : Type := canvas | text.

(** What [run] asks of the target element: whether it is a [CANVAS]. *)
Inductive NodeName : Type := CANVAS | OtherNode.

(** [Settings], after the merge of the default settings, the run
    settings and the program's.  Of the target element only the node
    name is kept here; the element itself is with the renderer's
    state. *)
Record Settings : Type :=
  { element : option NodeName;
    cols : nat;
    rows : nat;
    once : bool;
    fps : Q;
    rendererType : RendererType;
    allowSelect : bool;
    restoreState : bool;
    backgroundColor : prim;
    color : prim;
    fontWeight : prim }.

Record Metrics : Type := { cellWidth : Q; lineHeight : Q }.

Definition aspect (m : Metrics) : number := js_div (cellWidth m) (lineHeight m).

Record Runtime : Type := { rt_cycle : Z; rt_fps : Q }.

Record Context : Type :=
  { ctx_frame : Z;
    ctx_time : Q;
    ctx_cols : nat;
    ctx_rows : nat;
    ctx_metrics : Metrics;
    ctx_width : Q;
    ctx_height : Q;
    ctx_settings : Settings;
    ctx_runtime : Runtime }.

Record Coordinate : Type := { x : nat; y : nat; index : nat }.

(** The state of the previous frame, as the cursor carries it: three
    fields and nothing nested. *)
Record PreviousCursor : Type :=
  { p_x : number; p_y : number; p_pressed : bool }.

Record Cursor : Type :=
  { c_x : number; c_y : number; c_pressed : bool; p : PreviousCursor }.

(** Input pointer updated by DOM events. *)
Record Pointer : Type :=
  { ptr_x : Q; ptr_y : Q; ptr_pressed : bool;
    ptr_px : Q; ptr_py : Q; ptr_ppressed : bool }.

Inductive Promise : Type :=
  | Pending
  | Resolved (c : Context)
  | Rejected (e : string).

Section WithProgram.

(** The user variables handed to every hook. *)
Context {Vars : Type}.

(** A user hook acts on the buffer and on the user variables, and may
    throw. *)
Definition Hook (A : Type) : Type := M (list value * Vars) A.

Record Program : Type :=
  { boot : option (Context → Hook unit);
    pre : option (Context → Cursor → Hook unit);
    main : option (Coordinate → Context → Cursor → Hook value);
    post : option (Context → Cursor → Hook unit) }.

(** The renderer interface: [render(context, buffer, settings)], acting
    on the renderer's own state and the target element. *)
Context {RS : Type}.

Record Renderer : Type :=
  { render : Context → list value → Settings → M RS unit }.

(** The frame-rate estimator ([core/fps]), whose source is not part of
    the model: its state, [update(t)] and the [fps] it reports. *)
Context {FPS : Type} (fps_update : Q → FPS → FPS) (fps_fps : FPS → Q).

(** Everything the closure of [run] holds, with the host's side: the
    local storage entry, the promise returned by [run], the number of
    animation frame requests not yet served, and the size of the
    element as last measured. *)
Record World : Type :=
  { state : State;
    timeSample : Q;
    timeOffset : Q;
    pointer : Pointer;
    metrics : Metrics;
    w_cols : option nat;
    w_rows : option nat;
    buffer : list value;
    variables : Vars;
    fps_state : FPS;
    renderer : option Renderer;
    renderer_state : RS;
    stored : option State;
    promise : Promise;
    requested : nat;
    rect_width : Q;
    rect_height : Q }.

Definition with_hook_state (bv : list value * Vars) (w : World) : World :=
  {| state := state w; timeSample := timeSample w; timeOffset := timeOffset w;
     pointer := pointer w; metrics := metrics w;
     w_cols := w_cols w; w_rows := w_rows w;
     buffer := fst bv; variables := snd bv; fps_state := fps_state w;
     renderer := renderer w; renderer_state := renderer_state w;
     stored := stored w; promise := promise w; requested := requested w;
     rect_width := rect_width w; rect_height := rect_height w |}.

Definition with_buffer (b : list value) (w : World) : World :=
  with_hook_state (b, variables w) w.

Definition with_renderer_state (r : RS) (w : World) : World :=
  {| state := state w; timeSample := timeSample w; timeOffset := timeOffset w;
     pointer := pointer w; metrics := metrics w;
     w_cols := w_cols w; w_rows := w_rows w;
     buffer := buffer w; variables := variables w; fps_state := fps_state w;
     renderer := renderer w; renderer_state := r;
     stored := stored w; promise := promise w; requested := requested w;
     rect_width := rect_width w; rect_height := rect_height w |}.

Definition with_promise (p : Promise) (w : World) : World :=
  {| state := state w; timeSample := timeSample w; timeOffset := timeOffset w;
     pointer := pointer w; metrics := metrics w;
     w_cols := w_cols w; w_rows := w_rows w;
     buffer := buffer w; variables := variables w; fps_state := fps_state w;
     renderer := renderer w; renderer_state := renderer_state w;
     stored := stored w; promise := p; requested := requested w;
     rect_width := rect_width w; rect_height := rect_height w |}.

Definition with_pointer (p : Pointer) (w : World) : World :=
  {| state := state w; timeSample := timeSample w; timeOffset := timeOffset w;
     pointer := p; metrics := metrics w;
     w_cols := w_cols w; w_rows := w_rows w;
     buffer := buffer w; variables := variables w; fps_state := fps_state w;
     renderer := renderer w; renderer_state := renderer_state w;
     stored := stored w; promise := promise w; requested := requested w;
     rect_width := rect_width w; rect_height := rect_height w |}.

(** Calls a user hook. *)
Definition call {A} (h : Hook A) : M World A :=
  lift (λ w, (buffer w, variables w)) with_hook_state h.

(** [requestAnimationFrame(loop)] *)
Definition request (w : World) : World :=
  {| state := state w; timeSample := timeSample w; timeOffset := timeOffset w;
     pointer := pointer w; metrics := metrics w;
     w_cols := w_cols w; w_rows := w_rows w;
     buffer := buffer w; variables := variables w; fps_state := fps_state w;
     renderer := renderer w; renderer_state := renderer_state w;
     stored := stored w; promise := promise w; requested := S (requested w);
     rect_width := rect_width w; rect_height := rect_height w |}.

Definition requestAnimationFrame : M World unit := modify request.

(** [resolve(context)]: settles the promise if it is still pending. *)
Definition resolve (context : Context) : M World unit :=
  modify (λ w,
    with_promise
      (match promise w with Pending => Resolved context | s => s end) w).

(** [new Promise(executor)]: the executor runs at once; what it throws
    while it runs rejects the promise.  The promise is given no other
    way to be rejected: the executor of [run] takes [resolve] only. *)
Definition new_Promise (executor : M World unit) (w : World) : World :=
  match executor w with
  | (Ok _, w') => w'
  | (Throw e, w') =>
      with_promise (match promise w' with Pending => Rejected e | s => s end) w'
  end.

(** [setting || Math.floor(size / metric)], when it is a natural
    number.  It is not one when the setting is 0 and the metric is 0,
    the quotient being [Infinity] or [NaN], nor when the quotient is
    negative (which the sizes the DOM reports never make it). *)
Definition dimension (setting : nat) (size metric : Q) : option nat :=
  if bool_decide (setting = 0%nat) then
    match js_div size metric with
    | Finite q => if Qlt_le_dec q 0 then None else Some (Z.to_nat (Qfloor q))
    | _ => None
    end
  else Some setting.

(** Whether [context.cols] and [context.rows] are both natural
    numbers. *)
Definition grid_is_number (settings : Settings) (w : World) : bool :=
  bool_decide
    (is_Some (dimension (cols settings) (rect_width w) (cellWidth (metrics w))))
  && bool_decide
       (is_Some (dimension (rows settings) (rect_height w)
                           (lineHeight (metrics w)))).

(** Build / update the 'context' object (immutable).  Where a
    dimension is not a natural number the field holds 0: a frame
    throws before anything reads it (see [loop]), and [boot] alone is
    handed such a context. *)
Definition getContext (settings : Settings) (w : World) : Context :=
  let cols := default 0%nat
                (dimension (cols settings) (rect_width w)
                           (cellWidth (metrics w))) in
  let rows := default 0%nat
                (dimension (rows settings) (rect_height w)
                           (lineHeight (metrics w))) in
  {| ctx_frame := frame (state w);
     ctx_time := time (state w);
     ctx_cols := cols;
     ctx_rows := rows;
     ctx_metrics := metrics w;
     ctx_width := rect_width w;
     ctx_height := rect_height w;
     ctx_settings := settings;
     ctx_runtime := {| rt_cycle := cycle (state w);
                       rt_fps := fps_fps (fps_state w) |} |}.

(** The timing update: FPS update, [timeSample], [state.time],
    [state.frame++] and the store of the state. *)
Definition timing_update (t delta interval : Q) (w : World) : World :=
  let state' := {| time := t + timeOffset w;
                   frame := (frame (state w) + 1)%Z;
                   cycle := cycle (state w) |} in
  {| state := state';
     timeSample := t - js_rem delta interval;
     timeOffset := timeOffset w;
     pointer := pointer w; metrics := metrics w;
     w_cols := w_cols w; w_rows := w_rows w;
     buffer := buffer w; variables := variables w;
     fps_state := fps_update t (fps_state w);
     renderer := renderer w; renderer_state := renderer_state w;
     stored := Some state';
     promise := promise w; requested := requested w;
     rect_width := rect_width w; rect_height := rect_height w |}.

(** Cursor update. *)
Definition make_cursor (context : Context) (w : World) : Cursor :=
  let pointer := pointer w in
  let metrics := metrics w in
  {| (* The canvas might be slightly larger than the number
        of cols/rows, min is required! *)
     c_x := js_min (inject_Z (Z.of_nat (ctx_cols context)) - 1)
                   (js_div (ptr_x pointer) (cellWidth metrics));
     c_y := js_min (inject_Z (Z.of_nat (ctx_rows context)) - 1)
                   (js_div (ptr_y pointer) (lineHeight metrics));
     c_pressed := ptr_pressed pointer;
     p := {| (* state of previous frame *)
             p_x := js_div (ptr_px pointer) (cellWidth metrics);
             p_y := js_div (ptr_py pointer) (lineHeight metrics);
             p_pressed := ptr_ppressed pointer |} |}.

(** Pointer: store previous state. *)
Definition store_pointer (w : World) : World :=
  let pointer := pointer w in
  {| state := state w; timeSample := timeSample w; timeOffset := timeOffset w;
     pointer := {| ptr_x := ptr_x pointer; ptr_y := ptr_y pointer;
                   ptr_pressed := ptr_pressed pointer;
                   ptr_px := ptr_x pointer; ptr_py := ptr_y pointer;
                   ptr_ppressed := ptr_pressed pointer |};
     metrics := metrics w;
     w_cols := w_cols w; w_rows := w_rows w;
     buffer := buffer w; variables := variables w; fps_state := fps_state w;
     renderer := renderer w; renderer_state := renderer_state w;
     stored := stored w; promise := promise w; requested := requested w;
     rect_width := rect_width w; rect_height := rect_height w |}.

(** A cell with no value at all is just a space. *)
Definition EMPTY_CELL : string := " ".

(** Default cell style inserted in case of undefined / null. *)
Definition DEFAULT_CELL_STYLE (settings : Settings) : obj :=
  {[ "char" := PStr EMPTY_CELL;
     "color" := color settings;
     "backgroundColor" := backgroundColor settings;
     "fontWeight" := fontWeight settings ]}.

(** In case of resize / init normalize the buffer. *)
Definition normalize_buffer (settings : Settings) (context : Context)
    (w : World) : World :=
  if negb (bool_decide (w_cols w = Some (ctx_cols context)))
     || negb (bool_decide (w_rows w = Some (ctx_rows context)))
  then
    let n := (ctx_cols context * ctx_rows context)%nat in
    let resized := arr_resize n (buffer w) in
    let filled :=
      foldl (λ b i,
               arr_set i (VObj (<["char" := PStr EMPTY_CELL]>
                                  (DEFAULT_CELL_STYLE settings))) b)
            resized (seq 0 (length resized)) in
    {| state := state w; timeSample := timeSample w; timeOffset := timeOffset w;
       pointer := pointer w; metrics := metrics w;
       w_cols := Some (ctx_cols context); w_rows := Some (ctx_rows context);
       buffer := filled; variables := variables w; fps_state := fps_state w;
       renderer := renderer w; renderer_state := renderer_state w;
       stored := stored w; promise := promise w; requested := requested w;
       rect_width := rect_width w; rect_height := rect_height w |}
  else w.

(** What [main] returned, merged into the cell at [idx]. *)
Definition apply_main (idx : nat) (out : value) (buffer : list value)
  : list value :=
  let cell :=
    match out with
    | VObj o => spread2 (arr_get idx buffer) (VObj o)
    | VPrim g => <["char" := g]> (spread (arr_get idx buffer))
    end in
  (* Fix undefined / null / etc. *)
  let cell :=
    if negb (truthy (field "char" cell))
       && negb (bool_decide (field "char" cell = PNum 0))
    then <["char" := PStr EMPTY_CELL]> cell
    else cell in
  arr_set idx (VObj cell) buffer.

(** Step 3 of the loop body for one cell: the call of [main] and the
    merge of what it returns. *)
Definition main_cell (main : Coordinate → Context → Cursor → Hook value)
    (context : Context) (cursor : Cursor) (j i : nat) : M World unit :=
  let offs := (j * ctx_cols context)%nat in
  let idx := (i + offs)%nat in
  out ← call (main {| x := i; y := j; index := idx |} context cursor);
  modify (λ w, with_buffer (apply_main idx out (buffer w)) w).

(** The numbered steps of the loop body, from the normalisation of the
    buffer to the resolution of the promise, for a context whose grid
    is a pair of natural numbers. *)
Definition steps (program : Program) (settings : Settings)
    (context : Context) (cursor : Cursor) : M World unit :=
  (* 1. In case of resize / init normalize the buffer *)
  modify (normalize_buffer settings context);;
  (* 2. Call pre(), if defined *)
  match pre program with
  | Some pre => call (pre context cursor)
  | None => mret tt
  end;;
  (* 3. Call main(), if defined *)
  match main program with
  | Some main =>
      for_each (seq 0 (ctx_rows context)) (λ j,
        for_each (seq 0 (ctx_cols context)) (λ i,
          main_cell main context cursor j i))
  | None => mret tt
  end;;
  (* 4. Call post(), if defined *)
  match post program with
  | Some post => call (post context cursor)
  | None => mret tt
  end;;
  (* 5. *)
  renderer ← gets renderer;
  match renderer with
  | Some r =>
      buffer ← gets buffer;
      lift renderer_state with_renderer_state (render r context buffer settings)
  | None => throw (A := unit) "TypeError"
  end;;
  (* 7. Loop (eventually) *)
  when (negb (once settings)) requestAnimationFrame;;
  (* The end of the first frame is reached without errors
     the promise can be resolved. *)
  resolve context.

(** [delta < interval], for [interval = 1000 / settings.fps]: with an
    [fps] of 0 the interval is [Infinity], and every [delta] is below
    it. *)
Definition too_early (settings : Settings) (delta : Q) : bool :=
  match js_div 1000 (fps settings) with
  | Finite interval => if Qlt_le_dec delta interval then true else false
  | Infinity negative => negb negative
  | NaN => false
  end.

(** Main program loop. *)
Definition loop (program : Program) (settings : Settings) (t : Q)
  : M World unit :=
  let interval := 1000 / fps settings in
  (* Timing *)
  timeSample ← gets timeSample;
  let delta := t - timeSample in
  if too_early settings delta then
    (* Skip the frame *)
    when (negb (once settings)) requestAnimationFrame
  else (
    (* Snapshot of context data *)
    context ← gets (getContext settings);
    (* FPS update, timing update *)
    modify (timing_update t delta interval);;
    (* Cursor update *)
    cursor ← gets (make_cursor context);
    (* Pointer: store previous state *)
    modify store_pointer;;
    (* 1. A grid that is not a pair of numbers differs from the one
       tracked, and [buffer.length = context.cols * context.rows]
       throws: the product is no array length.  (The tracked grid is
       assigned just before; no frame follows that would read it.) *)
    grid ← gets (grid_is_number settings);
    if (grid : bool) then steps program settings context cursor
    else throw "RangeError").

(** The pointer listeners. *)
Definition pointermove (offsetX offsetY : Q) (w : World) : World :=
  let p := pointer w in
  with_pointer {| ptr_x := offsetX; ptr_y := offsetY;
                  ptr_pressed := ptr_pressed p;
                  ptr_px := ptr_px p; ptr_py := ptr_py p;
                  ptr_ppressed := ptr_ppressed p |} w.

Definition pointerdown (w : World) : World :=
  let p := pointer w in
  with_pointer {| ptr_x := ptr_x p; ptr_y := ptr_y p; ptr_pressed := true;
                  ptr_px := ptr_px p; ptr_py := ptr_py p;
                  ptr_ppressed := ptr_ppressed p |} w.

Definition pointerup (w : World) : World :=
  let p := pointer w in
  with_pointer {| ptr_x := ptr_x p; ptr_y := ptr_y p; ptr_pressed := false;
                  ptr_px := ptr_px p; ptr_py := ptr_py p;
                  ptr_ppressed := ptr_ppressed p |} w.

(** The renderer [run] pairs with the target element: none when the
    element does not fit the renderer asked for (a warning is printed
    and [renderer] stays unassigned). *)
Definition choose_renderer (renderers : RendererType → Renderer)
    (settings : Settings) : option Renderer :=
  match element settings with
  | None => Some (renderers (rendererType settings))
  | Some node =>
      match rendererType settings, node with
      | canvas, CANVAS => Some (renderers canvas)
      | canvas, OtherNode => None
      | text, CANVAS => None
      | text, OtherNode => Some (renderers text)
      end
  end.

(** The body of the executor of [run]'s promise, up to the point where
    it returns: the state is set up and restored, the renderer chosen,
    and [boot] left to the font loading. *)
Definition executor (renderers : RendererType → Renderer) (settings : Settings)
  : M World unit :=
  modify (λ w,
    let state0 := {| time := 0; frame := 0; cycle := 0 |} in
    let state1 :=
      if restoreState settings then
        let restored := default state0 (stored w) in
        {| time := time restored; frame := frame restored;
           cycle := (cycle restored + 1)%Z |}
      else state0 in
    {| state := state1; timeSample := 0; timeOffset := time state1;
       pointer := {| ptr_x := 0; ptr_y := 0; ptr_pressed := false;
                     ptr_px := 0; ptr_py := 0; ptr_ppressed := false |};
       metrics := metrics w;
       w_cols := None; w_rows := None;
       buffer := []; variables := variables w; fps_state := fps_state w;
       renderer := choose_renderer renderers settings;
       renderer_state := renderer_state w;
       stored := stored w; promise := promise w; requested := requested w;
       rect_width := rect_width w; rect_height := rect_height w |}).

(** [run]: the promise is created around the executor.  The world
    given is the host as [run] finds it: the user variables, a new
    estimator, the local storage, no promise settled and no frame
    requested. *)
Definition run (renderers : RendererType → Renderer) (settings : Settings)
    (w : World) : World :=
  new_Promise (executor renderers settings) (with_promise Pending w).

(** [boot]: called once the fonts are ready, with the metrics as
    measured then. *)
Definition boot_once (program : Program) (settings : Settings)
    (measured : Metrics) : M World unit :=
  modify (λ w,
    {| state := state w; timeSample := timeSample w; timeOffset := timeOffset w;
       pointer := pointer w; metrics := measured;
       w_cols := w_cols w; w_rows := w_rows w;
       buffer := buffer w; variables := variables w; fps_state := fps_state w;
       renderer := renderer w; renderer_state := renderer_state w;
       stored := stored w; promise := promise w; requested := requested w;
       rect_width := rect_width w; rect_height := rect_height w |});;
  context ← gets (getContext settings);
  match boot program with
  | Some boot => call (boot context)
  | None => mret tt
  end;;
  requestAnimationFrame.

(** The host calls [boot] from the callback of [document.fonts.ready]
    (after two animation frames spent waiting): what [boot] throws
    there is not caught by [run]'s promise either. *)
Definition fonts_ready (program : Program) (settings : Settings)
    (measured : Metrics) (w : World) : option string * World :=
  match boot_once program settings measured w with
  | (Ok _, w') => (None, w')
  | (Throw e, w') => (Some e, w')
  end.

(** The host serves one animation frame request: the element is
    measured as [width] by [height] at that time, and [loop] is called
    with the timestamp [t].  The callback runs on its own, outside the
    executor of the promise: an exception it throws is not caught by
    anything and is reported as uncaught. *)
Definition animation_frame (program : Program) (settings : Settings)
    (t width height : Q) (w : World) : option string * World :=
  match requested w with
  | O => (None, w)
  | S n =>
      let w :=
        {| state := state w; timeSample := timeSample w;
           timeOffset := timeOffset w;
           pointer := pointer w; metrics := metrics w;
           w_cols := w_cols w; w_rows := w_rows w;
           buffer := buffer w; variables := variables w;
           fps_state := fps_state w;
           renderer := renderer w; renderer_state := renderer_state w;
           stored := stored w; promise := promise w; requested := n;
           rect_width := width; rect_height := height |} in
      match loop program settings t w with
      | (Ok _, w') => (None, w')
      | (Throw e, w') => (Some e, w')
      end
  end.

End WithProgram.

End Run.

(** ** The text renderer as the scheduler's renderer *)

Definition textRenderer : Run.Renderer (RS := TextRenderer.State) :=
  {| Run.render context buffer settings :=
       TextRenderer.render
         {| TextRenderer.ctx_cols := Run.ctx_cols context;
            TextRenderer.ctx_rows := Run.ctx_rows context;
            TextRenderer.ctx_settings :=
              {| TextRenderer.color := Run.color (Run.ctx_settings context);
                 TextRenderer.backgroundColor :=
                   Run.backgroundColor (Run.ctx_settings context);
                 TextRenderer.fontWeight :=
                   Run.fontWeight (Run.ctx_settings context) |} |}
         buffer |}.

(** ** Vocabulary of the statements *)

(** The two guards of [get], [set] and [merge] let a coordinate through
    exactly when it lies on the grid. *)
Definition in_bounds (x y cols rows : Z) : Prop :=
  0 ≤ x < cols ∧ 0 ≤ y < rows.

#[local] Instance in_bounds_dec x y cols rows : Decision (in_bounds x y cols rows).
Proof. unfold in_bounds. apply _. Defined.

(** The cell index of a coordinate, [x + y * cols]. *)
Definition index_of (x y cols : Z) : nat := Z.to_nat (x + y * cols).


(** The existing entry as [merge] flattens it before merging: an object
    as it is, a bare glyph [g] as [{char: g}] ([null] spreads to
    nothing). *)
Definition flatten (v : value) : obj :=
  match v with
  | VObj o => o
  | VPrim PNull => ∅
  | VPrim p => {["char" := p]}
  end.

(** The normalisation the specification describes for the merged value:
    a bare glyph [v] becomes [{char: v}]. *)
Definition normalize (v : value) : obj :=
  match v with
  | VObj o => o
  | VPrim p => {["char" := p]}
  end.

(** [merge] as the specification words it: the value is normalised,
    then its fields are laid over the existing cell. *)
Definition merge_normalizing (val : value) (x y : Z) (target : list value)
    (cols rows : Z) : list value :=
  if decide (in_bounds x y cols rows) then
    arr_set (index_of x y cols)
            (VObj (normalize val ∪ flatten (arr_get (index_of x y cols) target)))
            target
  else target.

(** The object literal [{ char, ...mergeObj }] that [mergeText] merges
    for the character [ch]. *)
Definition char_cell (mergeObj : option obj) (ch : string) : obj :=
  from_option id ∅ mergeObj ∪ {["char" := PStr ch]}.

(** The character that a text laid out from [(x, y)] puts at [(c, r)],
    if any: character [c - x] of line [r - y]. *)
Definition text_at (lines : list string) (x y c r : Z) : option string :=
  if decide (y ≤ r ∧ x ≤ c) then
    line ← lines !! Z.to_nat (r - y); chars line !! Z.to_nat (c - x)
  else None.

(** The entry at [(c, r)] after a text was merged into [target]. *)
Definition text_merged (mergeObj : option obj) (lines : list string)
    (x y : Z) (target : list value) (cols rows : Z) (c r : Z) : value :=
  match text_at lines x y c r with
  | Some ch =>
      VObj (char_cell mergeObj ch ∪ flatten (Buffer.get c r target cols rows))
  | None => Buffer.get c r target cols rows
  end.

(** The column of the last character inserted: the last character of
    the last line that is not empty, [x] when there is none. *)
Definition last_col (x : Z) (lines : list string) : Z :=
  foldl (λ col line,
           if decide (line = EmptyString) then col
           else x + Z.of_nat (String.length line) - 1) x lines.

(** The text ['AB\nCD'] of the specification's example. *)
Definition AB_CD : string := "AB" +:+ String "010" "CD".

(** A styled text whose fields carry a glyph of their own:
    [{text: 'A', char: 'Z'}]. *)
Definition text_with_char : Buffer.TextObject :=
  {| Buffer.to_text := "A"; Buffer.to_fields := {["char" := PStr "Z"]} |}.

(** Two cells match: both are objects and they agree on the glyph, the
    weight, the color and the background. *)
Definition same_cell (a b : value) : bool :=
  match a, b with
  | VObj a, VObj b =>
      bool_decide (field "char" a = field "char" b)
      && bool_decide (field "fontWeight" a = field "fontWeight" b)
      && bool_decide (field "color" a = field "color" b)
      && bool_decide (field "backgroundColor" a = field "backgroundColor" b)
  | _, _ => false
  end.

(** Some cell of row [j] does not match its entry in the back buffer. *)
Definition row_differs (buffer back : list value) (cols j : nat) : bool :=
  existsb (λ i, negb (same_cell (arr_get (i + j * cols) buffer)
                                (arr_get (i + j * cols) back)))
          (seq 0 cols).

(** A frame: every entry of the grid is a cell object. *)
Definition frame_of_cells (buffer : list value) (cols rows : nat) : Prop :=
  ∀ idx, (idx < cols * rows)%nat → ∃ o, arr_get idx buffer = VObj o.

(** The back buffer holds copies of cells, and holes: never [null]. *)
Definition no_null (back : list value) : Prop :=
  ∀ idx, arr_get idx back ≠ VPrim PNull.

(** The back buffer after the cells at [columns] of a row were compared
    and those that differ copied. *)
Definition sync_cells (buffer : list value) (offs : nat) (columns : list nat)
    (back : list value) : list value :=
  foldl (λ back i,
           let idx := (i + offs)%nat in
           if same_cell (arr_get idx buffer) (arr_get idx back) then back
           else arr_set idx (VObj (spread (arr_get idx buffer))) back)
        back columns.

(** The renderer's state after row [j] was rendered: as it was when no
    cell of the row differs; else the cells that differ are copied to
    the back buffer and the row element is rewritten. *)
Definition sync_row (context : TextRenderer.Context) (buffer : list value)
    (cols : nat) (s : TextRenderer.State) (j : nat) : TextRenderer.State :=
  if row_differs buffer (TextRenderer.backBuffer s) cols j then
    TextRenderer.write_row j
      (TextRenderer.row_html (TextRenderer.ctx_settings context)
                             buffer (j * cols) cols)
      (TextRenderer.set_backBuffer
         (sync_cells buffer (j * cols) (seq 0 cols)
                     (TextRenderer.backBuffer s)) s)
  else s.

(** The renderer's state after the rows [js] were rendered. *)
Definition sync_rows (context : TextRenderer.Context) (buffer : list value)
    (cols : nat) (js : list nat) (s : TextRenderer.State) : TextRenderer.State :=
  foldl (sync_row context buffer cols) s js.

(** The renderer's state once a resize was detected and the row
    elements reconciled, before the loop over the rows. *)
Definition prepared (context : TextRenderer.Context) (s : TextRenderer.State)
  : TextRenderer.State :=
  let resized :=
    negb (bool_decide (Some (TextRenderer.ctx_rows context) = TextRenderer.rows s))
    || negb (bool_decide (Some (TextRenderer.ctx_cols context) = TextRenderer.cols s)) in
  let n := TextRenderer.ctx_rows context in
  {| TextRenderer.backBuffer := if resized then [] else TextRenderer.backBuffer s;
     TextRenderer.cols := Some (TextRenderer.ctx_cols context);
     TextRenderer.rows := Some (TextRenderer.ctx_rows context);
     TextRenderer.children :=
       take n (TextRenderer.children s
                 ++ replicate (n - length (TextRenderer.children s)) "");
     TextRenderer.writes := TextRenderer.writes s |}.

(** The renderer's state when the module is loaded, on an element
    without rows. *)
Definition renderer_loaded : TextRenderer.State :=
  {| TextRenderer.backBuffer := []; TextRenderer.cols := None;
     TextRenderer.rows := None; TextRenderer.children := [];
     TextRenderer.writes := [] |}.

(** Two frames of ten rows of one cell, which differ in row 2 only. *)
Definition ten_rows : TextRenderer.Context :=
  {| TextRenderer.ctx_cols := 1; TextRenderer.ctx_rows := 10;
     TextRenderer.ctx_settings :=
       {| TextRenderer.color := PUndef; TextRenderer.backgroundColor := PUndef;
          TextRenderer.fontWeight := PUndef |} |}.

Definition frame_a : list value :=
  replicate 10 (VObj {["char" := PStr "a"]}).

Definition frame_b : list value :=
  <[2%nat := VObj {["char" := PStr "b"]}]> frame_a.

(** A specification of a computation: from a state that satisfies [P]
    it either returns [a] in a state that satisfies [Q a], or throws in
    a state that satisfies [E]. *)
Definition triple {S A} (P : S → Prop) (m : M S A) (Q : A → S → Prop)
    (E : S → Prop) : Prop :=
  ∀ s, P s →
    match m s with
    | (Ok a, s') => Q a s'
    | (Throw _, s') => E s'
    end.

(** The string [s] starts with the character [a].  A decimal numeral
    never starts with a letter, so the index keys under which a string
    is spread are never a cell's field names. *)
Definition starts_with (a : ascii) (s : string) : bool :=
  match s with
  | String b _ => Ascii.eqb a b
  | EmptyString => false
  end.

(** *** The scheduler *)

Section RunVocabulary.
Import Run.
Context {Vars RS FPS : Type}.
Local Abbreviation World := (Run.World (Vars := Vars) (RS := RS) (FPS := FPS)).

(** What of the world only the scheduler itself writes: neither the
    hooks, which act on the buffer and the user variables, nor the
    renderer, which acts on its own state, reach these. *)
Record Chassis : Type :=
  { ch_state : State; ch_timeSample : Q; ch_timeOffset : Q;
    ch_pointer : Pointer; ch_metrics : Metrics;
    ch_fps : FPS; ch_stored : option State;
    ch_promise : Promise; ch_requested : nat }.

Definition chassis (w : World) : Chassis :=
  {| ch_state := state w; ch_timeSample := timeSample w;
     ch_timeOffset := timeOffset w; ch_pointer := pointer w;
     ch_metrics := metrics w; ch_fps := fps_state w; ch_stored := stored w;
     ch_promise := promise w; ch_requested := requested w |}.

(** The last two statements of the loop body: the request of the next
    frame, unless in once mode, and the resolution of the promise. *)
Definition finish (settings : Settings) (context : Context) (w : World) : World :=
  let w := if once settings then w else request w in
  with_promise (match promise w with Pending => Resolved context | s => s end) w.

(** The time gate by itself, on the last accepted sample and the frame
    counter. *)
Definition gate (interval : Q) (t : Q) (c : Q * Z) : Q * Z :=
  let delta := t - fst c in
  if Qlt_le_dec delta interval then c
  else (t - js_rem delta interval, (snd c + 1)%Z).

(** A hook leaves the buffer as long as it found it. *)
Definition keeps_length {A} (h : Hook (Vars := Vars) A) : Prop :=
  ∀ bv, length (fst (snd (h bv))) = length (fst bv).

(** The hooks of a program all leave the buffer as long as they found
    it. *)
Definition hooks_keep_length (program : Program (Vars := Vars)) : Prop :=
  (∀ h context cursor, pre program = Some h → keeps_length (h context cursor)) ∧
  (∀ h coord context cursor,
     main program = Some h → keeps_length (h coord context cursor)) ∧
  (∀ h context cursor, post program = Some h → keeps_length (h context cursor)).

(** The buffer covers the grid the scheduler tracks, entry for entry. *)
Definition buffer_fits (c r : nat) (w : World) : Prop :=
  w_cols w = Some c ∧ w_rows w = Some r ∧ length (buffer w) = (c * r)%nat.

(** A dimension of the grid is left to the element, and the cell
    measures 0 along it: the quotient of the size by the metric is no
    number of cells. *)
Definition zero_cell (settings : Settings) (w : World) : Prop :=
  (cols settings = 0%nat ∧ cellWidth (metrics w) == 0) ∨
  (rows settings = 0%nat ∧ lineHeight (metrics w) == 0).

(** The default empty cell: a single space in the settings' default
    style. *)
Definition default_cell (settings : Settings) : value :=
  VObj {[ "char" := PStr " ";
          "color" := color settings;
          "backgroundColor" := backgroundColor settings;
          "fontWeight" := fontWeight settings ]}.

(** The glyph a cell is left with: the glyph itself when it is truthy
    or the number 0, else the empty glyph, a single space. *)
Definition coerce_glyph (g : prim) : prim :=
  if truthy g || bool_decide (g = PNum 0) then g else PStr " ".

(** The host serves the animation frames of the timestamps [ts], the
    element measuring [width] by [height] throughout; the exceptions
    left uncaught are collected. *)
Fixpoint animation_frames (fps_update : Q → FPS → FPS) (fps_fps : FPS → Q)
    (program : Program) (settings : Settings) (width height : Q)
    (ts : list Q) (w : World) : list string * World :=
  match ts with
  | [] => ([], w)
  | t :: ts' =>
      let '(e, w1) :=
        animation_frame fps_update fps_fps program settings t width height w in
      let '(es, w2) :=
        animation_frames fps_update fps_fps program settings width height ts' w1 in
      (option_list e ++ es, w2)
  end.

End RunVocabulary.

(** Ticks every [step] milliseconds: [step], [2 * step], ...,
    [n * step]. *)
Definition ticks (step : Z) (n : nat) : list Q :=
  (λ k, inject_Z (step * Z.of_nat k)) <$> seq 1 n.

(** *** A concrete run, for examples

    The program has no user variables, the renderer is the text
    renderer, and the frame-rate estimator is a stand-in that keeps no
    state and reports 0. *)

Module Demo.
Import Run.
Open Scope Q_scope.

Definition fps_update (t : Q) (f : unit) : unit := f.
Definition fps_fps (f : unit) : Q := 0.

Definition settings (once : bool) : Settings :=
  {| element := None; cols := 3; rows := 3; once := once; fps := 30;
     rendererType := text; allowSelect := false; restoreState := false;
     backgroundColor := PUndef; color := PUndef; fontWeight := PUndef |}.

(** The host before [run]: nothing stored, the text renderer as
    loaded. *)
Definition host : World (Vars := unit) (RS := TextRenderer.State) (FPS := unit) :=
  {| state := {| time := 0; frame := 0; cycle := 0 |};
     timeSample := 0; timeOffset := 0;
     pointer := {| ptr_x := 0; ptr_y := 0; ptr_pressed := false;
                   ptr_px := 0; ptr_py := 0; ptr_ppressed := false |};
     metrics := {| cellWidth := 0; lineHeight := 0 |};
     w_cols := None; w_rows := None; buffer := []; variables := tt;
     fps_state := tt; renderer := None; renderer_state := renderer_loaded;
     stored := None; promise := Pending; requested := 0;
     rect_width := 0; rect_height := 0 |}.

(** Cells of 10 by 20 pixels. *)
Definition measured : Metrics := {| cellWidth := 10; lineHeight := 20 |}.

(** The world once [run] was called and [boot] has run: the first
    animation frame is requested. *)
Definition booted (program : Program (Vars := unit)) (once : bool)
  : World (Vars := unit) (RS := TextRenderer.State) (FPS := unit) :=
  snd (fonts_ready fps_fps program (settings once) measured
         (run (λ _, textRenderer) (settings once) host)).

(** A program without hooks. *)
Definition no_hooks : Program (Vars := unit) :=
  {| boot := None; pre := None; main := None; post := None |}.

(** A program whose [main] throws. *)
Definition main_throws : Program (Vars := unit) :=
  {| boot := None; pre := None;
     main := Some (λ _ _ _, throw "Error");
     post := None |}.

(** A program with all three hooks, which write to the buffer in
    place: [pre] marks the first cell, [main] draws a dot, [post] marks
    the first cell again. *)
Definition in_place : Program (Vars := unit) :=
  {| boot := None;
     pre := Some (λ _ _,
       modify (λ bv, (<[0%nat := VObj {["char" := PStr "<"]}]> (fst bv), snd bv)));
     main := Some (λ _ _ _, mret (VPrim (PStr ".")));
     post := Some (λ _ _,
       modify (λ bv, (<[0%nat := VObj {["char" := PStr ">"]}]> (fst bv), snd bv))) |}.

(** An element that is not laid out: its cells measure 0 by 0. *)
Definition collapsed : Metrics := {| cellWidth := 0; lineHeight := 0 |}.

(** The grid left to the size of the element. *)
Definition auto (once : bool) : Settings :=
  {| element := None; cols := 0; rows := 0; once := once; fps := 30;
     rendererType := text; allowSelect := false; restoreState := false;
     backgroundColor := PUndef; color := PUndef; fontWeight := PUndef |}.

(** The world once [run] was called on an element that is not laid
    out, and [boot] has run. *)
Definition booted_collapsed (program : Program (Vars := unit))
    (settings : Settings)
  : World (Vars := unit) (RS := TextRenderer.State) (FPS := unit) :=
  snd (fonts_ready fps_fps program settings collapsed
         (run (λ _, textRenderer) settings host)).

(** A program whose [post] appends a cell to the buffer. *)
Definition post_pushes : Program (Vars := unit) :=
  {| boot := None; pre := None; main := None;
     post := Some (λ _ _, modify (λ bv, (fst bv ++ [VObj ∅], snd bv))) |}.

End Demo.

(** *** More vocabulary *)

(** Two buffers have the same shape around a grid: the same length and
    the same entries past the grid. *)
Definition same_shape (cols rows : Z) (t t' : list value) : Prop :=
  length t' = length t ∧
  ∀ j : nat, cols * rows ≤ Z.of_nat j → arr_get j t' = arr_get j t.

(** The opening tag of a run of cells of weight [w], color [c] and
    background [b]: the attributes equal to the settings' defaults, and
    the falsy ones, are left out. *)
Definition span_open (settings : TextRenderer.Settings) (w c b : prim) : string :=
  let c := if bool_decide (c = TextRenderer.color settings) then PNull else c in
  let b := if bool_decide (b = TextRenderer.backgroundColor settings)
           then PNull else b in
  let w := if bool_decide (w = TextRenderer.fontWeight settings)
           then PNull else w in
  let css := "" in
  let css := if truthy c then css +:+ "color:" +:+ to_string c +:+ ";" else css in
  let css := if truthy b then css +:+ "background:" +:+ to_string b +:+ ";"
             else css in
  let css := if truthy w then css +:+ "font-weight:" +:+ to_string w +:+ ";"
             else css in
  let css := if truthy (PStr css)
             then " style=" +:+ String "034" css +:+ String "034" ""
             else css in
  "<span" +:+ css +:+ ">".

(** The glyphs of the cells at [columns] of a row, as text. *)
Definition row_glyphs (buffer : list value) (offs : nat) (columns : list nat)
  : string :=
  foldr (λ i rest,
           to_string (TextRenderer.prop "char" (arr_get (i + offs) buffer))
           +:+ rest) "" columns.

(** A cell object of weight [w], color [c] and background [b] that
    carries no raw markup. *)
Definition plain_cell (w c b : prim) (v : value) : Prop :=
  ∃ o, v = VObj o ∧
       field "fontWeight" o = w ∧ field "color" o = c ∧
       field "backgroundColor" o = b ∧
       truthy (field "beginHTML" o) = false ∧
       truthy (field "endHTML" o) = false.

(** The back buffer while a repaint is under way: the entries before
    [k] are copies of cells, those from [k] on are not there yet. *)
Definition repainted (k : nat) (s : TextRenderer.State) : Prop :=
  (∀ idx, (idx < k)%nat → ∃ o, arr_get idx (TextRenderer.backBuffer s) = VObj o) ∧
  (∀ idx, (k ≤ idx)%nat → arr_get idx (TextRenderer.backBuffer s) = undefined).

(** The frame [frame_a] with a link opened before every cell. *)
Definition frame_a_linked : list value :=
  (λ v, VObj (<["beginHTML" := PStr "<a>"]> (spread v))) <$> frame_a.

(** A frame of two rows of one cell, the second cell being [null]. *)
Definition two_rows : TextRenderer.Context :=
  {| TextRenderer.ctx_cols := 1; TextRenderer.ctx_rows := 2;
     TextRenderer.ctx_settings :=
       {| TextRenderer.color := PUndef; TextRenderer.backgroundColor := PUndef;
          TextRenderer.fontWeight := PUndef |} |}.

Definition frame_null : list value :=
  [VObj {["char" := PStr "a"]}; VPrim PNull].

(** A row of [n] empty cells, as text. *)
Fixpoint spaces (n : nat) : string :=
  match n with
  | O => ""
  | S n' => String " " (spaces n')
  end.

(** The markup of a row of [n] default cells: bare spaces when the
    settings define no default style at all, else the spaces in a
    [span] without attributes. *)
Definition blank_row (settings : Run.Settings) (n : nat) : string :=
  if bool_decide (Run.fontWeight settings = PUndef ∧
                  Run.color settings = PUndef ∧
                  Run.backgroundColor settings = PUndef)
  then spaces n
  else "<span>" +:+ spaces n +:+ "</span>".

(** The text [s], [n] times. *)
Fixpoint repeat_text (s : string) (n : nat) : string :=
  match n with
  | O => ""
  | S n' => s +:+ repeat_text s n'
  end.

(** The markup of a row of [n] cells in the default style, all of the
    glyph [g]. *)
Definition glyph_row (settings : Run.Settings) (g : prim) (n : nat) : string :=
  if bool_decide (Run.fontWeight settings = PUndef ∧
                  Run.color settings = PUndef ∧
                  Run.backgroundColor settings = PUndef)
  then repeat_text (to_string g) n
  else "<span>" +:+ repeat_text (to_string g) n +:+ "</span>".

(** The settings the text renderer reads, of the scheduler's. *)
Definition text_settings (settings : Run.Settings) : TextRenderer.Settings :=
  {| TextRenderer.color := Run.color settings;
     TextRenderer.backgroundColor := Run.backgroundColor settings;
     TextRenderer.fontWeight := Run.fontWeight settings |}.

(** [run] pairs no renderer with an element that does not fit the
    renderer asked for. *)
Definition unfit (settings : Run.Settings) : Prop :=
  (Run.element settings = Some Run.CANVAS ∧
   Run.rendererType settings = Run.text) ∨
  (Run.element settings = Some Run.OtherNode ∧
   Run.rendererType settings = Run.canvas).

(** What stays as it is while no renderer is there. *)
Definition idle {Vars RS FPS : Type} (rs : RS) (p : Run.Promise)
    (w : Run.World (Vars := Vars) (RS := RS) (FPS := FPS)) : Prop :=
  Run.renderer w = None ∧ Run.renderer_state w = rs ∧ Run.promise w = p.

(** The buffer once the value [f] computes for the cell at column [i]
    and row [j] was merged into that cell. *)
Definition written_cell (f : Run.Coordinate → Run.Context → Run.Cursor → value)
    (context : Run.Context) (cursor : Run.Cursor) (j i : nat)
    (b : list value) : list value :=
  let idx := (i + j * Run.ctx_cols context)%nat in
  Run.apply_main idx
    (f {| Run.x := i; Run.y := j; Run.index := idx |} context cursor) b.

(** The calls of the hooks, as a program can record them in its user
    variables. *)
Inductive Event : Type :=
  | EvPre
  | EvMain (x y index : nat)
  | EvPost.

(** A program that records the calls of its hooks, in order; its [main]
    returns nothing. *)
Definition tracer : Run.Program (Vars := list Event) :=
  {| Run.boot := None;
     Run.pre := Some (λ _ _, modify (λ bv, (fst bv, snd bv ++ [EvPre])));
     Run.main := Some (λ coord _ _,
       modify (λ bv, (fst bv,
                      snd bv ++ [EvMain (Run.x coord) (Run.y coord)
                                        (Run.index coord)]));;
       mret undefined);
     Run.post := Some (λ _ _, modify (λ bv, (fst bv, snd bv ++ [EvPost]))) |}.

(** The calls of one frame on a grid of [n] columns and [m] rows. *)
Definition frame_events (n m : nat) : list Event :=
  [EvPre]
  ++ (seq 0 m ≫= λ j, (λ i, EvMain i j (i + j * n)) <$> seq 0 n)
  ++ [EvPost].

(** More concrete runs. *)
Module DemoMore.
Import Run.
Open Scope Q_scope.

(** A program whose [boot] throws. *)
Definition boot_throws : Program (Vars := unit) :=
  {| boot := Some (λ _, throw "Error"); pre := None; main := None;
     post := None |}.

(** A program whose [main] draws an [x] in every cell. *)
Definition main_x : Program (Vars := unit) :=
  {| boot := None; pre := None;
     main := Some (λ _ _ _, mret (VPrim (PStr "x")));
     post := None |}.

(** The text renderer asked for on a canvas element. *)
Definition text_on_canvas : Settings :=
  {| element := Some CANVAS; cols := 3; rows := 3; once := false; fps := 30;
     rendererType := text; allowSelect := false; restoreState := false;
     backgroundColor := PUndef; color := PUndef; fontWeight := PUndef |}.

(** The host before [run], for a program that records its calls. *)
Definition trace_host
  : World (Vars := list Event) (RS := TextRenderer.State) (FPS := unit) :=
  {| state := {| time := 0; frame := 0; cycle := 0 |};
     timeSample := 0; timeOffset := 0;
     pointer := {| ptr_x := 0; ptr_y := 0; ptr_pressed := false;
                   ptr_px := 0; ptr_py := 0; ptr_ppressed := false |};
     metrics := {| cellWidth := 0; lineHeight := 0 |};
     w_cols := None; w_rows := None; buffer := []; variables := [];
     fps_state := tt; renderer := None; renderer_state := renderer_loaded;
     stored := None; promise := Pending; requested := 0;
     rect_width := 0; rect_height := 0 |}.

(** A grid of two columns and two rows. *)
Definition two_by_two : Settings :=
  {| element := None; cols := 2; rows := 2; once := false; fps := 30;
     rendererType := text; allowSelect := false; restoreState := false;
     backgroundColor := PUndef; color := PUndef; fontWeight := PUndef |}.

(** The tracer once [run] was called and [boot] has run. *)
Definition trace_booted
  : World (Vars := list Event) (RS := TextRenderer.State) (FPS := unit) :=
  snd (fonts_ready Demo.fps_fps tracer two_by_two Demo.measured
         (run (λ _, textRenderer) two_by_two trace_host)).

(** The grid left to the size of the element. *)
Definition auto_grid : Settings :=
  {| element := None; cols := 0; rows := 0; once := false; fps := 30;
     rendererType := text; allowSelect := false; restoreState := false;
     backgroundColor := PUndef; color := PUndef; fontWeight := PUndef |}.

End DemoMore.
(** * Properties *)

(** ** Arrays *)

Lemma arr_get_set_eq i v l : arr_get i (arr_set i v l) = v.
Proof.
  unfold arr_get, arr_set. case_bool_decide as Hi.
  - by rewrite list_lookup_insert_eq.
  - rewrite lookup_app_r by lia.
    rewrite lookup_app_r by (rewrite length_replicate; lia).
    rewrite length_replicate. by replace (_ - _ - _)%nat with 0%nat by lia.
Qed.

Lemma arr_get_set_ne i j v l : i ≠ j → arr_get j (arr_set i v l) = arr_get j l.
Proof.
  intros Hne. unfold arr_get, arr_set. case_bool_decide as Hi.
  - by rewrite list_lookup_insert_ne.
  - destruct (decide (j < length l)%nat) as [Hj|Hj].
    + by rewrite lookup_app_l.
    + rewrite (lookup_ge_None_2 l j) by lia.
      rewrite lookup_app_r by lia.
      destruct (decide (j - length l < i - length l)%nat) as [Hlt|Hge].
      * rewrite lookup_app_l by (rewrite length_replicate; lia).
        by rewrite lookup_replicate_2.
      * rewrite lookup_app_r by (rewrite length_replicate; lia).
        rewrite length_replicate.
        rewrite lookup_ge_None_2; [done|simpl; lia].
Qed.

Lemma arr_set_length i v l :
  length (arr_set i v l) = (length l `max` S i)%nat.
Proof.
  unfold arr_set. case_bool_decide.
  - rewrite length_insert. lia.
  - rewrite !length_app, length_replicate. simpl. lia.
Qed.


(** ** The cell buffer *)

Section BufferProps.
Import Buffer.

Lemma index_of_inj x y x' y' cols rows :
  in_bounds x y cols rows → in_bounds x' y' cols rows →
  index_of x y cols = index_of x' y' cols → x = x' ∧ y = y'.
Proof.
  unfold in_bounds, index_of. intros [Hx Hy] [Hx' Hy'] Heq.
  apply Z2Nat.inj in Heq; [|nia..].
  assert (y = y') by nia. subst y'. lia.
Qed.

Ltac buffer_guards :=
  unfold in_bounds in *;
  repeat (case_bool_decide; try lia).

Lemma get_in_bounds x y target cols rows :
  in_bounds x y cols rows →
  get x y target cols rows = arr_get (index_of x y cols) target.
Proof. intros. unfold get. by buffer_guards. Qed.

Lemma get_out_of_bounds x y target cols rows :
  ¬ in_bounds x y cols rows → get x y target cols rows = VObj ∅.
Proof. intros. unfold get. by buffer_guards. Qed.

Lemma set_in_bounds v x y target cols rows :
  in_bounds x y cols rows →
  set v x y target cols rows = arr_set (index_of x y cols) v target.
Proof. intros. unfold set. by buffer_guards. Qed.

Lemma set_out_of_bounds v x y target cols rows :
  ¬ in_bounds x y cols rows → set v x y target cols rows = target.
Proof. intros. unfold set. by buffer_guards. Qed.

(** C7.  On the grid, [get] after [set] reads back the value written,
    whatever the buffer (a write past the end of a short array extends
    it).  Off the grid, [set] returns the buffer as it was and [get]
    returns the empty object.  Both are total: neither has a path that
    throws. *)
Theorem get_set_roundtrip (v : CellValue) (x y : Z) (target : Buffer)
    (cols rows : Z) :
  (in_bounds x y cols rows →
     get x y (set v x y target cols rows) cols rows = v) ∧
  (¬ in_bounds x y cols rows →
     set v x y target cols rows = target ∧
     get x y target cols rows = VObj ∅).
Proof.
  split.
  - intros Hin. rewrite set_in_bounds, get_in_bounds by done.
    apply arr_get_set_eq.
  - intros Hout. split.
    + by apply set_out_of_bounds.
    + by apply get_out_of_bounds.
Qed.

Lemma get_set_roundtrip_witness :
  get 1 1 (set (VPrim (PStr "x")) 1 1 [] 2 2) 2 2 = VPrim (PStr "x") ∧
  set (VPrim (PStr "x")) 2 0 [] 2 2 = [] ∧
  get (-1) 0 [VPrim (PStr "a")] 2 2 = VObj ∅.
Proof.
  split; [|split].
  - apply (proj1 (get_set_roundtrip (VPrim (PStr "x")) 1 1 [] 2 2)).
    unfold in_bounds; lia.
  - apply (proj2 (get_set_roundtrip (VPrim (PStr "x")) 2 0 [] 2 2)).
    unfold in_bounds; lia.
  - apply (proj2 (get_set_roundtrip (VPrim (PStr "x")) (-1) 0
                    [VPrim (PStr "a")] 2 2)).
    unfold in_bounds; lia.
Defined.

Lemma merge_in_bounds v x y target cols rows :
  in_bounds x y cols rows →
  merge v x y target cols rows =
    arr_set (index_of x y cols)
            (VObj (spread v ∪ flatten (arr_get (index_of x y cols) target)))
            target.
Proof.
  intros. unfold merge. buffer_guards. fold (index_of x y cols).
  unfold spread2. f_equal. f_equal. f_equal.
  by destruct (arr_get (index_of x y cols) target) as [[]|].
Qed.

Lemma merge_out_of_bounds v x y target cols rows :
  ¬ in_bounds x y cols rows → merge v x y target cols rows = target.
Proof. intros. unfold merge. by buffer_guards. Qed.

Lemma pretty_N_go_starts_with a x s :
  (∀ d, pretty_N_char d ≠ a) →
  starts_with a s = false → starts_with a (pretty_N_go x s) = false.
Proof.
  intros Hdigit. revert s.
  induction (N.lt_wf_0 x) as [x _ IH]; intros s Hs.
  destruct (decide (x = 0)%N) as [->|Hx]; [done|].
  rewrite pretty_N_go_step by lia.
  apply IH; [apply N.div_lt; lia|]. simpl.
  apply Ascii.eqb_neq. intros Heq. by apply (Hdigit (x `mod` 10)%N).
Qed.

Lemma pretty_nat_not_char (i : nat) : pretty i ≠ "char".
Proof.
  intros Heq.
  assert (starts_with "c" (pretty i) = false) as Hs.
  { unfold pretty, pretty_nat, pretty, pretty_N.
    case_decide; [done|].
    apply pretty_N_go_starts_with; [|done].
    intros d. unfold pretty_N_char. by repeat case_match. }
  by rewrite Heq in Hs.
Qed.

Lemma spread_prim_char p : spread (VPrim p) !! "char" = None.
Proof.
  destruct p as [| |s|n]; simpl; try apply lookup_empty.
  apply not_elem_of_list_to_map_1. intros Hin.
  apply list_elem_of_fmap in Hin as [[k w] [Hk Hin]].
  apply list_elem_of_lookup in Hin as [i Hi].
  rewrite list_lookup_imap in Hi.
  destruct (chars s !! i); simplify_eq/=.
  by eapply pretty_nat_not_char.
Qed.

(** C6, as the code has it.  On the grid, [merge] writes at index
    [x + y * cols] the fields of [v] laid over the existing entry, and
    touches no other entry.  It is the existing entry that is flattened
    to [{char: entry}] when it is a bare glyph; the merged value is
    spread as it is, so the fields of an object [v] win over the cell's
    and the rest of the cell is kept, while a bare glyph [v] contributes
    no [char] field and the cell keeps the glyph it had.  Off the grid
    the buffer is returned unchanged. *)
Theorem merge_spec (v : CellValue) (x y : Z) (target : Buffer) (cols rows : Z) :
  (in_bounds x y cols rows →
     get x y (merge v x y target cols rows) cols rows =
       VObj (spread v ∪ flatten (get x y target cols rows)) ∧
     (∀ o, v = VObj o → spread v = o) ∧
     (∀ p, v = VPrim p →
        field "char" (spread v ∪ flatten (get x y target cols rows)) =
        field "char" (flatten (get x y target cols rows))) ∧
     (∀ j, j ≠ index_of x y cols →
        arr_get j (merge v x y target cols rows) = arr_get j target)) ∧
  (¬ in_bounds x y cols rows → merge v x y target cols rows = target).
Proof.
  split.
  - intros Hin. rewrite merge_in_bounds by done.
    rewrite !get_in_bounds by done. split_and!.
    + by rewrite arr_get_set_eq.
    + by intros o ->.
    + intros p ->. unfold field.
      by rewrite lookup_union_r by apply spread_prim_char.
    + intros j Hj. by apply arr_get_set_ne.
  - apply merge_out_of_bounds.
Qed.

Lemma merge_spec_witness :
  let v := VObj {["color" := PStr "red"]} in
  let target := [VPrim (PStr "a"); VPrim (PStr "b")] in
  (in_bounds 1 0 2 1 ∧
   get 1 0 (merge v 1 0 target 2 1) 2 1 =
     VObj (spread v ∪ flatten (get 1 0 target 2 1))) ∧
  (¬ in_bounds 2 0 2 1 ∧ merge v 2 0 target 2 1 = target).
Proof.
  intros v target.
  assert (in_bounds 1 0 2 1) as Hin by (unfold in_bounds; lia).
  assert (¬ in_bounds 2 0 2 1) as Hout by (unfold in_bounds; lia).
  split; split; try assumption.
  - exact (proj1 (proj1 (merge_spec v 1 0 target 2 1) Hin)).
  - exact (proj2 (merge_spec v 2 0 target 2 1) Hout).
Defined.

(** C6, as the specification words it, fails on a bare glyph: merging
    ['A'] onto the cell [{char: ' '}] leaves the glyph a space and adds
    the property ['0'], where normalising first would set the glyph to
    ['A']. *)
Lemma merge_bare_glyph_counterexample :
  let target := [VObj {["char" := PStr " "]}] in
  in_bounds 0 0 1 1 ∧
  field "char" (spread (get 0 0 (merge (VPrim (PStr "A")) 0 0 target 1 1) 1 1))
    = PStr " " ∧
  field "0" (spread (get 0 0 (merge (VPrim (PStr "A")) 0 0 target 1 1) 1 1))
    = PStr "A" ∧
  field "char"
    (spread (get 0 0 (merge_normalizing (VPrim (PStr "A")) 0 0 target 1 1) 1 1))
    = PStr "A" ∧
  merge (VPrim (PStr "A")) 0 0 target 1 1 ≠
    merge_normalizing (VPrim (PStr "A")) 0 0 target 1 1.
Proof.
  intros target. split_and!; [unfold in_bounds; lia|by vm_compute..|].
  intros Heq.
  apply (f_equal (λ b, field "char" (spread (get 0 0 b 1 1)))) in Heq.
  by vm_compute in Heq.
Qed.

(** *** Text insertion *)

Lemma get_merge v x y target cols rows c r :
  in_bounds c r cols rows →
  get c r (merge v x y target cols rows) cols rows =
    if decide (c = x ∧ r = y)
    then VObj (spread v ∪ flatten (get c r target cols rows))
    else get c r target cols rows.
Proof.
  intros Hin. case_decide as Heq.
  - destruct Heq as [-> ->].
    rewrite merge_in_bounds, !get_in_bounds by done. apply arr_get_set_eq.
  - destruct (decide (in_bounds x y cols rows)) as [Hxy|Hxy].
    + rewrite merge_in_bounds, !get_in_bounds by done.
      apply arr_get_set_ne. intros Hidx.
      apply Heq. by eapply index_of_inj.
    + by rewrite merge_out_of_bounds.
Qed.

Lemma chars_length s : length (chars s) = String.length s.
Proof. induction s; simpl; congruence. Qed.

(** The inner loop, from character number [n] on. *)
Lemma mergeText_chars_from mo x cols rows (l : list string) :
  ∀ (n : nat) (st : MTState),
  let st' :=
    foldl (λ st '(charNum, char),
             let col := x + Z.of_nat charNum in
             {| mt_col := col; mt_row := mt_row st; mt_wrap := mt_wrap st;
                mt_target :=
                  merge (VObj (from_option id ∅ mo ∪ {["char" := PStr char]}))
                        col (mt_row st) (mt_target st) cols rows |})
          st (imap (λ i c, ((n + i)%nat, c)) l) in
  mt_row st' = mt_row st ∧ mt_wrap st' = mt_wrap st ∧
  mt_col st' =
    (if decide (l = []) then mt_col st
     else x + Z.of_nat n + Z.of_nat (length l) - 1) ∧
  ∀ c r, in_bounds c r cols rows →
    get c r (mt_target st') cols rows =
      match (if decide (r = mt_row st ∧ x + Z.of_nat n ≤ c)
             then l !! Z.to_nat (c - x - Z.of_nat n) else None) with
      | Some ch =>
          VObj (char_cell mo ch ∪ flatten (get c r (mt_target st) cols rows))
      | None => get c r (mt_target st) cols rows
      end.
Proof.
  induction l as [|ch l IH]; intros n st; simpl.
  - split_and!; try done. intros c r _. by case_decide.
  - rewrite Nat.add_0_r.
    rewrite (imap_ext _ (λ i c, ((S n + i)%nat, c)) l)
      by (intros; unfold compose; f_equal; lia).
    match goal with
    | |- context [foldl _ ?s _] => pose proof (IH (S n) s) as IH'
    end.
    cbv zeta in IH'. destruct IH' as (Hrow & Hwrap & Hcol & Hget).
    split_and!.
    { etrans; [exact Hrow|done]. }
    { etrans; [exact Hwrap|done]. }
    { etrans; [exact Hcol|].
      destruct (decide (l = [])) as [->|]; simpl; lia. }
    intros c r Hin. etrans; [exact (Hget c r Hin)|]. clear Hget. simpl.
    rewrite get_merge by done. simpl.
    destruct (decide (r = mt_row st)) as [->|Hr].
    + destruct (decide (c = x + Z.of_nat n)) as [->|Hc].
      * rewrite decide_False by lia.
        rewrite decide_True by done. rewrite decide_True by lia.
        by replace (Z.to_nat _) with 0%nat by lia.
      * rewrite (decide_False (P := c = _ ∧ _)) by (intros [? _]; done).
        destruct (decide (x + Z.of_nat n ≤ c)).
        -- rewrite !decide_True by lia.
           replace (Z.to_nat (c - x - Z.of_nat n))
             with (S (Z.to_nat (c - x - Z.of_nat (S n)))) by lia.
           done.
        -- rewrite !decide_False by lia. done.
    + rewrite !decide_False by (intros [??]; lia). done.
Qed.

Lemma mergeText_chars_spec mo x cols rows line st :
  let st' := mergeText_chars mo x cols rows line st in
  mt_row st' = mt_row st ∧ mt_wrap st' = mt_wrap st ∧
  mt_col st' =
    (if decide (line = EmptyString) then mt_col st
     else x + Z.of_nat (String.length line) - 1) ∧
  ∀ c r, in_bounds c r cols rows →
    get c r (mt_target st') cols rows =
      match (if decide (r = mt_row st ∧ x ≤ c)
             then chars line !! Z.to_nat (c - x) else None) with
      | Some ch =>
          VObj (char_cell mo ch ∪ flatten (get c r (mt_target st) cols rows))
      | None => get c r (mt_target st) cols rows
      end.
Proof.
  pose proof (mergeText_chars_from mo x cols rows (chars line) 0 st) as Hfrom.
  cbv zeta in Hfrom. destruct Hfrom as (Hrow & Hwrap & Hcol & Hget).
  split_and!.
  - exact Hrow.
  - exact Hwrap.
  - etrans; [exact Hcol|]. rewrite chars_length.
    destruct line; simpl; repeat case_decide; try done; lia.
  - intros c r Hin. etrans; [exact (Hget c r Hin)|].
    rewrite Z.add_0_r, Z.sub_0_r. done.
Qed.

(** One line: the inner loop, then the line's [wrapInfo] entry, then
    [row++]. *)
Lemma mergeText_line_spec mo x cols rows st line :
  let st' := mergeText_line mo x cols rows st line in
  mt_row st' = mt_row st + 1 ∧
  mt_col st' =
    (if decide (line = EmptyString) then mt_col st
     else x + Z.of_nat (String.length line) - 1) ∧
  mt_wrap st' =
    mt_wrap st ++
      [{| first := get x (mt_row st) (mt_target st') cols rows;
          last := get (x + Z.of_nat (String.length line) - 1) (mt_row st)
                      (mt_target st') cols rows |}] ∧
  ∀ c r, in_bounds c r cols rows →
    get c r (mt_target st') cols rows =
      match (if decide (r = mt_row st ∧ x ≤ c)
             then chars line !! Z.to_nat (c - x) else None) with
      | Some ch =>
          VObj (char_cell mo ch ∪ flatten (get c r (mt_target st) cols rows))
      | None => get c r (mt_target st) cols rows
      end.
Proof.
  pose proof (mergeText_chars_spec mo x cols rows line st) as Hchars.
  cbv zeta in Hchars. destruct Hchars as (Hrow & Hwrap & Hcol & Hget).
  unfold mergeText_line. simpl. rewrite Hrow, Hwrap, Hcol. done.
Qed.

(** Rows above the one being written are left alone. *)
Lemma get_rows_above (T T' : Buffer) cols rows y0 :
  (∀ c r, in_bounds c r cols rows → r < y0 →
     get c r T' cols rows = get c r T cols rows) →
  ∀ c r, r < y0 → get c r T' cols rows = get c r T cols rows.
Proof.
  intros Hin c r Hr.
  destruct (decide (in_bounds c r cols rows)); [by apply Hin|].
  by rewrite !get_out_of_bounds.
Qed.

Lemma text_at_above lines x y c r : r < y → text_at lines x y c r = None.
Proof. intros. unfold text_at. by rewrite decide_False by lia. Qed.

Lemma text_at_cons line lines x y c r :
  text_at (line :: lines) x y c r =
    if decide (r = y) then
      (if decide (x ≤ c) then chars line !! Z.to_nat (c - x) else None)
    else text_at lines x (y + 1) c r.
Proof.
  unfold text_at. destruct (decide (r = y)) as [->|Hne].
  - replace (Z.to_nat (y - y)) with 0%nat by lia. simpl.
    repeat case_decide; try done; lia.
  - destruct (decide (y < r)).
    + replace (Z.to_nat (r - y)) with (S (Z.to_nat (r - (y + 1)))) by lia.
      simpl. repeat case_decide; try done; lia.
    + repeat case_decide; try done; lia.
Qed.

(** The outer loop over the lines. *)
Lemma mergeText_lines_spec mo x cols rows (lines : list string) :
  ∀ st : MTState,
  let st' := foldl (mergeText_line mo x cols rows) st lines in
  mt_row st' = mt_row st + Z.of_nat (length lines) ∧
  mt_col st' =
    foldl (λ col line,
             if decide (line = EmptyString) then col
             else x + Z.of_nat (String.length line) - 1) (mt_col st) lines ∧
  mt_wrap st' =
    mt_wrap st ++
      imap (λ k line,
              {| first := get x (mt_row st + Z.of_nat k) (mt_target st')
                              cols rows;
                 last := get (x + Z.of_nat (String.length line) - 1)
                             (mt_row st + Z.of_nat k) (mt_target st')
                             cols rows |}) lines ∧
  ∀ c r, in_bounds c r cols rows →
    get c r (mt_target st') cols rows =
      text_merged mo lines x (mt_row st) (mt_target st) cols rows c r.
Proof.
  induction lines as [|line lines IH]; intros st; simpl.
  - split_and!; [lia|done|by rewrite app_nil_r|].
    intros c r _. unfold text_merged, text_at.
    case_decide; [|done]. by rewrite lookup_nil.
  - pose proof (mergeText_line_spec mo x cols rows st line) as Hline.
    cbv zeta in Hline. destruct Hline as (Hrow1 & Hcol1 & Hwrap1 & Hget1).
    specialize (IH (mergeText_line mo x cols rows st line)).
    cbv zeta in IH. destruct IH as (Hrow & Hcol & Hwrap & Hget).
    set (st1 := mergeText_line mo x cols rows st line) in *.
    set (st' := foldl (mergeText_line mo x cols rows) st1 lines) in *.
    assert (∀ c r, r < mt_row st1 →
              get c r (mt_target st') cols rows =
              get c r (mt_target st1) cols rows) as Habove.
    { apply get_rows_above. intros c r Hin Hr. rewrite (Hget c r Hin).
      unfold text_merged. by rewrite text_at_above. }
    split_and!.
    + lia.
    + by rewrite Hcol, Hcol1.
    + rewrite Hwrap, Hwrap1, <-app_assoc. f_equal. simpl. f_equal.
      * rewrite Z.add_0_r. by rewrite !Habove by lia.
      * apply imap_ext. intros k l _. unfold compose.
        assert (mt_row (mergeText_chars mo x cols rows line st) = mt_row st)
          as -> by apply mergeText_chars_spec.
        by replace (mt_row st + 1 + Z.of_nat k)
          with (mt_row st + Z.of_nat (S k)) by lia.
    + intros c r Hin. rewrite (Hget c r Hin). unfold text_merged.
      rewrite text_at_cons, Hrow1.
      destruct (decide (r = mt_row st)) as [->|Hne].
      * rewrite text_at_above by lia. rewrite (Hget1 c _ Hin).
        destruct (decide (x ≤ c)).
        -- by rewrite decide_True by done.
        -- by rewrite decide_False by (intros [??]; lia).
      * rewrite (Hget1 c r Hin).
        by rewrite decide_False by (intros [??]; lia).
Qed.

Lemma split_lines_nonempty s : split_lines s ≠ [].
Proof.
  induction s as [|a s IH]; simpl; [done|].
  destruct (Ascii.eqb a "010"); [done|].
  by destruct (split_lines s).
Qed.

(** [mergeText] as a whole, for either form of its argument. *)
Lemma mergeText_spec_gen (textObj : TextArg) x y target cols rows :
  let text := match textObj with
              | TextOfObject t => to_text t
              | TextOfString s => s
              end in
  let mo := match textObj with
            | TextOfObject t => Some (delete "text" (TextObject_obj t))
            | TextOfString _ => None
            end in
  let lines := split_lines text in
  let res := fst (mergeText textObj x y target cols rows) in
  let target' := snd (mergeText textObj x y target cols rows) in
  offset res =
    {| col := last_col x lines; row := y + Z.of_nat (length lines) - 1 |} ∧
  wrapInfo res =
    imap (λ k line,
            {| first := get x (y + Z.of_nat k) target' cols rows;
               last := get (x + Z.of_nat (String.length line) - 1)
                           (y + Z.of_nat k) target' cols rows |}) lines ∧
  ∀ c r, in_bounds c r cols rows →
    get c r target' cols rows =
      match text_at lines x y c r with
      | Some ch => VObj (char_cell mo ch ∪ flatten (get c r target cols rows))
      | None => get c r target cols rows
      end.
Proof.
  intros text mo lines. unfold mergeText.
  replace (match textObj with
           | TextOfObject t => (to_text t, Some (delete "text" (TextObject_obj t)))
           | TextOfString s => (s, None)
           end) with (text, mo) by (by destruct textObj).
  pose proof (mergeText_lines_spec mo x cols rows lines
                {| mt_col := x; mt_row := y; mt_wrap := []; mt_target := target |})
    as Hlines.
  cbv zeta in Hlines. simpl in Hlines.
  destruct Hlines as (Hrow & Hcol & Hwrap & Hget).
  fold lines. simpl. rewrite Hrow.
  split_and!; try done.
  f_equal; [done|].
  pose proof (split_lines_nonempty text) as Hne. fold lines in Hne.
  destruct lines; [done|]. simpl. lia.
Qed.

Lemma char_cell_char_None ch : char_cell None ch !! "char" = Some (PStr ch).
Proof. unfold char_cell. simpl. by rewrite lookup_union_r, lookup_singleton_eq. Qed.

(** C9, as the code has it.  [mergeText] splits the text on line breaks
    and merges the characters of line [k] left to right on row [y + k]
    from column [x] on: an entry of the grid that receives a character
    becomes that character (with the fields of a styled text) laid over
    what was there, and every other entry of the grid is as before.  The
    offset it returns is the coordinate of the last inserted character
    itself, not the one after it: the column of the last character of
    the last line that is not empty, and the row of the last line.  The
    [wrapInfo] has one entry per line, holding the entries at the line's
    first and last column.  For ['AB\nCD'] at [(0, 0)] on a 2×2 grid
    the four glyphs are [A], [B], [C], [D] and the offset is
    [{col: 1, row: 1}]. *)
Theorem mergeText_spec :
  (∀ (textObj : TextArg) (x y : Z) (target : Buffer) (cols rows : Z),
     let text := match textObj with
                 | TextOfObject t => to_text t
                 | TextOfString s => s
                 end in
     let mo := match textObj with
               | TextOfObject t => Some (delete "text" (TextObject_obj t))
               | TextOfString _ => None
               end in
     let lines := split_lines text in
     let res := fst (mergeText textObj x y target cols rows) in
     let target' := snd (mergeText textObj x y target cols rows) in
     offset res =
       {| col := last_col x lines; row := y + Z.of_nat (length lines) - 1 |} ∧
     wrapInfo res =
       imap (λ k line,
               {| first := get x (y + Z.of_nat k) target' cols rows;
                  last := get (x + Z.of_nat (String.length line) - 1)
                              (y + Z.of_nat k) target' cols rows |}) lines ∧
     ∀ c r, in_bounds c r cols rows →
       get c r target' cols rows =
         match text_at lines x y c r with
         | Some ch =>
             VObj (char_cell mo ch ∪ flatten (get c r target cols rows))
         | None => get c r target cols rows
         end) ∧
  (∀ target : Buffer,
     let res := fst (mergeText (TextOfString AB_CD) 0 0 target 2 2) in
     let target' := snd (mergeText (TextOfString AB_CD) 0 0 target 2 2) in
     field "char" (spread (get 0 0 target' 2 2)) = PStr "A" ∧
     field "char" (spread (get 1 0 target' 2 2)) = PStr "B" ∧
     field "char" (spread (get 0 1 target' 2 2)) = PStr "C" ∧
     field "char" (spread (get 1 1 target' 2 2)) = PStr "D" ∧
     offset res = {| col := 1; row := 1 |}).
Proof.
  split.
  - apply mergeText_spec_gen.
  - intros target res target'.
    pose proof (mergeText_spec_gen (TextOfString AB_CD) 0 0 target 2 2) as Hgen.
    cbv zeta in Hgen. fold res target' in Hgen.
    destruct Hgen as (Hoff & _ & Hget).
    assert (∀ c r ch,
              in_bounds c r 2 2 →
              text_at (split_lines AB_CD) 0 0 c r = Some ch →
              field "char" (spread (get c r target' 2 2)) = PStr ch) as Hchar.
    { intros c r ch Hin Hat. rewrite (Hget c r Hin), Hat. simpl. unfold field.
      by rewrite lookup_union_l', char_cell_char_None
        by (rewrite char_cell_char_None; eauto). }
    split_and!; try (apply Hchar; [unfold in_bounds; lia|done]).
    exact Hoff.
Qed.

Lemma mergeText_spec_witness :
  in_bounds 1 0 2 1 ∧
  get 1 0 (snd (mergeText (TextOfString "ab") 0 0 [] 2 1)) 2 1 =
    match text_at (split_lines "ab") 0 0 1 0 with
    | Some ch => VObj (char_cell None ch ∪ flatten (get 1 0 [] 2 1))
    | None => get 1 0 [] 2 1
    end.
Proof.
  assert (in_bounds 1 0 2 1) as Hin by (unfold in_bounds; lia).
  split; [exact Hin|].
  exact (proj2 (proj2 (proj1 mergeText_spec (TextOfString "ab") 0 0 [] 2 1))
           1 0 Hin).
Defined.

(** C9, as the specification words it, fails on its own example: the
    last character inserted, [D], is at [(1, 1)], and the offset
    returned is [(1, 1)] itself, not the coordinate after it. *)
Lemma mergeText_offset_counterexample :
  let target := replicate 4 (VObj {["char" := PStr " "]}) in
  let res := fst (mergeText (TextOfString AB_CD) 0 0 target 2 2) in
  let target' := snd (mergeText (TextOfString AB_CD) 0 0 target 2 2) in
  get 1 1 target' 2 2 = VObj {["char" := PStr "D"]} ∧
  offset res = {| col := 1; row := 1 |} ∧
  offset res ≠ {| col := 1 + 1; row := 1 |}.
Proof. by vm_compute. Qed.

(** C10, as the code has it.  The fields merged for each character of a
    styled text are [{ char, ...mergeObj }], where [mergeObj] is the
    text object without its [text] property.  So an entry of the grid
    that receives a character gets no [text] field it did not have, its
    other fields are those of the text object laid over the ones it had,
    and its glyph is the line's character unless the text object has a
    [char] field of its own, which then takes its place.  Entries that
    receive no character are as before. *)
Theorem mergeText_strips_text (t : TextObject) (x y : Z) (target : Buffer)
    (cols rows : Z) (c r : Z) :
  let target' := snd (mergeText (TextOfObject t) x y target cols rows) in
  let old := flatten (get c r target cols rows) in
  delete "text" (TextObject_obj t) !! "text" = None ∧
  (in_bounds c r cols rows →
   ∀ ch, text_at (split_lines (to_text t)) x y c r = Some ch →
     ∃ cell : obj,
       get c r target' cols rows = VObj cell ∧
       cell !! "text" = old !! "text" ∧
       (to_fields t !! "char" = None → cell !! "char" = Some (PStr ch)) ∧
       (∀ g, to_fields t !! "char" = Some g → cell !! "char" = Some g) ∧
       (∀ k, k ≠ "char" → k ≠ "text" →
          cell !! k = (to_fields t ∪ old) !! k)) ∧
  (in_bounds c r cols rows →
   text_at (split_lines (to_text t)) x y c r = None →
   get c r target' cols rows = get c r target cols rows).
Proof.
  intros target' old.
  pose proof (mergeText_spec_gen (TextOfObject t) x y target cols rows) as Hgen.
  cbv zeta in Hgen. fold target' in Hgen. destruct Hgen as (_ & _ & Hget).
  split_and!.
  - apply lookup_delete_eq.
  - intros Hin ch Hat. rewrite (Hget c r Hin), Hat. fold old.
    eexists. split; [done|]. unfold char_cell, TextObject_obj. simpl.
    rewrite delete_insert_eq.
    split_and!.
    + rewrite <-!(assoc_L (∪)). rewrite lookup_union_r by apply lookup_delete_eq.
      by rewrite lookup_union_r by done.
    + intros Hnone. rewrite <-!(assoc_L (∪)).
      rewrite lookup_union_r by (by rewrite lookup_delete_ne).
      by rewrite lookup_union_l', lookup_singleton_eq
        by (rewrite lookup_singleton_eq; eauto).
    + intros g Hg. rewrite <-!(assoc_L (∪)).
      apply lookup_union_Some_l. by rewrite lookup_delete_ne.
    + intros k Hk Hk'. rewrite <-!(assoc_L (∪)).
      rewrite !lookup_union, lookup_delete_ne by done.
      by rewrite lookup_singleton_ne, (left_id_L None _) by done.
  - intros Hin Hat. by rewrite (Hget c r Hin), Hat.
Qed.

Lemma mergeText_strips_text_witness :
  let t := {| to_text := "hi"; to_fields := {["color" := PStr "red"]} |} in
  in_bounds 1 0 2 1 ∧
  text_at (split_lines (to_text t)) 0 0 1 0 = Some "i" ∧
  ∃ cell : obj,
    get 1 0 (snd (mergeText (TextOfObject t) 0 0 [] 2 1)) 2 1 = VObj cell ∧
    cell !! "text" = flatten (get 1 0 [] 2 1) !! "text" ∧
    (to_fields t !! "char" = None → cell !! "char" = Some (PStr "i")) ∧
    (∀ g, to_fields t !! "char" = Some g → cell !! "char" = Some g) ∧
    (∀ k, k ≠ "char" → k ≠ "text" →
       cell !! k = (to_fields t ∪ flatten (get 1 0 [] 2 1)) !! k).
Proof.
  intros t.
  assert (in_bounds 1 0 2 1) as Hin by (unfold in_bounds; lia).
  assert (text_at (split_lines (to_text t)) 0 0 1 0 = Some "i") as Hat
    by reflexivity.
  split; [exact Hin|]. split; [exact Hat|].
  exact (proj1 (proj2 (mergeText_strips_text t 0 0 [] 2 1 1 0)) Hin "i" Hat).
Defined.

(** C10, as stated, fails for a styled text that has a [char] field:
    merging [{text: 'A', char: 'Z'}] gives the touched cell the glyph
    [Z], not the line's character [A]. *)
Lemma mergeText_char_field_counterexample :
  let target := [VObj {["char" := PStr " "]}] in
  in_bounds 0 0 1 1 ∧
  text_at (split_lines (to_text text_with_char)) 0 0 0 0 = Some "A" ∧
  get 0 0 (snd (mergeText (TextOfObject text_with_char) 0 0 target 1 1)) 1 1
    = VObj {["char" := PStr "Z"]} ∧
  field "char"
    (spread (get 0 0 (snd (mergeText (TextOfObject text_with_char) 0 0 target 1 1))
                 1 1)) ≠ PStr "A".
Proof. split; [unfold in_bounds; lia|]. by vm_compute. Qed.

End BufferProps.

(** ** The text renderer *)

Section TextRendererProps.
Import TextRenderer.

Lemma isSameCell_ok {S} (a b : value) (s : S) :
  a ≠ VPrim PNull → b ≠ VPrim PNull →
  isSameCell a b s = (Ok (same_cell a b), s).
Proof.
  intros Ha Hb. unfold isSameCell, same_cell.
  destruct a as [[]|a]; try done; destruct b as [[]|b]; try done; simpl.
  repeat case_bool_decide; done.
Qed.

Lemma same_cell_refl o : same_cell (VObj o) (VObj o) = true.
Proof. unfold same_cell. by rewrite !bool_decide_true. Qed.

Lemma same_cell_sym a b : same_cell a b = same_cell b a.
Proof.
  destruct a as [|a], b as [|b]; try done. unfold same_cell.
  repeat case_bool_decide; done || congruence.
Qed.

Lemma same_cell_trans a b c :
  same_cell a b = true → same_cell b c = true → same_cell a c = true.
Proof.
  destruct a as [|a], b as [|b], c as [|c]; try done. unfold same_cell.
  rewrite !andb_true_iff, !bool_decide_eq_true.
  intros [[[-> ->] ->] ->] [[[-> ->] ->] ->]. done.
Qed.

Lemma no_null_set idx o back :
  no_null back → no_null (arr_set idx (VObj o) back).
Proof.
  intros Hnn j. destruct (decide (idx = j)) as [->|Hne].
  - by rewrite arr_get_set_eq.
  - by rewrite arr_get_set_ne.
Qed.

Lemma sync_cells_no_null buffer offs columns back :
  no_null back → no_null (sync_cells buffer offs columns back).
Proof.
  revert back. induction columns as [|i columns IH]; intros back Hnn; [done|].
  simpl. apply IH. case_match; [done|]. by apply no_null_set.
Qed.

(** Entry by entry: a cell is copied when it is one of the compared
    cells and does not match. *)
Lemma sync_cells_get buffer offs columns back idx :
  NoDup columns →
  arr_get idx (sync_cells buffer offs columns back) =
    if decide (offs ≤ idx ∧ idx - offs ∈ columns)%nat then
      if same_cell (arr_get idx buffer) (arr_get idx back)
      then arr_get idx back else VObj (spread (arr_get idx buffer))
    else arr_get idx back.
Proof.
  revert back. induction columns as [|i columns IH]; intros back Hnd.
  - simpl. rewrite decide_False; [done|].
    intros [_ Hi]. by apply not_elem_of_nil in Hi.
  - apply NoDup_cons in Hnd as [Hi Hnd]. simpl. rewrite IH by done. clear IH.
    destruct (decide (idx = (i + offs)%nat)) as [->|Hne].
    + replace (i + offs - offs)%nat with i by lia.
      rewrite decide_False by (by intros [_ ?]).
      rewrite decide_True by (split; [lia|left]).
      destruct (same_cell _ _); [done|]. by rewrite arr_get_set_eq.
    + assert (arr_get idx
                (if same_cell (arr_get (i + offs) buffer) (arr_get (i + offs) back)
                 then back
                 else arr_set (i + offs) (VObj (spread (arr_get (i + offs) buffer)))
                              back) = arr_get idx back) as ->.
      { case_match; [done|]. by rewrite arr_get_set_ne. }
      apply decide_ext. split.
      * intros [? ?]. split; [done|by right].
      * intros [? Hin]. split; [done|].
        apply elem_of_cons in Hin as [?|?]; [lia|done].
Qed.

Lemma sync_cells_same buffer offs columns back :
  (∀ i, i ∈ columns →
     same_cell (arr_get (i + offs) buffer) (arr_get (i + offs) back) = true) →
  sync_cells buffer offs columns back = back.
Proof.
  induction columns as [|i columns IH]; intros Hsame; [done|].
  simpl. rewrite Hsame by left. apply IH. intros i' Hi'. apply Hsame. by right.
Qed.

(** The first inner loop computes [sync_cells] and tells whether a cell
    differed. *)
Lemma compare_cells_spec buffer offs columns :
  ∀ (flag : bool) (s : State),
  NoDup columns →
  (∀ i, i ∈ columns → arr_get (i + offs) buffer ≠ VPrim PNull) →
  no_null (backBuffer s) →
  compare_cells buffer offs columns flag s =
    (Ok (flag ||
         existsb (λ i, negb (same_cell (arr_get (i + offs) buffer)
                                       (arr_get (i + offs) (backBuffer s))))
                 columns),
     set_backBuffer (sync_cells buffer offs columns (backBuffer s)) s).
Proof.
  induction columns as [|i columns IH]; intros flag s Hnd Hbuf Hnn.
  - simpl. rewrite orb_false_r. by destruct s.
  - apply NoDup_cons in Hnd as [Hi Hnd].
    cbn [compare_cells]. unfold mbind, M_bind, gets at 1.
    rewrite isSameCell_ok by (done || apply Hbuf; left).
    assert (∀ i', i' ∈ columns → arr_get (i' + offs) buffer ≠ VPrim PNull)
      as Hbuf' by (intros; apply Hbuf; by right).
    simpl existsb. cbn [sync_cells foldl].
    destruct (same_cell (arr_get (i + offs) buffer)
                        (arr_get (i + offs) (backBuffer s))) eqn:Hsame; simpl.
    + by rewrite IH.
    + unfold modify. rewrite IH; [|done|done|by apply no_null_set].
      simpl. by rewrite orb_true_r.
Qed.

(** The cells of one row, seen from any row. *)
Lemma sync_cells_row_get buffer cols j back i j' :
  (i < cols)%nat →
  arr_get (i + j' * cols) (sync_cells buffer (j * cols) (seq 0 cols) back) =
    if decide (j' = j) then
      if same_cell (arr_get (i + j' * cols) buffer) (arr_get (i + j' * cols) back)
      then arr_get (i + j' * cols) back
      else VObj (spread (arr_get (i + j' * cols) buffer))
    else arr_get (i + j' * cols) back.
Proof.
  intros Hi. rewrite sync_cells_get by apply NoDup_seq.
  destruct (decide (j' = j)) as [->|Hne].
  - rewrite decide_True; [done|].
    split; [lia|]. apply elem_of_seq. lia.
  - rewrite decide_False; [done|].
    intros [Hle Hin]. apply elem_of_seq in Hin. nia.
Qed.

Lemma existsb_ext_in {A} (f g : A → bool) (l : list A) :
  (∀ a, a ∈ l → f a = g a) → existsb f l = existsb g l.
Proof.
  induction l as [|a l IH]; intros Hfg; [done|]. simpl.
  rewrite Hfg by left. f_equal. apply IH. intros b Hb. apply Hfg. by right.
Qed.

Lemma row_differs_sync_other buffer cols j back j' :
  j' ≠ j →
  row_differs buffer (sync_cells buffer (j * cols) (seq 0 cols) back) cols j' =
  row_differs buffer back cols j'.
Proof.
  intros Hne. unfold row_differs. apply existsb_ext_in. intros i Hi.
  apply elem_of_seq in Hi.
  rewrite sync_cells_row_get by lia. by rewrite decide_False.
Qed.

Lemma row_differs_false buffer back cols j :
  row_differs buffer back cols j = false ↔
  ∀ i, (i < cols)%nat →
    same_cell (arr_get (i + j * cols) buffer) (arr_get (i + j * cols) back) = true.
Proof.
  unfold row_differs. rewrite <-not_true_iff_false, existsb_exists. split.
  - intros Hno i Hi.
    destruct (same_cell _ _) eqn:Hsame; [done|]. exfalso. apply Hno.
    exists i. split; [apply in_seq; lia|]. by rewrite Hsame.
  - intros Hall (i & Hi & Hd). apply in_seq in Hi.
    rewrite Hall in Hd by lia. done.
Qed.

Lemma row_differs_true buffer back cols j :
  row_differs buffer back cols j = true ↔
  ∃ i, (i < cols)%nat ∧
    same_cell (arr_get (i + j * cols) buffer) (arr_get (i + j * cols) back) = false.
Proof.
  unfold row_differs. rewrite existsb_exists. split.
  - intros (i & Hi & Hd). apply in_seq in Hi. exists i. split; [lia|].
    by apply negb_true_iff.
  - intros (i & Hi & Hd). exists i. split; [apply in_seq; lia|].
    by apply negb_true_iff.
Qed.

(** One row. *)
Lemma render_row_spec context buffer cols j s :
  (∀ i, (i < cols)%nat → arr_get (i + j * cols) buffer ≠ VPrim PNull) →
  no_null (backBuffer s) →
  render_row context buffer cols j s = (Ok tt, sync_rows context buffer cols [j] s).
Proof.
  intros Hbuf Hnn. unfold render_row, mbind, M_bind.
  rewrite compare_cells_spec; [|apply NoDup_seq| |done].
  2:{ intros i Hi. apply elem_of_seq in Hi. apply Hbuf. lia. }
  simpl. fold (row_differs buffer (backBuffer s) cols j). unfold sync_row.
  destruct (row_differs buffer (backBuffer s) cols j) eqn:Hd; simpl; [done|].
  rewrite sync_cells_same; [by destruct s|].
  intros i Hi. apply elem_of_seq in Hi.
  eapply row_differs_false; [done|lia].
Qed.

Lemma sync_rows_no_null context buffer cols js s :
  no_null (backBuffer s) → no_null (backBuffer (sync_rows context buffer cols js s)).
Proof.
  revert s. induction js as [|j js IH]; intros s Hnn; [done|].
  simpl. apply IH. unfold sync_row. case_match; [|done].
  unfold write_row. case_bool_decide; simpl; by apply sync_cells_no_null.
Qed.

(** The loop over the rows. *)
Lemma render_rows_spec context buffer cols js :
  ∀ s,
  (∀ i j, j ∈ js → (i < cols)%nat → arr_get (i + j * cols) buffer ≠ VPrim PNull) →
  no_null (backBuffer s) →
  for_each js (render_row context buffer cols) s =
    (Ok tt, sync_rows context buffer cols js s).
Proof.
  induction js as [|j js IH]; intros s Hbuf Hnn; [done|].
  cbn [for_each]. unfold mbind, M_bind.
  rewrite render_row_spec; [|intros; apply Hbuf; [left|done]|done].
  rewrite IH; [done|intros; apply Hbuf; [by right|done]|].
  by apply (sync_rows_no_null context buffer cols [j]).
Qed.

(** One call of [render]. *)
Lemma render_spec context buffer s :
  (∀ idx, (idx < ctx_cols context * ctx_rows context)%nat →
     arr_get idx buffer ≠ VPrim PNull) →
  no_null (backBuffer s) →
  render context buffer s =
    (Ok tt, sync_rows context buffer (ctx_cols context)
                      (seq 0 (ctx_rows context)) (prepared context s)).
Proof.
  intros Hbuf Hnn.
  assert (∀ s', no_null (backBuffer s') →
            for_each (seq 0 (ctx_rows context))
                     (render_row context buffer (ctx_cols context)) s' =
            (Ok tt, sync_rows context buffer (ctx_cols context)
                              (seq 0 (ctx_rows context)) s')) as Hrows.
  { intros s' Hnn'. apply render_rows_spec; [|done].
    intros i j Hj Hi. apply elem_of_seq in Hj. apply Hbuf. nia. }
  unfold render, mbind, M_bind, modify, gets, prepared.
  destruct (negb (bool_decide (Some (ctx_rows context) = rows s))
            || negb (bool_decide (Some (ctx_cols context) = cols s))) eqn:Hr;
    simpl.
  - by rewrite Hrows.
  - apply orb_false_elim in Hr as [Hr1 Hr2].
    apply negb_false_iff, bool_decide_eq_true in Hr1, Hr2.
    rewrite <-Hr1, <-Hr2. simpl. by rewrite Hrows.
Qed.

(** What one row leaves in the state. *)
Lemma sync_row_back context buffer cols s j0 i j :
  (i < cols)%nat →
  arr_get (i + j * cols) (backBuffer (sync_row context buffer cols s j0)) =
    if decide (j = j0) then
      if same_cell (arr_get (i + j * cols) buffer)
                   (arr_get (i + j * cols) (backBuffer s))
      then arr_get (i + j * cols) (backBuffer s)
      else VObj (spread (arr_get (i + j * cols) buffer))
    else arr_get (i + j * cols) (backBuffer s).
Proof.
  intros Hi. unfold sync_row.
  destruct (row_differs buffer (backBuffer s) cols j0) eqn:Hd.
  - assert (backBuffer (write_row j0
              (row_html (ctx_settings context) buffer (j0 * cols) cols)
              (set_backBuffer
                 (sync_cells buffer (j0 * cols) (seq 0 cols) (backBuffer s)) s))
            = sync_cells buffer (j0 * cols) (seq 0 cols) (backBuffer s)) as ->.
    { unfold write_row. by case_bool_decide. }
    by apply sync_cells_row_get.
  - case_decide as Hj; [|done]. subst j0.
    by rewrite (proj1 (row_differs_false _ _ _ _) Hd i Hi).
Qed.

Lemma sync_row_differs_other context buffer cols s j0 j :
  j ≠ j0 →
  row_differs buffer (backBuffer (sync_row context buffer cols s j0)) cols j =
  row_differs buffer (backBuffer s) cols j.
Proof.
  intros Hne. unfold row_differs. apply existsb_ext_in. intros i Hi.
  apply elem_of_seq in Hi.
  rewrite sync_row_back by lia. by rewrite decide_False.
Qed.

Lemma sync_row_children_length context buffer cols s j :
  length (children (sync_row context buffer cols s j)) = length (children s).
Proof.
  unfold sync_row, write_row. repeat case_match; simpl; try done.
  by rewrite length_insert.
Qed.

Lemma sync_row_children context buffer cols s j0 j :
  (j0 < length (children s))%nat →
  children (sync_row context buffer cols s j0) !! j =
    if decide (j = j0 ∧ row_differs buffer (backBuffer s) cols j0 = true)
    then Some (row_html (ctx_settings context) buffer (j0 * cols) cols)
    else children s !! j.
Proof.
  intros Hj0. unfold sync_row, write_row.
  destruct (row_differs buffer (backBuffer s) cols j0); simpl.
  - rewrite bool_decide_true by done. simpl.
    destruct (decide (j = j0)) as [->|Hne].
    + rewrite decide_True by done. by apply list_lookup_insert_eq.
    + rewrite decide_False by (by intros [? _]).
      by apply list_lookup_insert_ne.
  - by rewrite decide_False by (by intros [_ ?]).
Qed.

Lemma sync_row_writes context buffer cols s j0 :
  (j0 < length (children s))%nat →
  writes (sync_row context buffer cols s j0) =
    if row_differs buffer (backBuffer s) cols j0 then j0 :: writes s
    else writes s.
Proof.
  intros Hj0. unfold sync_row, write_row.
  destruct (row_differs buffer (backBuffer s) cols j0); simpl; [|done].
  by rewrite bool_decide_true by done.
Qed.

(** What the loop over the rows leaves in the state: the rows written
    are those with a cell that differs, each once; their elements hold
    the new markup and their differing cells are copied to the back
    buffer; nothing else changes. *)
Lemma sync_rows_spec context buffer cols js :
  ∀ s,
  NoDup js →
  (∀ j, j ∈ js → (j < length (children s))%nat) →
  let s' := sync_rows context buffer cols js s in
  length (children s') = length (children s) ∧
  (∃ written,
     writes s' = written ++ writes s ∧ NoDup written ∧
     ∀ j, j ∈ written ↔
          j ∈ js ∧ row_differs buffer (backBuffer s) cols j = true) ∧
  (∀ j, children s' !! j =
        if decide (j ∈ js ∧ row_differs buffer (backBuffer s) cols j = true)
        then Some (row_html (ctx_settings context) buffer (j * cols) cols)
        else children s !! j) ∧
  (∀ i j, (i < cols)%nat →
     arr_get (i + j * cols) (backBuffer s') =
       if decide (j ∈ js) then
         if same_cell (arr_get (i + j * cols) buffer)
                      (arr_get (i + j * cols) (backBuffer s))
         then arr_get (i + j * cols) (backBuffer s)
         else VObj (spread (arr_get (i + j * cols) buffer))
       else arr_get (i + j * cols) (backBuffer s)).
Proof.
  induction js as [|j0 js IH]; intros s Hnd Hlen; cbv zeta;
    [|change (sync_rows context buffer cols (j0 :: js) s)
        with (sync_rows context buffer cols js
                (sync_row context buffer cols s j0))].
  - split_and!; [done| |..].
    + exists []. split_and!; [done|constructor|].
      intros j. rewrite elem_of_nil. tauto.
    + intros j. rewrite decide_False; [done|].
      intros [H _]. by apply elem_of_nil in H.
    + intros i j _. rewrite decide_False; [done|].
      intros H. by apply elem_of_nil in H.
  - apply NoDup_cons in Hnd as [Hj0 Hnd].
    set (s1 := sync_row context buffer cols s j0).
    assert (j0 < length (children s))%nat as Hj0len by (apply Hlen; left).
    assert (length (children s1) = length (children s)) as Hlen1
      by apply sync_row_children_length.
    specialize (IH s1 Hnd).
    destruct IH as (Hl & (w & Hw & Hwnd & Hwin) & Hch & Hbb).
    { intros j Hj. rewrite Hlen1. apply Hlen. by right. }
    assert (∀ j, j ∈ js →
              row_differs buffer (backBuffer s1) cols j =
              row_differs buffer (backBuffer s) cols j) as Hdiff.
    { intros j Hj. apply sync_row_differs_other. intros ->. done. }
    split_and!.
    + by rewrite Hl.
    + pose proof (sync_row_writes context buffer cols s j0 Hj0len) as Hw1.
      fold s1 in Hw1. rewrite Hw1 in Hw. clear Hw1.
      destruct (row_differs buffer (backBuffer s) cols j0) eqn:Hd0.
      * exists (w ++ [j0]). split_and!.
        -- by rewrite Hw, <-app_assoc.
        -- apply NoDup_app. split_and!; [done| |apply NoDup_singleton].
           intros j Hj Heq%list_elem_of_singleton. subst j.
           apply Hwin in Hj as [? _]. done.
        -- intros j. rewrite elem_of_app, Hwin, list_elem_of_singleton, elem_of_cons.
           split.
           ++ intros [[Hj Hd]| ->]; [|by auto].
              split; [by right|]. by rewrite <-Hdiff.
           ++ intros [[->|Hj] Hd]; [by right|].
              left. split; [done|]. by rewrite Hdiff.
      * exists w. split_and!; [done|done|].
        intros j. rewrite Hwin, elem_of_cons. split.
        -- intros [Hj Hd]. split; [by right|]. by rewrite <-Hdiff.
        -- intros [[->|Hj] Hd]; [congruence|].
           split; [done|]. by rewrite Hdiff.
    + intros j. rewrite Hch.
      pose proof (sync_row_children context buffer cols s j0 j Hj0len) as Hc1.
      fold s1 in Hc1. rewrite Hc1. clear Hc1.
      destruct (decide (j = j0)) as [->|Hne].
      * rewrite decide_False by (by intros [? _]).
        destruct (row_differs buffer (backBuffer s) cols j0) eqn:Hd0.
        -- rewrite decide_True by done.
           rewrite decide_True by (split; [left|done]). done.
        -- rewrite decide_False by (by intros [_ ?]).
           rewrite decide_False by (by intros [_ ?]). done.
      * rewrite (decide_False (P := j = j0 ∧ _)) by (by intros [? _]).
        apply decide_ext. rewrite elem_of_cons. split.
        -- intros [Hj Hd]. split; [by right|]. by rewrite <-Hdiff.
        -- intros [[?|Hj] Hd]; [done|]. split; [done|]. by rewrite Hdiff.
    + intros i j Hi. rewrite Hbb by done.
      pose proof (sync_row_back context buffer cols s j0 i j Hi) as Hb1.
      fold s1 in Hb1. rewrite Hb1. clear Hb1.
      destruct (decide (j = j0)) as [->|Hne].
      * rewrite decide_False by done.
        rewrite decide_True by left. done.
      * destruct (decide (j ∈ js)).
        -- rewrite decide_True by (by right). done.
        -- rewrite decide_False; [done|].
           intros [?|?]%elem_of_cons; done.
Qed.

Lemma sync_rows_dims context buffer n js s :
  cols (sync_rows context buffer n js s) = cols s ∧
  rows (sync_rows context buffer n js s) = rows s.
Proof.
  revert s. induction js as [|j js IH]; intros s; [done|].
  change (sync_rows context buffer n (j :: js) s)
    with (sync_rows context buffer n js (sync_row context buffer n s j)).
  destruct (IH (sync_row context buffer n s j)) as [-> ->].
  unfold sync_row, write_row. by repeat case_match.
Qed.

Lemma prepared_children_length context s :
  length (children (prepared context s)) = ctx_rows context.
Proof.
  unfold prepared. simpl. rewrite length_take, length_app, length_replicate. lia.
Qed.

(** With the dimensions unchanged and the row elements in place, the
    renderer goes straight to the loop over the rows. *)
Lemma prepared_id context s :
  cols s = Some (ctx_cols context) → rows s = Some (ctx_rows context) →
  length (children s) = ctx_rows context →
  prepared context s = s.
Proof.
  intros Hc Hr Hlen. unfold prepared. rewrite Hc, Hr.
  rewrite !bool_decide_true by done. simpl.
  rewrite <-Hlen, Nat.sub_diag. simpl. rewrite app_nil_r, take_ge by done.
  destruct s; simpl in *. congruence.
Qed.

Lemma frame_of_cells_no_null buffer n m idx :
  frame_of_cells buffer n m → (idx < n * m)%nat →
  arr_get idx buffer ≠ VPrim PNull.
Proof. intros Hf Hidx. destruct (Hf idx Hidx) as [o ->]. done. Qed.

(** The state in which a frame leaves the renderer: the dimensions are
    the frame's, there is one row element per row, and the back buffer
    matches the frame on the whole grid. *)
Lemma render_frame context frame s :
  frame_of_cells frame (ctx_cols context) (ctx_rows context) →
  no_null (backBuffer s) →
  ∃ s',
    render context frame s = (Ok tt, s') ∧
    cols s' = Some (ctx_cols context) ∧ rows s' = Some (ctx_rows context) ∧
    length (children s') = ctx_rows context ∧
    no_null (backBuffer s') ∧
    ∀ i j, (i < ctx_cols context)%nat → (j < ctx_rows context)%nat →
      same_cell (arr_get (i + j * ctx_cols context) frame)
                (arr_get (i + j * ctx_cols context) (backBuffer s')) = true.
Proof.
  intros Hframe Hnn. eexists. split.
  { apply render_spec; [|done]. intros idx Hidx.
    by eapply frame_of_cells_no_null. }
  assert (no_null (backBuffer (prepared context s))) as Hnn'.
  { unfold prepared. simpl. by destruct (_ || _). }
  pose proof (sync_rows_dims context frame (ctx_cols context)
                (seq 0 (ctx_rows context)) (prepared context s)) as [Hc Hr].
  pose proof (sync_rows_spec context frame (ctx_cols context)
                (seq 0 (ctx_rows context)) (prepared context s)
                (NoDup_seq _ _)) as Hspec.
  cbv zeta in Hspec. destruct Hspec as (Hlen & _ & _ & Hbb).
  { intros j Hj%elem_of_seq. rewrite prepared_children_length. lia. }
  split_and!.
  - by rewrite Hc.
  - by rewrite Hr.
  - by rewrite Hlen, prepared_children_length.
  - by apply sync_rows_no_null.
  - intros i j Hi Hj. rewrite Hbb by done.
    rewrite decide_True by (apply elem_of_seq; lia).
    destruct (same_cell (arr_get (i + j * ctx_cols context) frame)
                (arr_get (i + j * ctx_cols context)
                         (backBuffer (prepared context s)))) eqn:Hsame; [done|].
    destruct (Hframe (i + j * ctx_cols context)%nat) as [o ->]; [nia|].
    apply same_cell_refl.
Qed.

(** C2.  Take two frames of cells rendered one after the other on the
    same grid.  Both calls return.  In the second, the rows rewritten
    are exactly the rows with a cell that differs from its entry in the
    back buffer in glyph, color, background or weight; that entry
    matches the first frame, so they are the rows in which the two
    frames differ.  Each is rewritten once, with the markup of the new
    row.  A row whose cells all match is skipped: its element and its
    back buffer entries are what they were.  When the frames differ in
    one row only, that row is the only one rewritten. *)
Theorem render_diff (context : Context) (frame1 frame2 : list value) (s0 : State) :
  let n := ctx_cols context in
  let m := ctx_rows context in
  frame_of_cells frame1 n m → frame_of_cells frame2 n m →
  no_null (backBuffer s0) →
  ∃ s1 s2 written,
    render context frame1 s0 = (Ok tt, s1) ∧
    render context frame2 s1 = (Ok tt, s2) ∧
    writes s2 = written ++ writes s1 ∧ NoDup written ∧
    (∀ i j, (i < n)%nat → (j < m)%nat →
       same_cell (arr_get (i + j * n) frame1)
                 (arr_get (i + j * n) (backBuffer s1)) = true) ∧
    (∀ j, j ∈ written ↔
          (j < m)%nat ∧
          ∃ i, (i < n)%nat ∧
               same_cell (arr_get (i + j * n) frame2)
                         (arr_get (i + j * n) (backBuffer s1)) = false) ∧
    (∀ j, j ∈ written ↔
          (j < m)%nat ∧
          ∃ i, (i < n)%nat ∧
               same_cell (arr_get (i + j * n) frame2)
                         (arr_get (i + j * n) frame1) = false) ∧
    (∀ j, j ∈ written →
       children s2 !! j = Some (row_html (ctx_settings context) frame2 (j * n) n)) ∧
    (∀ j, j ∉ written →
       children s2 !! j = children s1 !! j ∧
       ∀ i, (i < n)%nat →
         arr_get (i + j * n) (backBuffer s2) = arr_get (i + j * n) (backBuffer s1)) ∧
    (∀ j0, (j0 < m)%nat →
       (∀ i j, (i < n)%nat → (j < m)%nat → j ≠ j0 →
          same_cell (arr_get (i + j * n) frame2) (arr_get (i + j * n) frame1) = true) →
       (∃ i, (i < n)%nat ∧
          same_cell (arr_get (i + j0 * n) frame2) (arr_get (i + j0 * n) frame1)
            = false) →
       written = [j0]).
Proof.
  intros n m Hf1 Hf2 Hnn0.
  destruct (render_frame context frame1 s0 Hf1 Hnn0)
    as (s1 & Hr1 & Hc1 & Hrows1 & Hlen1 & Hnn1 & Hshadow).
  pose proof (render_spec context frame2 s1) as Hr2.
  rewrite prepared_id in Hr2 by done.
  pose proof (sync_rows_spec context frame2 n (seq 0 m) s1 (NoDup_seq _ _))
    as Hspec.
  cbv zeta in Hspec.
  destruct Hspec as (Hlen2 & (written & Hw & Hnd & Hin) & Hch & Hbb).
  { intros j Hj%elem_of_seq. rewrite Hlen1. fold m. lia. }
  assert (∀ a b c, same_cell b c = true → same_cell a b = same_cell a c)
    as Hcongr.
  { intros a b c Hbc. destruct (same_cell a b) eqn:Hab.
    - symmetry. by eapply same_cell_trans.
    - destruct (same_cell a c) eqn:Hac; [|done].
      rewrite <-Hab. eapply same_cell_trans; [done|]. by rewrite same_cell_sym. }
  assert (∀ j, j ∈ written ↔
            (j < m)%nat ∧
            ∃ i, (i < n)%nat ∧
                 same_cell (arr_get (i + j * n) frame2)
                           (arr_get (i + j * n) (backBuffer s1)) = false) as Hin1.
  { intros j. rewrite Hin, elem_of_seq, row_differs_true. split.
    - intros [? ?]. split; [lia|done].
    - intros [? ?]. split; [lia|done]. }
  assert (∀ j, j ∈ written ↔
            (j < m)%nat ∧
            ∃ i, (i < n)%nat ∧
                 same_cell (arr_get (i + j * n) frame2)
                           (arr_get (i + j * n) frame1) = false) as Hin2.
  { intros j. rewrite Hin1. split.
    - intros (Hj & i & Hi & Hd). split; [done|]. exists i. split; [done|].
      rewrite <-Hd. apply Hcongr. by apply Hshadow.
    - intros (Hj & i & Hi & Hd). split; [done|]. exists i. split; [done|].
      rewrite <-Hd. symmetry. apply Hcongr. by apply Hshadow. }
  exists s1, (sync_rows context frame2 n (seq 0 m) s1), written.
  split_and!; try done.
  - apply Hr2; [|done]. intros idx Hidx. by eapply frame_of_cells_no_null.
  - intros j Hj. rewrite Hch. rewrite decide_True; [done|]. by apply Hin.
  - intros j Hj. split.
    + rewrite Hch. rewrite decide_False; [done|]. intros H. by apply Hj, Hin.
    + intros i Hi. rewrite Hbb by done.
      destruct (decide (j ∈ seq 0 m)) as [Hjm|]; [|done].
      destruct (same_cell _ _) eqn:Hsame; [done|].
      exfalso. apply Hj, Hin1. split; [apply elem_of_seq in Hjm; lia|].
      by exists i.
  - intros j0 Hj0 Hothers Hdiff.
    assert (∀ j, j ∈ written ↔ j = j0) as Hone.
    { intros j. rewrite Hin2. split.
      - intros (Hj & i & Hi & Hd). destruct (decide (j = j0)); [done|].
        rewrite Hothers in Hd by done. done.
      - intros ->. done. }
    destruct written as [|a [|b written]].
    + exfalso. eapply elem_of_nil, Hone. done.
    + f_equal. apply Hone. left.
    + exfalso. apply NoDup_cons in Hnd as [Hab _].
      assert (a = j0) by (apply Hone; left).
      assert (b = j0) by (apply Hone; right; left).
      subst. apply Hab. left.
Qed.

Lemma render_diff_witness :
  ∃ s1 s2,
    render ten_rows frame_a renderer_loaded = (Ok tt, s1) ∧
    render ten_rows frame_b s1 = (Ok tt, s2) ∧
    writes s2 = [2%nat] ++ writes s1.
Proof.
  assert (frame_of_cells frame_a 1 10) as Ha.
  { intros idx Hidx.
    do 10 (destruct idx as [|idx]; [eexists; reflexivity|]). simpl in Hidx. lia. }
  assert (frame_of_cells frame_b 1 10) as Hb.
  { intros idx Hidx.
    do 10 (destruct idx as [|idx]; [eexists; reflexivity|]). simpl in Hidx. lia. }
  assert (no_null (backBuffer renderer_loaded)) as Hnn.
  { intros idx. by destruct idx. }
  destruct (render_diff ten_rows frame_a frame_b renderer_loaded Ha Hb Hnn)
    as (s1 & s2 & written & Hr1 & Hr2 & Hw & _ & _ & _ & _ & _ & _ & Hone).
  exists s1, s2. split; [exact Hr1|]. split; [exact Hr2|].
  rewrite Hw. f_equal. apply (Hone 2%nat).
  - simpl. lia.
  - intros i j Hi Hj Hne. simpl in Hi, Hj.
    destruct i as [|i]; [|lia].
    do 10 (destruct j as [|j]; [done|]). lia.
  - exists 0%nat. split; [simpl; lia|]. reflexivity.
Defined.

End TextRendererProps.

(** ** Reasoning about computations *)

Section TripleRules.
Context {St : Type}.
Implicit Types (P E : St → Prop).

Lemma triple_ret {A} P E (a : A) (Q : A → St → Prop) :
  (∀ s, P s → Q a s) → triple P (mret a) Q E.
Proof. intros HQ s Hs. by apply HQ. Qed.

Lemma triple_bind {A B} P E (m : M St A) (k : A → M St B)
    (Q : A → St → Prop) (R : B → St → Prop) :
  triple P m Q E → (∀ a, triple (Q a) (k a) R E) → triple P (m ≫= k) R E.
Proof.
  intros Hm Hk s Hs. specialize (Hm s Hs).
  unfold mbind, M_bind. destruct (m s) as [[a|e] s']; [|done].
  by apply Hk.
Qed.

Lemma triple_gets {A} P E (f : St → A) (Q : A → St → Prop) :
  (∀ s, P s → Q (f s) s) → triple P (gets f) Q E.
Proof. intros HQ s Hs. by apply HQ. Qed.

Lemma triple_modify P E (f : St → St) (Q : unit → St → Prop) :
  (∀ s, P s → Q tt (f s)) → triple P (modify f) Q E.
Proof. intros HQ s Hs. by apply HQ. Qed.

Lemma triple_throw {A} P E (e : string) (Q : A → St → Prop) :
  (∀ s, P s → E s) → triple P (throw e) Q E.
Proof. intros HE s Hs. by apply HE. Qed.

Lemma triple_when P E (c : bool) (m : M St unit) (Q : unit → St → Prop) :
  (c = true → triple P m Q E) → (c = false → ∀ s, P s → Q tt s) →
  triple P (when c m) Q E.
Proof.
  intros Hm HQ. destruct c; simpl; [by apply Hm|].
  intros s Hs. by apply HQ.
Qed.

Lemma triple_weaken {A} P P' E E' (m : M St A) (Q Q' : A → St → Prop) :
  triple P' m Q' E' →
  (∀ s, P s → P' s) → (∀ a s, Q' a s → Q a s) → (∀ s, E' s → E s) →
  triple P m Q E.
Proof.
  intros Hm HP HQ HE s Hs. specialize (Hm s (HP s Hs)).
  destruct (m s) as [[a|e] s']; auto.
Qed.

(** A loop whose body maintains [Inv], and throws only in states that
    satisfy [E]. *)
Lemma triple_for_each {A} (Inv : St → Prop) E (body : A → M St unit)
    (l : list A) :
  (∀ a, a ∈ l → triple Inv (body a) (λ _, Inv) E) →
  triple Inv (for_each l body) (λ _, Inv) E.
Proof.
  induction l as [|a l IH]; intros Hbody.
  - by apply triple_ret.
  - cbn [for_each]. eapply triple_bind.
    + apply Hbody. left.
    + intros []. apply IH. intros b Hb. apply Hbody. by right.
Qed.

(** A computation on a part of the state. *)
Lemma triple_lift {T A} P E (proj : St → T) (inj : T → St → St) (m : M T A)
    (Q : A → St → Prop) :
  (∀ s, P s →
     match m (proj s) with
     | (Ok a, t) => Q a (inj t s)
     | (Throw _, t) => E (inj t s)
     end) →
  triple P (lift proj inj m) Q E.
Proof.
  intros Hm s Hs. specialize (Hm s Hs). unfold lift.
  by destruct (m (proj s)) as [[a|e] t].
Qed.

End TripleRules.

(** ** The scheduler *)

Section RunProps.
Import Run.
Open Scope Q_scope.
Context {Vars RS FPS : Type} (fps_update : Q → FPS → FPS) (fps_fps : FPS → Q).
Local Abbreviation World := (Run.World (Vars := Vars) (RS := RS) (FPS := FPS)).
Implicit Types (w : World) (program : Program (Vars := Vars)).
Implicit Types (settings : Settings) (context : Context) (cursor : Cursor).

(** *** The loop body, for any invariant *)

Lemma call_triple {A} (Inv : World → Prop) (h : Hook A) :
  (∀ w, Inv w →
     Inv (with_hook_state (snd (h (buffer w, variables w))) w)) →
  triple Inv (call h) (λ _, Inv) Inv.
Proof.
  intros Hh. apply triple_lift. intros w Hw. specialize (Hh w Hw).
  by destruct (h (buffer w, variables w)) as [[a|e] bv].
Qed.

Lemma main_cell_triple (Inv : World → Prop) h context cursor j i :
  (∀ w, Inv w →
     Inv (with_hook_state
            (snd (h {| x := i; y := j; index := (i + j * ctx_cols context)%nat |}
                    context cursor (buffer w, variables w))) w)) →
  (∀ out w, Inv w →
     Inv (with_buffer (apply_main (i + j * ctx_cols context) out (buffer w)) w)) →
  triple Inv (main_cell h context cursor j i) (λ _, Inv) Inv.
Proof.
  intros Hh Happly. unfold main_cell. eapply triple_bind.
  - by apply call_triple.
  - intros out. apply triple_modify. intros w Hw. by apply Happly.
Qed.

Lemma steps_triple (Inv : World → Prop) program settings context cursor :
  (∀ h, pre program = Some h →
     triple Inv (call (h context cursor)) (λ _, Inv) Inv) →
  (∀ h j i, main program = Some h →
     (j < ctx_rows context)%nat → (i < ctx_cols context)%nat →
     triple Inv (main_cell h context cursor j i) (λ _, Inv) Inv) →
  (∀ h, post program = Some h →
     triple Inv (call (h context cursor)) (λ _, Inv) Inv) →
  (∀ r b, triple Inv
            (lift renderer_state with_renderer_state (render r context b settings))
            (λ _, Inv) Inv) →
  triple (λ w, Inv (normalize_buffer settings context w))
         (steps program settings context cursor)
         (λ _ w, ∃ w1, Inv w1 ∧ w = finish settings context w1)
         Inv.
Proof.
  intros Hpre Hmain Hpost Hrender. unfold steps.
  apply (triple_bind _ _ _ _ (λ _, Inv)); [apply triple_modify; auto|].
  intros [].
  apply (triple_bind _ _ _ _ (λ _, Inv)).
  { destruct (pre program) as [h|]; [by apply Hpre|apply triple_ret; auto]. }
  intros [].
  apply (triple_bind _ _ _ _ (λ _, Inv)).
  { destruct (main program) as [h|]; [|apply triple_ret; auto].
    apply triple_for_each. intros j Hj%elem_of_seq.
    apply triple_for_each. intros i Hi%elem_of_seq.
    apply Hmain; [done|lia..]. }
  intros [].
  apply (triple_bind _ _ _ _ (λ _, Inv)).
  { destruct (post program) as [h|]; [by apply Hpost|apply triple_ret; auto]. }
  intros [].
  apply (triple_bind _ _ _ _ (λ _, Inv)); [apply triple_gets; auto|].
  intros r.
  apply (triple_bind _ _ _ _ (λ _, Inv)).
  { destruct r as [r|]; [|apply triple_throw; auto].
    apply (triple_bind _ _ _ _ (λ _, Inv)); [apply triple_gets; auto|].
    intros b. apply Hrender. }
  intros [].
  intros w Hw.
  unfold finish, when, mbind, M_bind, requestAnimationFrame, resolve, modify.
  destruct (once settings); simpl; by exists w.
Qed.

(** The hooks and the renderer do not reach the scheduler's own
    variables: whatever they do, and whether the frame completes or
    throws on the way, these are as the timing update left them, up to
    the request of the next frame and the resolution of the promise at
    the end of a frame that completes. *)
Lemma steps_chassis program settings context cursor (c : Chassis) :
  triple (λ w, chassis w = c)
         (steps program settings context cursor)
         (λ _ w, ∃ w1, chassis w1 = c ∧ w = finish settings context w1)
         (λ w, chassis w = c).
Proof.
  eapply triple_weaken.
  - apply (steps_triple (λ w, chassis w = c)).
    + intros h _. by apply call_triple.
    + intros h j i _ _ _. by apply main_cell_triple.
    + intros h _. by apply call_triple.
    + intros r b. apply triple_lift. intros w Hw.
      by destruct (render r context b settings (renderer_state w)) as [[]].
  - intros w <-. unfold normalize_buffer. by destruct (_ || _).
  - done.
  - done.
Qed.

(** *** The time gate *)

(** The gate in terms of the rationals: [1000 / fps] is a rational
    unless [fps] is 0. *)
Lemma too_early_true settings (delta : Q) :
  too_early settings delta = true ↔
  fps settings == 0 ∨ delta < 1000 / fps settings.
Proof.
  unfold too_early, js_div.
  destruct (Qeq_dec (fps settings) 0) as [Hfps|Hfps].
  - destruct (Qeq_dec 1000 0) as [H|_]; [discriminate H|].
    destruct (Qlt_le_dec 1000 0) as [H|_]; [discriminate H|].
    split; [by left|done].
  - destruct (Qlt_le_dec delta (1000 / fps settings)) as [Hlt|Hle].
    + split; [by right|done].
    + split; [done|]. intros [H|Hlt]; [done|].
      exfalso. by apply (Qlt_not_le _ _ Hlt).
Qed.

Lemma too_early_false settings (delta : Q) :
  too_early settings delta = false ↔
  ¬ fps settings == 0 ∧ 1000 / fps settings <= delta.
Proof.
  rewrite <-not_true_iff_false, too_early_true. split.
  - intros Hno. split; [intros H; apply Hno; by left|].
    apply Qnot_lt_le. intros H. apply Hno. by right.
  - intros [Hfps Hle] [H|Hlt]; [done|]. by apply (Qlt_not_le _ _ Hlt).
Qed.

Lemma gate_cases settings (delta : Q) :
  (fps settings == 0 ∨ delta < 1000 / fps settings) ∨
  (¬ fps settings == 0 ∧ 1000 / fps settings <= delta).
Proof.
  destruct (too_early settings delta) eqn:Hgate.
  - left. by apply too_early_true.
  - right. by apply too_early_false.
Qed.

Lemma loop_skip program settings t w :
  fps settings == 0 ∨ t - timeSample w < 1000 / fps settings →
  loop fps_update fps_fps program settings t w =
    (Ok tt, if once settings then w else request w).
Proof.
  intros Hearly%too_early_true. unfold loop, mbind, M_bind, gets.
  rewrite Hearly. by destruct (once settings).
Qed.

Lemma loop_accept program settings t w :
  ¬ fps settings == 0 →
  1000 / fps settings <= t - timeSample w →
  grid_is_number settings w = true →
  let interval := 1000 / fps settings in
  let delta := t - timeSample w in
  let context := getContext fps_fps settings w in
  let w1 := timing_update fps_update t delta interval w in
  loop fps_update fps_fps program settings t w =
    steps program settings context (make_cursor context w1) (store_pointer w1).
Proof.
  intros Hfps Hle Hgrid.
  assert (too_early settings (t - timeSample w) = false) as Hgate
    by (by apply too_early_false).
  unfold loop, mbind, M_bind, gets, modify. rewrite Hgate.
  change (grid_is_number settings (store_pointer _))
    with (grid_is_number settings w).
  by rewrite Hgrid.
Qed.

(** An accepted frame on a grid that is not a pair of numbers throws
    before any hook is called. *)
Lemma loop_no_grid program settings t w :
  ¬ fps settings == 0 →
  1000 / fps settings <= t - timeSample w →
  grid_is_number settings w = false →
  let interval := 1000 / fps settings in
  let delta := t - timeSample w in
  loop fps_update fps_fps program settings t w =
    (Throw "RangeError",
     store_pointer (timing_update fps_update t delta interval w)).
Proof.
  intros Hfps Hle Hgrid.
  assert (too_early settings (t - timeSample w) = false) as Hgate
    by (by apply too_early_false).
  unfold loop, mbind, M_bind, gets, modify. rewrite Hgate.
  change (grid_is_number settings (store_pointer _))
    with (grid_is_number settings w).
  by rewrite Hgrid.
Qed.

Lemma dimension_zero_metric (size metric : Q) :
  metric == 0 → dimension 0 size metric = None.
Proof.
  intros Hmetric. unfold dimension, js_div. cbn [bool_decide decide_rel].
  rewrite bool_decide_true by done.
  destruct (Qeq_dec metric 0) as [_|Hne]; [|done].
  destruct (Qeq_dec size 0); [done|]. by destruct (Qlt_le_dec size 0).
Qed.

Lemma zero_cell_no_grid settings w :
  zero_cell settings w → grid_is_number settings w = false.
Proof.
  intros [[Hsetting Hmetric]|[Hsetting Hmetric]]; unfold grid_is_number;
    rewrite Hsetting, dimension_zero_metric by done.
  - done.
  - apply andb_false_r.
Qed.

(** The remainder of a division by a positive number, of a number at
    least as large: it is in range, and what the divisor goes into is a
    whole number of times, at least once. *)
Lemma js_rem_spec (a b : Q) :
  0 < b → b <= a →
  0 <= js_rem a b < b ∧
  ∃ k : Z, (1 ≤ k)%Z ∧ a - js_rem a b == inject_Z k * b.
Proof.
  intros Hb Hab. unfold js_rem.
  set (q := a / b).
  assert (1 <= q) as Hq.
  { unfold q. apply Qle_shift_div_l; [done|]. by rewrite Qmult_1_l. }
  assert (Z.quot (Qnum q) (Zpos (Qden q)) = Qfloor q) as ->.
  { unfold Qfloor. destruct q as [n d]. simpl.
    apply Z.quot_div_nonneg; [|lia].
    unfold Qle in Hq. simpl in Hq. lia. }
  assert (a == q * b) as Ha.
  { unfold q. field. intros Hb0. rewrite Hb0 in Hb. by apply Qlt_irrefl in Hb. }
  pose proof (Qfloor_le q) as Hfl.
  pose proof (Qlt_floor q) as Hfu.
  rewrite inject_Z_plus in Hfu. change (inject_Z 1) with 1 in Hfu.
  split; [split|].
  - rewrite Ha. nra.
  - rewrite Ha. nra.
  - exists (Qfloor q). split.
    + assert (Qfloor 1 ≤ Qfloor q)%Z by (by apply Qfloor_resp_le). done.
    + ring.
Qed.

(** An accepted frame, whatever the hooks and the renderer do. *)
Lemma loop_accept_outcome program settings t w r w' :
  ¬ fps settings == 0 →
  1000 / fps settings <= t - timeSample w →
  loop fps_update fps_fps program settings t w = (r, w') →
  let interval := 1000 / fps settings in
  let context := getContext fps_fps settings w in
  let w1 := store_pointer
              (timing_update fps_update t (t - timeSample w) interval w) in
  match r with
  | Ok _ => ∃ w2, chassis w2 = chassis w1 ∧ w' = finish settings context w2
  | Throw _ => chassis w' = chassis w1
  end.
Proof.
  intros Hfps Hle Hloop.
  destruct (grid_is_number settings w) eqn:Hgrid.
  - rewrite loop_accept in Hloop by done.
    cbv zeta in Hloop |- *.
    match type of Hloop with
    | steps ?p ?s ?c ?cur ?w0 = _ =>
        pose proof (steps_chassis p s c cur (chassis w0) w0 eq_refl) as Hsteps
    end.
    rewrite Hloop in Hsteps. by destruct r.
  - rewrite loop_no_grid in Hloop by done. by injection Hloop as <- <-.
Qed.

(** The scheduler's variables after an accepted frame, complete or
    not: those of the timing update, with the pointer stored. *)
Lemma loop_accept_chassis program settings t w r w' :
  ¬ fps settings == 0 →
  1000 / fps settings <= t - timeSample w →
  loop fps_update fps_fps program settings t w = (r, w') →
  let interval := 1000 / fps settings in
  let w1 := store_pointer
              (timing_update fps_update t (t - timeSample w) interval w) in
  state w' = state w1 ∧ timeSample w' = timeSample w1 ∧
  timeOffset w' = timeOffset w1 ∧ pointer w' = pointer w1 ∧
  metrics w' = metrics w1 ∧
  (requested w' =
     match r with
     | Ok _ => if once settings then requested w else S (requested w)
     | Throw _ => requested w
     end) ∧
  (promise w' =
     match r, promise w with
     | Ok _, Pending => Resolved (getContext fps_fps settings w)
     | _, p => p
     end).
Proof.
  intros Hrate Hle Hloop.
  pose proof (loop_accept_outcome program settings t w r w' Hrate Hle Hloop)
    as Hout. clear Hrate.
  cbv zeta in Hout |- *.
  destruct r as [[]|e].
  - destruct Hout as (w2 & Hch & ->).
    injection Hch as Hs Hts Hto Hp Hm Hfps Hst Hpr Hrq.
    unfold finish. destruct (once settings); simpl;
      rewrite Hs, Hts, Hto, Hp, Hm, Hpr, Hrq; simpl; split_and!; done.
  - injection Hout as Hs Hts Hto Hp Hm Hfps Hst Hpr Hrq.
    rewrite Hs, Hts, Hto, Hp, Hm, Hpr, Hrq. simpl. split_and!; done.
Qed.

(** One animation frame and the gate, in a run that is not in once
    mode. *)
Lemma animation_frame_gate program settings t width height w w' n :
  ¬ fps settings == 0 →
  once settings = false → requested w = S n →
  animation_frame fps_update fps_fps program settings t width height w
    = (None, w') →
  (timeSample w', frame (state w')) =
    gate (1000 / fps settings) t (timeSample w, frame (state w)) ∧
  requested w' = S n.
Proof.
  intros Hfps Honce Hreq. unfold animation_frame. rewrite Hreq.
  match goal with
  | |- context [loop _ _ _ _ _ ?w0] => set (w_in := w0)
  end.
  destruct (loop fps_update fps_fps program settings t w_in) as [[[]|e] w1]
    eqn:Hloop; [|done].
  intros [= <-]. unfold gate. simpl.
  change (timeSample w) with (timeSample w_in).
  destruct (Qlt_le_dec (t - timeSample w_in) (1000 / fps settings)) as [Hlt|Hle].
  - rewrite loop_skip in Hloop by (by right). rewrite Honce in Hloop.
    by injection Hloop as <-.
  - pose proof (loop_accept_chassis program settings t w_in _ _ Hfps Hle Hloop)
      as (Hs & Hts & _ & _ & _ & Hrq & _).
    rewrite Hs, Hts, Hrq, Honce. done.
Qed.

Lemma animation_frames_gate program settings width height ts :
  ∀ w n,
  ¬ fps settings == 0 →
  once settings = false → requested w = S n →
  fst (animation_frames fps_update fps_fps program settings width height ts w)
    = [] →
  let w' :=
    snd (animation_frames fps_update fps_fps program settings width height ts w) in
  (timeSample w', frame (state w')) =
    foldl (λ c t, gate (1000 / fps settings) t c)
          (timeSample w, frame (state w)) ts.
Proof.
  induction ts as [|t ts IH]; intros w n Hfps Honce Hreq Hnone; [done|].
  cbn [animation_frames] in Hnone |- *.
  destruct (animation_frame fps_update fps_fps program settings t width height w)
    as [e w1] eqn:Hframe.
  destruct (animation_frames fps_update fps_fps program settings width height ts w1)
    as [es w2] eqn:Hframes.
  simpl in Hnone. apply app_eq_nil in Hnone as [He ->].
  destruct e as [e|]; [done|].
  destruct (animation_frame_gate program settings t width height w w1 n
              Hfps Honce Hreq Hframe) as [Hgate Hreq1].
  specialize (IH w1 n Hfps Honce Hreq1). rewrite Hframes in IH.
  cbv zeta in IH. simpl in IH |- *. rewrite IH by done. by rewrite Hgate.
Qed.

(** What [delta % interval] leaves of [delta] is a whole number of
    intervals. *)
Lemma js_rem_whole (a b : Q) : ∃ k : Z, a - js_rem a b == inject_Z k * b.
Proof.
  exists (Z.quot (Qnum (a / b)) (Zpos (Qden (a / b)))). unfold js_rem. ring.
Qed.

(** The remainder of a division that goes once. *)
Lemma js_rem_once (a b : Q) : 0 < b → b <= a → a < 2 * b → js_rem a b == a - b.
Proof.
  intros Hb Hle Hlt.
  destruct (js_rem_spec a b Hb Hle) as [[Hrem _] (k & Hk & Hwhole)].
  assert (k = 1%Z) as ->.
  { destruct (Z_lt_le_dec k 2) as [Hk2|Hk2]; [lia|]. exfalso.
    rewrite Zle_Qle in Hk2. change (inject_Z 2) with 2 in Hk2.
    assert (2 * b <= inject_Z k * b) as Hmul
      by (apply Qmult_le_compat_r; [done|by apply Qlt_le_weak]).
    lra. }
  change (inject_Z 1) with 1 in Hwhole. lra.
Qed.

(** The gate at a timestamp less than two intervals after the accepted
    sample: the sample stays a whole number of intervals, as many as
    there were frames, and the timestamp is within an interval of
    it. *)
Lemma gate_tick (interval : Q) (frames : Z) (t : Q) (c : Q * Z) :
  0 < interval →
  fst c == inject_Z (snd c - frames) * interval →
  fst c <= t → t < fst c + 2 * interval →
  let c' := gate interval t c in
  fst c' == inject_Z (snd c' - frames) * interval ∧
  fst c' <= t ∧ t < fst c' + interval.
Proof.
  intros Hint Hwhole Hlo Hhi. unfold gate.
  destruct (Qlt_le_dec (t - fst c) interval) as [Hlt|Hle].
  - split; [done|]. split; lra.
  - cbn [fst snd].
    assert (js_rem (t - fst c) interval == t - fst c - interval) as Hrem
      by (apply js_rem_once; lra).
    rewrite Hrem.
    replace (snd c + 1 - frames)%Z with ((snd c - frames) + 1)%Z by lia.
    rewrite inject_Z_plus. change (inject_Z 1) with 1.
    split; [|split]; lra.
Qed.

(** The gate under ticks that come at least as often as the interval:
    after every tick the frames accepted are the whole intervals that
    went by. *)
Lemma gate_ticks (interval : Q) (step : Z) (frames : Z) (n : nat) :
  (0 < step)%Z → inject_Z step <= interval →
  ∀ (s : nat) (c : Q * Z),
    fst c == inject_Z (snd c - frames) * interval →
    fst c <= inject_Z (step * Z.of_nat s) →
    inject_Z (step * Z.of_nat s) < fst c + interval →
    let c' := foldl (λ c t, gate interval t c) c
                ((λ k, inject_Z (step * Z.of_nat k)) <$> seq (S s) n) in
    fst c' == inject_Z (snd c' - frames) * interval ∧
    fst c' <= inject_Z (step * Z.of_nat (s + n)) ∧
    inject_Z (step * Z.of_nat (s + n)) < fst c' + interval.
Proof.
  intros Hstep Hint.
  assert (0 < inject_Z step) as Hstep'.
  { change 0 with (inject_Z 0). by rewrite <-Zlt_Qlt. }
  induction n as [|n IH]; intros s c Hwhole Hlo Hhi.
  { cbn [seq fmap list_fmap foldl]. by rewrite Nat.add_0_r. }
  cbn [seq fmap list_fmap foldl].
  assert (inject_Z (step * Z.of_nat (S s)) ==
          inject_Z (step * Z.of_nat s) + inject_Z step) as Ht.
  { rewrite <-inject_Z_plus. f_equiv. lia. }
  destruct (gate_tick interval frames (inject_Z (step * Z.of_nat (S s))) c)
    as (Hwhole' & Hlo' & Hhi'); [lra|done|lra|lra|].
  replace (s + S n)%nat with (S s + n)%nat by lia.
  by apply IH.
Qed.


(** *** The cursor *)

Lemma Qdiv_mult_cancel (a b : Q) : 0 < b → a * b / b == a.
Proof.
  intros Hb. field. intros Hb0. rewrite Hb0 in Hb. by apply Qlt_irrefl in Hb.
Qed.

Lemma js_div_finite (a b : Q) : ¬ b == 0 → js_div a b = Finite (a / b).
Proof. intros Hb. unfold js_div. by destruct (Qeq_dec b 0). Qed.

Lemma js_div_positive (a b : Q) : 0 < b → js_div a b = Finite (a / b).
Proof.
  intros Hb. apply js_div_finite. intros Hb0. rewrite Hb0 in Hb.
  by apply Qlt_irrefl in Hb.
Qed.

(** C4, as the code has it.  In an accepted frame on cells of positive
    size, the cursor computed from the pointer as the frame finds it -
    the one the rest of the frame, and in it the hooks, are handed on a
    grid that is a pair of numbers - is the offset divided by the cell
    metrics, clamped from above to the last column and row, and not
    clamped from below, so that it is on the grid when the offset is
    not negative.  The state of the previous frame is under [p]: three
    fields, nothing nested.  The frame stores the pointer for the next
    one, and the next frame's [p] is this frame's cursor whenever this
    one was not clamped.  After a move from (1, 1) to (2, 2) across two
    frames on a grid of at least 3 by 3, the cursor is (2, 2) and [p]
    is (1, 1). *)
Theorem cursor_update program settings (t : Q) w :
  0 < cellWidth (metrics w) → 0 < lineHeight (metrics w) →
  ¬ fps settings == 0 → 1000 / fps settings <= t - timeSample w →
  let context := getContext fps_fps settings w in
  let cursor := make_cursor context w in
  let last_col := inject_Z (Z.of_nat (ctx_cols context)) - 1 in
  let last_row := inject_Z (Z.of_nat (ctx_rows context)) - 1 in
  let gx := ptr_x (pointer w) / cellWidth (metrics w) in
  let gy := ptr_y (pointer w) / lineHeight (metrics w) in
  (grid_is_number settings w = true →
   ∃ w1, loop fps_update fps_fps program settings t w =
           steps program settings context cursor w1) ∧
  c_x cursor = Finite (Qmin last_col gx) ∧
  c_y cursor = Finite (Qmin last_row gy) ∧
  c_pressed cursor = ptr_pressed (pointer w) ∧
  Qmin last_col gx <= last_col ∧ Qmin last_row gy <= last_row ∧
  (0 <= ptr_x (pointer w) → 0 <= last_col → 0 <= Qmin last_col gx) ∧
  (0 <= ptr_y (pointer w) → 0 <= last_row → 0 <= Qmin last_row gy) ∧
  (∀ r w', loop fps_update fps_fps program settings t w = (r, w') →
     ∀ offsetX offsetY context',
       let next := make_cursor context' (pointermove offsetX offsetY w') in
       p_pressed (p next) = c_pressed cursor ∧
       (gx <= last_col →
        ∃ px, p_x (p next) = Finite px ∧ px == Qmin last_col gx) ∧
       (gy <= last_row →
        ∃ py, p_y (p next) = Finite py ∧ py == Qmin last_row gy) ∧
       (ptr_x (pointer w) = 1 * cellWidth (metrics w) →
        ptr_y (pointer w) = 1 * lineHeight (metrics w) →
        offsetX = 2 * cellWidth (metrics w) →
        offsetY = 2 * lineHeight (metrics w) →
        (3 ≤ ctx_cols context')%nat → (3 ≤ ctx_rows context')%nat →
        ∃ x y px py,
          c_x next = Finite x ∧ c_y next = Finite y ∧
          p_x (p next) = Finite px ∧ p_y (p next) = Finite py ∧
          x == 2 ∧ y == 2 ∧ px == 1 ∧ py == 1)).
Proof.
  intros Hcw Hlh Hfps Hle context cursor last_col last_row gx gy.
  split.
  { intros Hgrid. eexists. rewrite loop_accept by done. cbv zeta.
    reflexivity. }
  split.
  { unfold cursor, make_cursor. cbn [c_x]. by rewrite js_div_positive. }
  split.
  { unfold cursor, make_cursor. cbn [c_y]. by rewrite js_div_positive. }
  split; [done|].
  split; [apply Q.le_min_l|]. split; [apply Q.le_min_l|].
  assert (∀ a b, 0 < b → 0 <= a → 0 <= a / b) as Hdiv.
  { intros a b Hb Ha. apply Qle_shift_div_l; [done|]. by rewrite Qmult_0_l. }
  split.
  { intros Hx Hlast. apply Q.min_glb; [done|]. by apply Hdiv. }
  split.
  { intros Hy Hlast. apply Q.min_glb; [done|]. by apply Hdiv. }
  intros r w' Hloop.
  pose proof (loop_accept_chassis program settings t w r w' Hfps Hle Hloop)
    as (_ & _ & _ & Hp & Hm & _).
  simpl in Hp, Hm.
  intros offsetX offsetY context' next.
  assert (p next = {| p_x := Finite gx; p_y := Finite gy;
                      p_pressed := ptr_pressed (pointer w) |}) as Hprev.
  { unfold next, make_cursor, pointermove. simpl. rewrite Hp, Hm. simpl.
    by rewrite !js_div_positive. }
  rewrite Hprev. cbn [p_x p_y p_pressed].
  split; [done|].
  split; [intros Hgx; exists gx; split; [done|]; symmetry; by apply Q.min_r|].
  split; [intros Hgy; exists gy; split; [done|]; symmetry; by apply Q.min_r|].
  intros Hx Hy -> -> Hcols Hrows.
  assert (gx == 1) as Hgx1.
  { unfold gx. rewrite Hx. by apply Qdiv_mult_cancel. }
  assert (gy == 1) as Hgy1.
  { unfold gy. rewrite Hy. by apply Qdiv_mult_cancel. }
  eexists _, _, gx, gy.
  split.
  { unfold next, make_cursor, pointermove. simpl. rewrite Hm.
    by rewrite js_div_positive. }
  split.
  { unfold next, make_cursor, pointermove. simpl. rewrite Hm.
    by rewrite js_div_positive. }
  split; [done|]. split; [done|].
  split_and!; [| |done|done].
  - rewrite Qdiv_mult_cancel by done. apply Q.min_r.
    assert (3 <= inject_Z (Z.of_nat (ctx_cols context'))) as Hc3.
    { unfold Qle. simpl. lia. }
    lra.
  - rewrite Qdiv_mult_cancel by done. apply Q.min_r.
    assert (3 <= inject_Z (Z.of_nat (ctx_rows context'))) as Hr3.
    { unfold Qle. simpl. lia. }
    lra.
Qed.

(** *** What [main] returns *)

Lemma apply_main_cell idx out (buffer : list value) :
  arr_get idx (apply_main idx out buffer) =
    let merged :=
      match out with
      | VObj o => o ∪ spread (arr_get idx buffer)
      | VPrim g => <["char" := g]> (spread (arr_get idx buffer))
      end in
    VObj (<["char" := coerce_glyph (field "char" merged)]> merged).
Proof.
  unfold apply_main. rewrite arr_get_set_eq. cbv zeta.
  set (merged := match out with
                 | VObj o => spread2 (arr_get idx buffer) (VObj o)
                 | VPrim g => <["char" := g]> (spread (arr_get idx buffer))
                 end).
  assert (merged = match out with
                   | VObj o => o ∪ spread (arr_get idx buffer)
                   | VPrim g => <["char" := g]> (spread (arr_get idx buffer))
                   end) as <- by (by destruct out).
  unfold coerce_glyph.
  destruct (truthy (field "char" merged)) eqn:Ht; simpl.
  - f_equal. symmetry. apply insert_id. unfold field in *.
    destruct (merged !! "char") as [g|] eqn:Hg; [done|]. done.
  - case_bool_decide as Hz; simpl; [|done].
    f_equal. symmetry. apply insert_id. unfold field in *.
    destruct (merged !! "char") as [g|] eqn:Hg; [by simplify_eq/=|done].
Qed.


(** *** The buffer and the grid *)

Lemma arr_resize_length n (l : list value) : length (arr_resize n l) = n.
Proof.
  unfold arr_resize. rewrite length_app, length_take, length_replicate. lia.
Qed.

Lemma fill_prefix (v : value) (k : nat) (b : list value) :
  (k ≤ length b)%nat →
  foldl (λ b i, arr_set i v b) b (seq 0 k) = replicate k v ++ drop k b.
Proof.
  induction k as [|k IH]; intros Hk.
  - by rewrite drop_0.
  - rewrite seq_S, foldl_app, IH by lia. cbn [foldl Nat.add].
    unfold arr_set.
    rewrite bool_decide_true
      by (rewrite length_app, length_replicate, length_drop; lia).
    rewrite insert_app_r_alt by (rewrite length_replicate; lia).
    rewrite length_replicate, Nat.sub_diag.
    destruct (lookup_lt_is_Some_2 b k) as [a Ha]; [lia|].
    rewrite (drop_S b a k Ha). cbn [insert list_insert].
    rewrite replicate_S_end, <-app_assoc. done.
Qed.

Lemma fill_all (v : value) (b : list value) :
  foldl (λ b i, arr_set i v b) b (seq 0 (length b)) = replicate (length b) v.
Proof. rewrite fill_prefix by done. by rewrite drop_all, app_nil_r. Qed.

Lemma default_cell_eq settings :
  VObj (<["char" := PStr EMPTY_CELL]> (DEFAULT_CELL_STYLE settings)) =
  default_cell settings.
Proof. unfold default_cell, DEFAULT_CELL_STYLE. by rewrite insert_insert_eq. Qed.

(** The normalisation of the buffer, when the grid has changed. *)
Lemma normalize_buffer_resized settings context w :
  w_cols w ≠ Some (ctx_cols context) ∨ w_rows w ≠ Some (ctx_rows context) →
  normalize_buffer settings context w =
    with_buffer
      (replicate (ctx_cols context * ctx_rows context) (default_cell settings))
      {| state := state w; timeSample := timeSample w;
         timeOffset := timeOffset w; pointer := pointer w; metrics := metrics w;
         w_cols := Some (ctx_cols context); w_rows := Some (ctx_rows context);
         buffer := buffer w; variables := variables w; fps_state := fps_state w;
         renderer := renderer w; renderer_state := renderer_state w;
         stored := stored w; promise := promise w; requested := requested w;
         rect_width := rect_width w; rect_height := rect_height w |}.
Proof.
  intros Hchanged. unfold normalize_buffer.
  assert (negb (bool_decide (w_cols w = Some (ctx_cols context)))
          || negb (bool_decide (w_rows w = Some (ctx_rows context))) = true) as ->.
  { destruct Hchanged as [H|H]; rewrite (bool_decide_false _ H); simpl; [done|].
    by rewrite orb_true_r. }
  rewrite default_cell_eq, fill_all, arr_resize_length. done.
Qed.

Lemma normalize_buffer_same settings context w :
  w_cols w = Some (ctx_cols context) → w_rows w = Some (ctx_rows context) →
  normalize_buffer settings context w = w.
Proof.
  intros Hc Hr. unfold normalize_buffer.
  by rewrite !bool_decide_true by done.
Qed.

Lemma apply_main_length idx out (buffer : list value) :
  (idx < length buffer)%nat →
  length (apply_main idx out buffer) = length buffer.
Proof. intros Hidx. unfold apply_main. rewrite arr_set_length. lia. Qed.


(** Where a dimension is left to the element and the cell measures 0
    along it, the accepted frame throws a [RangeError] where the length
    of the buffer would be set, and the buffer is as it was. *)
Lemma zero_cell_throws program settings (t : Q) w res w' :
  zero_cell settings w →
  ¬ fps settings == 0 → 1000 / fps settings <= t - timeSample w →
  loop fps_update fps_fps program settings t w = (res, w') →
  res = Throw "RangeError" ∧ buffer w' = buffer w.
Proof.
  intros Hgrid%zero_cell_no_grid Hfps Hle Hloop.
  rewrite loop_no_grid in Hloop by done. by injection Hloop as <- <-.
Qed.

(** *** Exceptions *)

(** C5, on the code.  [run] returns a pending promise.  When the loop
    throws in an animation frame, in the first frame as in any other,
    nothing catches the exception: the tick was accepted and counted,
    no further frame is requested, and the promise is what it was, so
    a pending promise stays pending and is never rejected. *)
Theorem hook_exception_uncaught program settings (t width height : Q) w e w' :
  animation_frame fps_update fps_fps program settings t width height w
    = (Some e, w') →
  (∀ renderers w0, promise (run renderers settings w0) = Pending) ∧
  promise w' = promise w ∧
  S (requested w') = requested w ∧
  frame (state w') = (frame (state w) + 1)%Z.
Proof.
  intros Hframe. split.
  { intros renderers w0. by unfold run, new_Promise, executor, modify. }
  unfold animation_frame in Hframe.
  destruct (requested w) as [|n] eqn:Hreq; [done|].
  match type of Hframe with
  | context [loop _ _ _ _ _ ?w0] => set (w_in := w0) in *
  end.
  destruct (loop fps_update fps_fps program settings t w_in) as [[[]|e'] w1]
    eqn:Hloop; [done|].
  injection Hframe as -> ->.
  destruct (gate_cases settings (t - timeSample w_in)) as [Hearly|[Hfps Hle]].
  { rewrite loop_skip in Hloop by done. done. }
  pose proof (loop_accept_chassis program settings t w_in _ _ Hfps Hle Hloop)
    as (Hs & _ & _ & _ & _ & Hrq & Hpr).
  rewrite Hs, Hrq, Hpr. simpl. split_and!; done.
Qed.

End RunProps.

(** *** The time gate on a concrete run *)



(** *** The cursor on a concrete run *)

Lemma cursor_update_witness :
  let w := Run.pointermove 10 20 (Demo.booted Demo.no_hooks false) in
  let context := Run.getContext Demo.fps_fps (Demo.settings false) w in
  let result :=
    Run.loop Demo.fps_update Demo.fps_fps Demo.no_hooks (Demo.settings false)
             40 w in
  let next := Run.make_cursor context (Run.pointermove 20 40 (snd result)) in
  ∃ x y px py,
    Run.c_x next = Run.Finite x ∧ Run.c_y next = Run.Finite y ∧
    Run.p_x (Run.p next) = Run.Finite px ∧
    Run.p_y (Run.p next) = Run.Finite py ∧
    (x == 2)%Q ∧ (y == 2)%Q ∧ (px == 1)%Q ∧ (py == 1)%Q.
Proof.
  intros w context result.
  assert (0 < Run.cellWidth (Run.metrics w))%Q as Hcw
    by (vm_compute; reflexivity).
  assert (0 < Run.lineHeight (Run.metrics w))%Q as Hlh
    by (vm_compute; reflexivity).
  assert (¬ Run.fps (Demo.settings false) == 0)%Q as Hfps
    by (vm_compute; discriminate).
  assert (1000 / Run.fps (Demo.settings false) <= 40 - Run.timeSample w)%Q
    as Hle by (vm_compute; discriminate).
  pose proof (cursor_update Demo.fps_update Demo.fps_fps Demo.no_hooks
                (Demo.settings false) 40 w Hcw Hlh Hfps Hle)
    as (_ & _ & _ & _ & _ & _ & _ & _ & Hnext).
  destruct (Hnext (fst result) (snd result) (surjective_pairing result)
              20%Q 40%Q context) as (_ & _ & _ & Hmove).
  apply Hmove.
  - vm_compute. reflexivity.
  - vm_compute. reflexivity.
  - vm_compute. reflexivity.
  - vm_compute. reflexivity.
  - vm_compute. lia.
  - vm_compute. lia.
Defined.

(** C4, as stated, fails where the code does not clamp.  A pointer left
    of the element is not clamped from below: at offset -10 with cells
    10 wide the cursor reports column -1.  And on an element that is
    not laid out, whose cells measure 0 by 0, the quotient is no cell
    at all: on a grid set to 3 by 3, with the pointer at offset 0, the
    frame completes and the cursor it hands on reports [NaN]. *)
Lemma cursor_counterexample :
  let booted := Demo.booted Demo.no_hooks false in
  let left := Run.pointermove (-10) 0 booted in
  let flat := Demo.booted_collapsed Demo.no_hooks (Demo.settings false) in
  (∃ x, Run.c_x (Run.make_cursor
                   (Run.getContext Demo.fps_fps (Demo.settings false) left)
                   left) = Run.Finite x ∧ (x == -1)%Q) ∧
  (Run.grid_is_number (Demo.settings false) flat = true ∧
   fst (Run.loop Demo.fps_update Demo.fps_fps Demo.no_hooks
                 (Demo.settings false) 40 flat) = Ok tt ∧
   Run.c_x (Run.make_cursor
              (Run.getContext Demo.fps_fps (Demo.settings false) flat) flat)
     = Run.NaN).
Proof.
  split.
  - eexists. split; [vm_compute; reflexivity|]. vm_compute. reflexivity.
  - split_and!; vm_compute; reflexivity.
Qed.

(** Where the cursor was clamped, the next frame's [p] is not that
    cursor but the offset as it was, divided by the metrics: at offset
    100 on a grid of 3 columns the cursor reports column 2 and the next
    frame's [p] reports column 10 - where the type of the cursor
    documents [p] as the previous cursor state. *)
Remark cursor_previous_after_clamp :
  let booted := Demo.booted Demo.no_hooks false in
  let context w := Run.getContext Demo.fps_fps (Demo.settings false) w in
  let right := Run.pointermove 100 0 booted in
  let after :=
    snd (Run.animation_frame Demo.fps_update Demo.fps_fps Demo.no_hooks
           (Demo.settings false) 40 30 60 right) in
  (∃ x, Run.c_x (Run.make_cursor (context right) right) = Run.Finite x ∧
        (x == 2)%Q) ∧
  Run.frame (Run.state after) = 1%Z ∧
  (∃ px, Run.p_x (Run.p (Run.make_cursor (context after) after))
           = Run.Finite px ∧ (px == 10)%Q).
Proof.
  split_and!.
  - eexists. split; [vm_compute; reflexivity|]. vm_compute. reflexivity.
  - vm_compute. reflexivity.
  - eexists. split; [vm_compute; reflexivity|]. vm_compute. reflexivity.
Qed.

(** *** What [main] returns, on concrete cells *)


(** *** The buffer and the grid, on a concrete run *)



(** *** Exceptions, on a concrete run *)

Lemma hook_exception_uncaught_witness :
  let w := Demo.booted Demo.main_throws false in
  let result := Run.animation_frame Demo.fps_update Demo.fps_fps
                  Demo.main_throws (Demo.settings false) 40 30 60 w in
  fst result = Some "Error" ∧
  Run.promise w = Run.Pending ∧
  Run.promise (snd result) = Run.promise w ∧
  S (Run.requested (snd result)) = Run.requested w.
Proof.
  intros w result.
  assert (fst result = Some "Error") as Hthrown by (vm_compute; reflexivity).
  assert (result = (Some "Error", snd result)) as Hframe.
  { rewrite <-Hthrown. apply surjective_pairing. }
  split; [exact Hthrown|]. split; [vm_compute; reflexivity|].
  destruct (hook_exception_uncaught Demo.fps_update Demo.fps_fps
              Demo.main_throws (Demo.settings false) 40 30 60 w "Error"
              (snd result) Hframe) as (_ & Hpromise & Hrequested & _).
  split; [exact Hpromise|exact Hrequested].
Defined.

(** ** More on the cell buffer: rectangles, idempotence, shape *)

Section BufferMore.
Import Buffer.

Lemma get_set v x y target cols rows c r :
  in_bounds c r cols rows →
  get c r (set v x y target cols rows) cols rows =
    if decide (c = x ∧ r = y) then v else get c r target cols rows.
Proof.
  intros Hin. case_decide as Heq.
  - destruct Heq as [-> ->]. rewrite set_in_bounds, get_in_bounds by done.
    apply arr_get_set_eq.
  - destruct (decide (in_bounds x y cols rows)) as [Hxy|Hxy].
    + rewrite set_in_bounds, !get_in_bounds by done.
      apply arr_get_set_ne. intros Hidx.
      apply Heq. by eapply index_of_inj.
    + by rewrite set_out_of_bounds.
Qed.

Lemma elem_of_rect_coords x y w h i j :
  (i, j) ∈ rect_coords x y w h ↔ x ≤ i < x + w ∧ y ≤ j < y + h.
Proof.
  unfold rect_coords. rewrite list_elem_of_bind. split.
  - intros (j' & Hij & Hj'). apply list_elem_of_bind in Hij as (i' & Hij & Hi').
    apply list_elem_of_singleton in Hij. simplify_eq.
    apply elem_of_seqZ in Hi', Hj'. lia.
  - intros [Hi Hj]. exists j. split; [|apply elem_of_seqZ; lia].
    apply list_elem_of_bind. exists i. split; [by left|apply elem_of_seqZ; lia].
Qed.

(** A run of [set]s over any list of coordinates. *)
Lemma get_foldl_set v (l : list (Z * Z)) cols rows c r :
  in_bounds c r cols rows →
  ∀ target,
  get c r (foldl (λ t '(i, j), set v i j t cols rows) target l) cols rows =
    if decide ((c, r) ∈ l) then v else get c r target cols rows.
Proof.
  intros Hin. induction l as [|[i j] l IH]; intros target.
  - cbn [foldl]. rewrite decide_False; [done|]. apply not_elem_of_nil.
  - cbn [foldl]. rewrite IH. clear IH.
    destruct (decide ((c, r) ∈ l)) as [Hl|Hl].
    + by rewrite decide_True by (by right).
    + rewrite get_set by done.
      destruct (decide (c = i ∧ r = j)) as [[-> ->]|Hne].
      * by rewrite decide_True by left.
      * rewrite decide_False; [done|].
        intros [Heq|?]%elem_of_cons; [|done]. simplify_eq. by apply Hne.
Qed.

(** X1.  [setRect] writes the value at every coordinate of the
    rectangle that is on the grid and at no other: read back through
    [get], an entry of the grid is the value when its coordinate is in
    the rectangle and what it was otherwise.  A rectangle of negative
    width or height holds no coordinate. *)
Theorem setRect_spec (val : CellValue) (x y w h : Z) (target : Buffer)
    (cols rows : Z) (c r : Z) :
  in_bounds c r cols rows →
  get c r (setRect val x y w h target cols rows) cols rows =
    if decide (x ≤ c < x + w ∧ y ≤ r < y + h) then val
    else get c r target cols rows.
Proof.
  intros Hin. unfold setRect. rewrite get_foldl_set by done.
  apply decide_ext, elem_of_rect_coords.
Qed.

Lemma setRect_spec_witness :
  in_bounds 1 1 3 3 ∧
  get 1 1 (setRect (VPrim (PStr "#")) 1 1 5 5 [] 3 3) 3 3 =
    (if decide (1 ≤ 1 < 1 + 5 ∧ 1 ≤ 1 < 1 + 5) then VPrim (PStr "#")
     else get 1 1 [] 3 3).
Proof.
  assert (in_bounds 1 1 3 3) as Hin by (unfold in_bounds; lia).
  split; [exact Hin|].
  exact (setRect_spec (VPrim (PStr "#")) 1 1 5 5 [] 3 3 1 1 Hin).
Defined.

Lemma flatten_merged (o : obj) : flatten (VObj o) = o.
Proof. done. Qed.

(** A run of [merge]s over any list of coordinates: a coordinate met
    more than once is merged as if once. *)
Lemma get_foldl_merge v (l : list (Z * Z)) cols rows c r :
  in_bounds c r cols rows →
  ∀ target,
  get c r (foldl (λ t '(i, j), merge v i j t cols rows) target l) cols rows =
    if decide ((c, r) ∈ l)
    then VObj (spread v ∪ flatten (get c r target cols rows))
    else get c r target cols rows.
Proof.
  intros Hin. induction l as [|[i j] l IH]; intros target.
  - cbn [foldl]. rewrite decide_False; [done|]. apply not_elem_of_nil.
  - cbn [foldl]. rewrite IH. clear IH. rewrite get_merge by done.
    destruct (decide (c = i ∧ r = j)) as [[-> ->]|Hne].
    + rewrite (decide_True (P := (i, j) ∈ (i, j) :: l)) by left.
      destruct (decide ((i, j) ∈ l)); [|done].
      rewrite flatten_merged, (assoc_L (∪)), (idemp_L (∪)). done.
    + destruct (decide ((c, r) ∈ l)) as [Hl|Hl].
      * by rewrite decide_True by (by right).
      * rewrite decide_False; [done|].
        intros [Heq|?]%elem_of_cons; [|done]. simplify_eq. by apply Hne.
Qed.

(** X2.  [mergeRect] merges the value into every entry of the rectangle
    that is on the grid and into no other: such an entry becomes the
    fields of the value laid over the entry as [merge] flattens it, and
    the rest of the grid is as it was. *)
Theorem mergeRect_spec (val : CellValue) (x y w h : Z) (target : Buffer)
    (cols rows : Z) (c r : Z) :
  in_bounds c r cols rows →
  get c r (mergeRect val x y w h target cols rows) cols rows =
    if decide (x ≤ c < x + w ∧ y ≤ r < y + h)
    then VObj (spread val ∪ flatten (get c r target cols rows))
    else get c r target cols rows.
Proof.
  intros Hin. unfold mergeRect. rewrite get_foldl_merge by done.
  apply decide_ext, elem_of_rect_coords.
Qed.

Lemma mergeRect_spec_witness :
  let val := VObj {["color" := PStr "red"]} in
  in_bounds 0 1 2 2 ∧
  get 0 1 (mergeRect val 0 0 2 2 [] 2 2) 2 2 =
    (if decide (0 ≤ 0 < 0 + 2 ∧ 0 ≤ 1 < 0 + 2)
     then VObj (spread val ∪ flatten (get 0 1 [] 2 2))
     else get 0 1 [] 2 2).
Proof.
  intros val.
  assert (in_bounds 0 1 2 2) as Hin by (unfold in_bounds; lia).
  split; [exact Hin|].
  exact (mergeRect_spec val 0 0 2 2 [] 2 2 0 1 Hin).
Defined.

Lemma arr_set_set i (u v : value) (l : list value) :
  arr_set i v (arr_set i u l) = arr_set i v l.
Proof.
  unfold arr_set at 1 3. rewrite arr_set_length.
  rewrite bool_decide_true by lia.
  unfold arr_set. case_bool_decide as Hi.
  - by rewrite list_insert_insert_eq.
  - rewrite (assoc_L (++)).
    rewrite insert_app_r_alt by (rewrite length_app, length_replicate; lia).
    rewrite length_app, length_replicate.
    replace (i - (length l + (i - length l)))%nat with 0%nat by lia.
    by rewrite <-(assoc_L (++)).
Qed.

(** X3.  [merge] is idempotent: merging the same value twice at a
    coordinate leaves the buffer as merging it once does, on the grid or
    off it, whatever the value and the entry. *)
Theorem merge_idempotent (val : CellValue) (x y : Z) (target : Buffer)
    (cols rows : Z) :
  merge val x y (merge val x y target cols rows) cols rows =
  merge val x y target cols rows.
Proof.
  destruct (decide (in_bounds x y cols rows)) as [Hin|Hout].
  - rewrite !merge_in_bounds by done.
    rewrite arr_get_set_eq, arr_set_set. do 2 f_equal.
    by rewrite flatten_merged, (assoc_L (∪)), (idemp_L (∪)).
  - by rewrite !merge_out_of_bounds.
Qed.

(** X4.  The last write wins: a [set] at a coordinate makes an earlier
    [set] or [merge] at the same coordinate as if it had not been. *)
Theorem set_overwrites (u v : CellValue) (x y : Z) (target : Buffer)
    (cols rows : Z) :
  set v x y (set u x y target cols rows) cols rows = set v x y target cols rows ∧
  set v x y (merge u x y target cols rows) cols rows = set v x y target cols rows.
Proof.
  destruct (decide (in_bounds x y cols rows)) as [Hin|Hout].
  - rewrite !set_in_bounds, merge_in_bounds by done.
    by rewrite !arr_set_set.
  - by rewrite !set_out_of_bounds, merge_out_of_bounds.
Qed.

(** *** The shape of the buffer *)

Lemma same_shape_refl cols rows t : same_shape cols rows t t.
Proof. by split. Qed.

Lemma same_shape_trans cols rows t1 t2 t3 :
  same_shape cols rows t1 t2 → same_shape cols rows t2 t3 →
  same_shape cols rows t1 t3.
Proof.
  intros [Hl1 Hg1] [Hl2 Hg2]. split; [congruence|].
  intros j Hj. by rewrite Hg2, Hg1.
Qed.

Lemma index_of_on_grid x y cols rows :
  in_bounds x y cols rows →
  Z.of_nat (index_of x y cols) < cols * rows.
Proof. unfold in_bounds, index_of. intros [Hx Hy]. nia. Qed.

Lemma arr_set_shape cols rows i v (t : list value) :
  Z.of_nat i < cols * rows → cols * rows ≤ Z.of_nat (length t) →
  same_shape cols rows t (arr_set i v t).
Proof.
  intros Hi Hcov. split.
  - rewrite arr_set_length. lia.
  - intros j Hj. apply arr_get_set_ne. lia.
Qed.

Lemma set_shape v x y t cols rows :
  cols * rows ≤ Z.of_nat (length t) →
  same_shape cols rows t (set v x y t cols rows).
Proof.
  intros Hcov. destruct (decide (in_bounds x y cols rows)) as [Hin|Hout].
  - rewrite set_in_bounds by done.
    apply arr_set_shape; [by apply index_of_on_grid|done].
  - rewrite set_out_of_bounds by done. apply same_shape_refl.
Qed.

Lemma merge_shape v x y t cols rows :
  cols * rows ≤ Z.of_nat (length t) →
  same_shape cols rows t (merge v x y t cols rows).
Proof.
  intros Hcov. destruct (decide (in_bounds x y cols rows)) as [Hin|Hout].
  - rewrite merge_in_bounds by done.
    apply arr_set_shape; [by apply index_of_on_grid|done].
  - rewrite merge_out_of_bounds by done. apply same_shape_refl.
Qed.

Lemma foldl_shape {A} cols rows (f : list value → A → list value) (l : list A) :
  (∀ t a, cols * rows ≤ Z.of_nat (length t) → same_shape cols rows t (f t a)) →
  ∀ t, cols * rows ≤ Z.of_nat (length t) →
       same_shape cols rows t (foldl f t l).
Proof.
  intros Hf. induction l as [|a l IH]; intros t Hcov; [apply same_shape_refl|].
  cbn [foldl]. eapply same_shape_trans; [by apply Hf|].
  apply IH. destruct (Hf t a Hcov) as [-> _]. done.
Qed.

Lemma mergeText_chars_shape mo x cols rows line st :
  cols * rows ≤ Z.of_nat (length (mt_target st)) →
  same_shape cols rows (mt_target st)
             (mt_target (mergeText_chars mo x cols rows line st)).
Proof.
  unfold mergeText_chars. generalize (imap pair (chars line)). intros l.
  revert st. induction l as [|[n ch] l IH]; intros st Hcov.
  - apply same_shape_refl.
  - cbn [foldl]. eapply same_shape_trans; [|apply IH].
    + cbn [mt_target]. by apply merge_shape.
    + cbn [mt_target].
      destruct (merge_shape (VObj (from_option id ∅ mo ∪ {["char" := PStr ch]}))
                  (x + Z.of_nat n) (mt_row st) (mt_target st) cols rows Hcov)
        as [-> _]. done.
Qed.

Lemma mergeText_lines_shape mo x cols rows (lines : list string) :
  ∀ st, cols * rows ≤ Z.of_nat (length (mt_target st)) →
  same_shape cols rows (mt_target st)
             (mt_target (foldl (mergeText_line mo x cols rows) st lines)).
Proof.
  induction lines as [|line lines IH]; intros st Hcov.
  - apply same_shape_refl.
  - cbn [foldl].
    pose proof (mergeText_chars_shape mo x cols rows line st Hcov) as Hline.
    eapply same_shape_trans; [exact Hline|].
    apply (IH (mergeText_line mo x cols rows st line)).
    cbn [mergeText_line mt_target]. destruct Hline as [-> _]. done.
Qed.

(** X5.  On a buffer that covers the grid (at least [cols * rows]
    entries), none of the helpers changes the length of the buffer or
    an entry past the grid: [set], [merge], [setRect], [mergeRect] and
    [mergeText] write on the grid only, wherever they are aimed. *)
Theorem buffer_ops_keep_shape (val : CellValue) (textObj : TextArg)
    (x y w h : Z) (target : Buffer) (cols rows : Z) :
  cols * rows ≤ Z.of_nat (length target) →
  same_shape cols rows target (set val x y target cols rows) ∧
  same_shape cols rows target (merge val x y target cols rows) ∧
  same_shape cols rows target (setRect val x y w h target cols rows) ∧
  same_shape cols rows target (mergeRect val x y w h target cols rows) ∧
  same_shape cols rows target (snd (mergeText textObj x y target cols rows)).
Proof.
  intros Hcov. split_and!.
  - by apply set_shape.
  - by apply merge_shape.
  - unfold setRect. apply foldl_shape; [|done].
    intros t [i j] Ht. by apply set_shape.
  - unfold mergeRect. apply foldl_shape; [|done].
    intros t [i j] Ht. by apply merge_shape.
  - unfold mergeText. destruct textObj as [t|s]; cbn [snd];
      by apply (mergeText_lines_shape _ x cols rows _
                  {| mt_col := x; mt_row := y; mt_wrap := []; mt_target := target |}).
Qed.

Lemma buffer_ops_keep_shape_witness :
  let target := replicate 4 (VPrim (PStr ".")) in
  same_shape 2 2 target (set (VPrim (PStr "x")) 5 5 target 2 2) ∧
  same_shape 2 2 target
    (snd (mergeText (TextOfString "hello") 1 1 target 2 2)).
Proof.
  intros target.
  assert (2 * 2 ≤ Z.of_nat (length target)) as Hcov by (vm_compute; discriminate).
  destruct (buffer_ops_keep_shape (VPrim (PStr "x")) (TextOfString "hello")
              5 5 0 0 target 2 2 Hcov) as (Hset & _ & _ & _ & _).
  destruct (buffer_ops_keep_shape (VPrim (PStr "x")) (TextOfString "hello")
              1 1 0 0 target 2 2 Hcov) as (_ & _ & _ & _ & Htext).
  split; [exact Hset|exact Htext].
Defined.

End BufferMore.

(** ** More on the text renderer: repaint, idempotence, odd cells *)

Section TextRendererMore.
Import TextRenderer.

Lemma sync_rows_same context buffer n js s :
  (∀ j, j ∈ js → row_differs buffer (backBuffer s) n j = false) →
  sync_rows context buffer n js s = s.
Proof.
  induction js as [|j js IH]; intros Hsame; [done|].
  change (sync_rows context buffer n (j :: js) s)
    with (sync_rows context buffer n js (sync_row context buffer n s j)).
  assert (sync_row context buffer n s j = s) as ->.
  { unfold sync_row. by rewrite Hsame by left. }
  apply IH. intros j' Hj'. apply Hsame. by right.
Qed.

(** X6.  Only a change of glyph, weight, color or background is
    drawn.  Once a frame of cells was rendered, rendering a frame whose
    cells match it in these four fields - the same frame again, or one
    that differs in other fields only, such as the raw markup of
    [beginHTML] and [endHTML] - leaves the renderer and the element
    exactly as they are: no row is rewritten, no back buffer entry is
    touched, no row element is added or removed. *)
Theorem render_skips_matching_frame (context : Context)
    (frame frame' : list value) (s0 : State) :
  frame_of_cells frame (ctx_cols context) (ctx_rows context) →
  no_null (backBuffer s0) →
  (∀ idx, (idx < ctx_cols context * ctx_rows context)%nat →
     same_cell (arr_get idx frame') (arr_get idx frame) = true) →
  ∃ s1, render context frame s0 = (Ok tt, s1) ∧
        render context frame s1 = (Ok tt, s1) ∧
        render context frame' s1 = (Ok tt, s1).
Proof.
  intros Hframe Hnn Hmatch.
  destruct (render_frame context frame s0 Hframe Hnn)
    as (s1 & Hr1 & Hc & Hr & Hlen & Hnn1 & Hshadow).
  assert (∀ f, (∀ idx, (idx < ctx_cols context * ctx_rows context)%nat →
                  same_cell (arr_get idx f) (arr_get idx frame) = true) →
               render context f s1 = (Ok tt, s1)) as Hskip.
  { intros f Hf. rewrite render_spec; [| |done].
    - rewrite prepared_id by done. f_equal.
      apply sync_rows_same. intros j Hj%elem_of_seq.
      apply row_differs_false. intros i Hi.
      eapply same_cell_trans; [apply Hf; nia|]. apply Hshadow; [done|lia].
    - intros idx Hidx Hnull. specialize (Hf idx Hidx).
      by rewrite Hnull in Hf. }
  exists s1. split; [done|]. split; apply Hskip; [|done].
  intros idx Hidx. destruct (Hframe idx Hidx) as [o ->]. apply same_cell_refl.
Qed.

Lemma render_skips_matching_frame_witness :
  ∃ s1, render ten_rows frame_a renderer_loaded = (Ok tt, s1) ∧
        render ten_rows frame_a s1 = (Ok tt, s1) ∧
        render ten_rows frame_a_linked s1 = (Ok tt, s1).
Proof.
  apply render_skips_matching_frame.
  - intros idx Hidx.
    do 10 (destruct idx as [|idx]; [eexists; reflexivity|]). simpl in Hidx. lia.
  - intros idx. by destruct idx.
  - intros idx Hidx.
    do 10 (destruct idx as [|idx]; [by vm_compute|]). simpl in Hidx. lia.
Defined.

Lemma row_differs_empty_back buffer n j :
  (0 < n)%nat → row_differs buffer [] n j = true.
Proof.
  intros Hn. apply row_differs_true. exists 0%nat. split; [done|].
  unfold arr_get at 2. rewrite lookup_nil. unfold same_cell.
  by destruct (arr_get (0 + j * n) buffer).
Qed.

Lemma no_null_nil : no_null [].
Proof. intros idx. unfold arr_get. by rewrite lookup_nil. Qed.

(** One call of [render], when the back buffer is sound once the resize
    was detected (a resize empties it). *)
Lemma render_spec_prepared context buffer s :
  (∀ idx, (idx < ctx_cols context * ctx_rows context)%nat →
     arr_get idx buffer ≠ VPrim PNull) →
  no_null (backBuffer (prepared context s)) →
  render context buffer s =
    (Ok tt, sync_rows context buffer (ctx_cols context)
                      (seq 0 (ctx_rows context)) (prepared context s)).
Proof.
  intros Hbuf Hnn.
  assert (∀ s', no_null (backBuffer s') →
            for_each (seq 0 (ctx_rows context))
                     (render_row context buffer (ctx_cols context)) s' =
            (Ok tt, sync_rows context buffer (ctx_cols context)
                              (seq 0 (ctx_rows context)) s')) as Hrows.
  { intros s' Hnn'. apply render_rows_spec; [|done].
    intros i j Hj Hi. apply elem_of_seq in Hj. apply Hbuf. nia. }
  revert Hnn. unfold render, mbind, M_bind, modify, gets, prepared.
  destruct (negb (bool_decide (Some (ctx_rows context) = rows s))
            || negb (bool_decide (Some (ctx_cols context) = cols s))) eqn:Hr;
    cbn [backBuffer cols rows children writes default from_option id];
    intros Hnn.
  - by rewrite Hrows.
  - apply orb_false_elim in Hr as [Hr1 Hr2].
    apply negb_false_iff, bool_decide_eq_true in Hr1, Hr2.
    rewrite <-Hr1, <-Hr2.
    cbn [backBuffer cols rows children writes default from_option id].
    by rewrite Hrows.
Qed.

(** When every row differs, the rows are written in the order of the
    loop. *)
Lemma sync_rows_all_written context buffer n js :
  ∀ s,
  NoDup js →
  (∀ j, j ∈ js → (j < length (children s))%nat) →
  (∀ j, j ∈ js → row_differs buffer (backBuffer s) n j = true) →
  writes (sync_rows context buffer n js s) = reverse js ++ writes s.
Proof.
  induction js as [|j0 js IH]; intros s Hnd Hlen Hdiff; [done|].
  apply NoDup_cons in Hnd as [Hj0 Hnd].
  change (sync_rows context buffer n (j0 :: js) s)
    with (sync_rows context buffer n js (sync_row context buffer n s j0)).
  rewrite IH; [|done| |].
  - rewrite sync_row_writes by (apply Hlen; left).
    rewrite Hdiff by left. rewrite reverse_cons, <-(assoc_L (++)). done.
  - intros j Hj. rewrite sync_row_children_length. apply Hlen. by right.
  - intros j Hj. rewrite sync_row_differs_other by (intros ->; done).
    apply Hdiff. by right.
Qed.

(** A resize empties the back buffer. *)
Lemma prepared_resized context s :
  cols s ≠ Some (ctx_cols context) ∨ rows s ≠ Some (ctx_rows context) →
  backBuffer (prepared context s) = [].
Proof.
  intros Hdims. unfold prepared. cbn [backBuffer].
  destruct Hdims as [Hc|Hr].
  - rewrite (bool_decide_false (Some (ctx_cols context) = cols s))
      by (intros Heq; by apply Hc).
    by rewrite orb_true_r.
  - rewrite (bool_decide_false (Some (ctx_rows context) = rows s))
      by (intros Heq; by apply Hr).
    done.
Qed.

(** One call of [render] when a resize is detected. *)
Lemma render_resized context buffer s :
  (∀ idx, (idx < ctx_cols context * ctx_rows context)%nat →
     arr_get idx buffer ≠ VPrim PNull) →
  cols s ≠ Some (ctx_cols context) ∨ rows s ≠ Some (ctx_rows context) →
  render context buffer s =
    (Ok tt, sync_rows context buffer (ctx_cols context)
                      (seq 0 (ctx_rows context)) (prepared context s)).
Proof.
  intros Hbuf Hdims. apply render_spec_prepared; [done|].
  rewrite prepared_resized by done. apply no_null_nil.
Qed.

(** The row elements once every row was rewritten. *)
Lemma sync_rows_repaint_children context buffer s :
  cols s ≠ Some (ctx_cols context) ∨ rows s ≠ Some (ctx_rows context) →
  (0 < ctx_cols context)%nat →
  children (sync_rows context buffer (ctx_cols context)
                      (seq 0 (ctx_rows context)) (prepared context s)) =
    (λ j, row_html (ctx_settings context) buffer (j * ctx_cols context)
                   (ctx_cols context)) <$> seq 0 (ctx_rows context).
Proof.
  intros Hdims Hn.
  set (n := ctx_cols context) in *. set (m := ctx_rows context) in *.
  assert (∀ j, j ∈ seq 0 m → (j < length (children (prepared context s)))%nat)
    as Hlen.
  { intros j Hj%elem_of_seq. rewrite prepared_children_length. fold m. lia. }
  pose proof (sync_rows_spec context buffer n (seq 0 m) (prepared context s)
                (NoDup_seq _ _) Hlen) as Hspec.
  cbv zeta in Hspec. destruct Hspec as (_ & _ & Hch & _).
  apply list_eq. intros j. rewrite Hch, list_lookup_fmap.
  rewrite prepared_resized by done.
  rewrite row_differs_empty_back by done.
  destruct (decide (j < m)%nat) as [Hj|Hj].
  - rewrite decide_True by (split; [apply elem_of_seq; lia|done]).
    by rewrite lookup_seq_lt.
  - rewrite decide_False by (intros [?%elem_of_seq _]; lia).
    rewrite lookup_seq_ge by lia.
    apply lookup_ge_None_2. rewrite prepared_children_length. fold m. lia.
Qed.

(** X7.  A resize repaints everything.  When the grid of the frame is
    not the one the renderer last drew (or it never drew), and the grid
    has a column, the element ends with exactly one row element per row
    of the grid, each holding the markup of its row of the frame, and
    the rows were written once each, first to last - whatever rows the
    element had and whatever the back buffer held. *)
Theorem render_resize_repaints (context : Context) (buffer : list value)
    (s : State) :
  let n := ctx_cols context in
  let m := ctx_rows context in
  (∀ idx, (idx < n * m)%nat → arr_get idx buffer ≠ VPrim PNull) →
  cols s ≠ Some n ∨ rows s ≠ Some m →
  (0 < n)%nat →
  ∃ s', render context buffer s = (Ok tt, s') ∧
        cols s' = Some n ∧ rows s' = Some m ∧
        children s' =
          (λ j, row_html (ctx_settings context) buffer (j * n) n) <$> seq 0 m ∧
        writes s' = reverse (seq 0 m) ++ writes s.
Proof.
  intros n m Hbuf Hdims Hn.
  exists (sync_rows context buffer n (seq 0 m) (prepared context s)).
  split; [by apply render_resized|].
  pose proof (sync_rows_dims context buffer n (seq 0 m) (prepared context s))
    as [Hc Hr].
  split_and!.
  - by rewrite Hc.
  - by rewrite Hr.
  - by apply sync_rows_repaint_children.
  - rewrite sync_rows_all_written; [done|apply NoDup_seq| |].
    + intros j Hj%elem_of_seq. rewrite prepared_children_length. fold m. lia.
    + intros j _. rewrite prepared_resized by done.
      by apply row_differs_empty_back.
Qed.

Lemma render_resize_repaints_witness :
  ∃ s', render ten_rows frame_a renderer_loaded = (Ok tt, s') ∧
        length (children s') = 10%nat ∧
        writes s' = reverse (seq 0 10).
Proof.
  destruct (render_resize_repaints ten_rows frame_a renderer_loaded)
    as (s' & Hr & _ & _ & Hch & Hw).
  - intros idx Hidx.
    do 10 (destruct idx as [|idx]; [discriminate|]). simpl in Hidx. lia.
  - left. discriminate.
  - simpl. lia.
  - exists s'. split; [exact Hr|]. split.
    + rewrite Hch. reflexivity.
    + rewrite Hw. reflexivity.
Defined.

(** X8.  A row that holds an entry which is not a cell object - a bare
    glyph, a number, a missing entry - is never skipped: it is rewritten
    by every call of [render], changed or not, since such an entry never
    compares equal to its back buffer copy. *)
Theorem render_non_object_row (context : Context) (buffer : list value)
    (s : State) (i j : nat) (g : prim) :
  let n := ctx_cols context in
  let m := ctx_rows context in
  (∀ idx, (idx < n * m)%nat → arr_get idx buffer ≠ VPrim PNull) →
  no_null (backBuffer s) →
  (i < n)%nat → (j < m)%nat →
  arr_get (i + j * n) buffer = VPrim g →
  ∃ s' written,
    render context buffer s = (Ok tt, s') ∧
    writes s' = written ++ writes s ∧ j ∈ written ∧
    children s' !! j = Some (row_html (ctx_settings context) buffer (j * n) n).
Proof.
  intros n m Hbuf Hnn Hi Hj Hcell. subst n m.
  set (n := ctx_cols context) in *. set (m := ctx_rows context) in *.
  assert (∀ j', j' ∈ seq 0 m → (j' < length (children (prepared context s)))%nat)
    as Hlen.
  { intros j' Hj'%elem_of_seq. rewrite prepared_children_length. fold m. lia. }
  pose proof (sync_rows_spec context buffer n (seq 0 m) (prepared context s)
                (NoDup_seq _ _) Hlen) as Hspec.
  cbv zeta in Hspec. destruct Hspec as (_ & (written & Hw & _ & Hin) & Hch & _).
  assert (row_differs buffer (backBuffer (prepared context s)) n j = true)
    as Hdiff.
  { apply row_differs_true. exists i. split; [done|]. by rewrite Hcell. }
  exists (sync_rows context buffer n (seq 0 m) (prepared context s)), written.
  split; [by apply render_spec|].
  split; [exact Hw|]. split.
  - apply Hin. split; [apply elem_of_seq; lia|done].
  - rewrite Hch. rewrite decide_True; [done|].
    split; [apply elem_of_seq; lia|done].
Qed.

Lemma render_non_object_row_witness :
  let buffer := [VPrim (PStr "A")] in
  let context := {| ctx_cols := 1; ctx_rows := 1;
                    ctx_settings := ctx_settings ten_rows |} in
  ∃ s' written,
    render context buffer renderer_loaded = (Ok tt, s') ∧
    writes s' = written ++ writes renderer_loaded ∧ 0%nat ∈ written.
Proof.
  intros buffer context.
  destruct (render_non_object_row context buffer renderer_loaded 0 0 (PStr "A"))
    as (s' & written & Hr & Hw & Hin & _).
  - intros idx Hidx. destruct idx as [|idx]; [discriminate|]. simpl in Hidx. lia.
  - intros idx. by destruct idx.
  - simpl. lia.
  - simpl. lia.
  - reflexivity.
  - exists s', written. split; [exact Hr|]. split; [exact Hw|exact Hin].
Defined.

(** *** The markup of a row *)

Lemma string_app_assoc (a b c : string) : (a +:+ b) +:+ c = a +:+ (b +:+ c).
Proof.
  induction a as [|x a IH]; [done|].
  change (String x ((a +:+ b) +:+ c) = String x (a +:+ (b +:+ c))).
  by rewrite IH.
Qed.

(** A plain cell in the style of the cell before it adds its glyph and
    nothing else. *)
Lemma markup_cell_same_style settings w c b v m :
  plain_cell w c b v →
  prop "fontWeight" (prevCell m) = w → prop "color" (prevCell m) = c →
  prop "backgroundColor" (prevCell m) = b →
  markup_cell settings v m =
    {| html := html m +:+ to_string (prop "char" v);
       prevCell := v; tagIsOpen := tagIsOpen m |}.
Proof.
  intros (o & -> & Hw & Hc & Hb & Hbegin & Hend) Hpw Hpc Hpb.
  unfold markup_cell. cbn [truthy_value negb prop].
  rewrite Hbegin, Hend. unfold isSameCellStyle. cbn [prop].
  rewrite Hw, Hc, Hb, Hpw, Hpc, Hpb.
  by rewrite !bool_decide_true by done.
Qed.

Lemma markup_run settings w c b buffer offs (columns : list nat) :
  ∀ m,
  (∀ i, i ∈ columns → plain_cell w c b (arr_get (i + offs) buffer)) →
  prop "fontWeight" (prevCell m) = w → prop "color" (prevCell m) = c →
  prop "backgroundColor" (prevCell m) = b →
  let m' := foldl (λ m i, markup_cell settings (arr_get (i + offs) buffer) m)
                  m columns in
  html m' = html m +:+ row_glyphs buffer offs columns ∧
  tagIsOpen m' = tagIsOpen m.
Proof.
  induction columns as [|i columns IH]; intros m Hcells Hpw Hpc Hpb.
  - cbn [foldl row_glyphs foldr]. split; [|done].
    clear. induction (html m) as [|x h IHh]; [done|].
    change (String x h = String x (h +:+ "")). by rewrite <-IHh.
  - cbn [foldl row_glyphs foldr].
    pose proof (Hcells i ltac:(left)) as Hcell.
    rewrite (markup_cell_same_style settings w c b _ m Hcell Hpw Hpc Hpb).
    destruct Hcell as (o & Ho & Hw & Hc & Hb & _).
    edestruct (IH {| html := html m +:+ to_string (prop "char" (arr_get (i + offs) buffer));
                     prevCell := arr_get (i + offs) buffer;
                     tagIsOpen := tagIsOpen m |}) as [Hhtml Hopen].
    + intros i' Hi'. apply Hcells. by right.
    + cbn [prevCell]. by rewrite Ho.
    + cbn [prevCell]. by rewrite Ho.
    + cbn [prevCell]. by rewrite Ho.
    + cbv zeta. rewrite Hhtml, Hopen. cbn [html tagIsOpen].
      by rewrite string_app_assoc.
Qed.

(** A row of plain cells without a style is its glyphs. *)
Lemma row_html_bare (settings : Settings) (buffer : list value) (offs n : nat) :
  (∀ i, (i < n)%nat →
     plain_cell PUndef PUndef PUndef (arr_get (i + offs) buffer)) →
  row_html settings buffer offs n = row_glyphs buffer offs (seq 0 n).
Proof.
  intros Hcells. unfold row_html.
  set (m0 := {| html := ""; prevCell := VObj ∅; tagIsOpen := false |}).
  edestruct (markup_run settings PUndef PUndef PUndef buffer offs (seq 0 n) m0)
    as [Hhtml Hopen]; [|done..|].
  { intros i Hi%elem_of_seq. apply Hcells. lia. }
  cbv zeta in Hhtml, Hopen. by rewrite Hopen, Hhtml.
Qed.

(** A row of plain cells in one style, which is not the empty one, is
    its glyphs in a [span]. *)
Lemma row_html_span (settings : Settings) (buffer : list value)
    (offs n : nat) (w c b : prim) :
  ¬ (w = PUndef ∧ c = PUndef ∧ b = PUndef) →
  (∀ i, (i < n)%nat → plain_cell w c b (arr_get (i + offs) buffer)) →
  (0 < n)%nat →
  row_html settings buffer offs n =
    span_open settings w c b +:+ row_glyphs buffer offs (seq 0 n) +:+ "</span>".
Proof.
  intros Hstyle Hcells Hn. unfold row_html.
  destruct n as [|n]; [lia|]. cbn [seq foldl row_glyphs foldr].
  assert (∀ i, i ∈ seq 1 n → plain_cell w c b (arr_get (i + offs) buffer))
    as Hrest.
  { intros i Hi%elem_of_seq. apply Hcells. lia. }
  destruct (Hcells 0%nat ltac:(lia)) as (o & Ho & Hw & Hc & Hb & Hbegin & Hend).
  set (m0 := {| html := ""; prevCell := VObj ∅; tagIsOpen := false |}).
  assert (markup_cell settings (arr_get (0 + offs) buffer) m0 =
            {| html := span_open settings w c b
                       +:+ to_string (prop "char" (arr_get (0 + offs) buffer));
               prevCell := arr_get (0 + offs) buffer;
               tagIsOpen := true |}) as ->.
  { assert (isSameCellStyle (VObj o) (prevCell m0) = false) as Hdiff.
    { unfold isSameCellStyle. cbn [prop m0 prevCell].
      rewrite Hw, Hc, Hb. unfold field. rewrite !lookup_empty.
      cbn [default from_option id].
      repeat case_bool_decide; try done. exfalso. by apply Hstyle. }
    rewrite Ho. unfold markup_cell. cbn [truthy_value negb prop].
    rewrite Hbegin, Hend, Hdiff. cbn [negb prop m0 tagIsOpen html prevCell].
    rewrite Hw, Hc, Hb. reflexivity. }
  edestruct (markup_run settings w c b buffer offs (seq 1 n)
               {| html := span_open settings w c b
                          +:+ to_string (prop "char" (arr_get (0 + offs) buffer));
                  prevCell := arr_get (0 + offs) buffer;
                  tagIsOpen := true |}) as [Hhtml Hopen];
    [done|cbn [prevCell]; by rewrite Ho..|].
  cbv zeta in Hhtml, Hopen. rewrite Hopen, Hhtml. cbn [html].
  by rewrite !string_app_assoc.
Qed.

(** X9.  A row of plain cells in one style is one run.  When every cell
    of a row is a cell object of the same weight, color and background
    and carries no raw markup, the markup of the row is the glyphs of
    its cells one after the other, inside a single [span] whose style
    attribute lists only what differs from the settings' defaults - or
    with no [span] at all when the three style fields are undefined. *)
Theorem row_html_uniform (settings : Settings) (buffer : list value)
    (offs n : nat) (w c b : prim) :
  (∀ i, (i < n)%nat → plain_cell w c b (arr_get (i + offs) buffer)) →
  (0 < n)%nat →
  row_html settings buffer offs n =
    if bool_decide (w = PUndef ∧ c = PUndef ∧ b = PUndef)
    then row_glyphs buffer offs (seq 0 n)
    else span_open settings w c b +:+ row_glyphs buffer offs (seq 0 n)
         +:+ "</span>".
Proof.
  intros Hcells Hn. case_bool_decide as Hstyle.
  - destruct Hstyle as (-> & -> & ->). by apply row_html_bare.
  - by apply row_html_span.
Qed.

Lemma row_html_uniform_witness :
  let settings := {| color := PStr "black"; backgroundColor := PUndef;
                     fontWeight := PUndef |} in
  let cell g := VObj {["char" := PStr g; "color" := PStr "red"]} in
  row_html settings [cell "a"; cell "b"] 0 2 =
    String.append "<span style=" (String "034" "color:red;")
      +:+ String "034" ">ab</span>".
Proof.
  intros settings cell.
  rewrite (row_html_uniform settings [cell "a"; cell "b"] 0 2
             PUndef (PStr "red") PUndef).
  - vm_compute. reflexivity.
  - intros i Hi. destruct i as [|[|i]]; [| |lia];
      (eexists; split; [reflexivity|]; by vm_compute).
  - lia.
Defined.

(** *** A [null] cell *)

Lemma isSameCell_cases (a b : value) (s : State) :
  (∃ r, isSameCell a b s = (Ok r, s)) ∨
  isSameCell a b s = (Throw "TypeError", s).
Proof.
  unfold isSameCell.
  destruct (typeof_object a); cbn [negb]; [|left; by eexists].
  destruct (typeof_object b); cbn [negb]; [|left; by eexists].
  destruct a as [p|a], b as [q|b]; try (by right).
  repeat (case_bool_decide; cbn [negb]; [|left; by eexists]).
  left. by eexists.
Qed.

Lemma isSameCell_hole (a : value) (s : State) :
  isSameCell a undefined s = (Ok false, s).
Proof. by destruct a as [[]|]. Qed.

(** The comparison of a row stops at a [null] cell whose back buffer
    entry is an object. *)
Lemma compare_cells_null buffer offs idx0 columns :
  arr_get idx0 buffer = VPrim PNull →
  ∀ flag s,
  (∃ o, arr_get idx0 (backBuffer s) = VObj o) →
  match compare_cells buffer offs columns flag s with
  | (Ok _, s') =>
      (∃ o, arr_get idx0 (backBuffer s') = VObj o) ∧
      ∀ i, i ∈ columns → (i + offs)%nat ≠ idx0
  | (Throw e, _) => e = "TypeError"
  end.
Proof.
  intros Hnull. induction columns as [|i columns IH]; intros flag s Hback.
  { cbn [compare_cells]. split; [done|]. by intros i Hi%elem_of_nil. }
  cbn [compare_cells]. unfold mbind, M_bind, gets.
  destruct (decide (i + offs = idx0)%nat) as [Heq|Hne].
  - rewrite Heq, Hnull. destruct Hback as [o ->]. done.
  - destruct (isSameCell_cases (arr_get (i + offs) buffer)
                (arr_get (i + offs) (backBuffer s)) s) as [[same ->]| ->];
      [|done].
    assert (∀ s1 flag1,
              (∃ o, arr_get idx0 (backBuffer s1) = VObj o) →
              match compare_cells buffer offs columns flag1 s1 with
              | (Ok _, s') =>
                  (∃ o, arr_get idx0 (backBuffer s') = VObj o) ∧
                  ∀ i', i' ∈ i :: columns → (i' + offs)%nat ≠ idx0
              | (Throw e, _) => e = "TypeError"
              end) as Hrest.
    { intros s1 flag1 Hs1. specialize (IH flag1 s1 Hs1).
      destruct (compare_cells buffer offs columns flag1 s1) as [[r|e] s'];
        [|done].
      destruct IH as [Hb Hcols]. split; [done|].
      intros i' [->|Hi']%elem_of_cons; [done|by apply Hcols]. }
    destruct same; cbn [negb].
    + by apply Hrest.
    + unfold modify. apply Hrest. cbn [set_backBuffer backBuffer].
      by rewrite arr_get_set_ne.
Qed.

Lemma render_row_null context buffer n idx0 j :
  arr_get idx0 buffer = VPrim PNull →
  ∀ s,
  (∃ o, arr_get idx0 (backBuffer s) = VObj o) →
  match render_row context buffer n j s with
  | (Ok _, s') =>
      (∃ o, arr_get idx0 (backBuffer s') = VObj o) ∧
      ∀ i, (i < n)%nat → (i + j * n)%nat ≠ idx0
  | (Throw e, _) => e = "TypeError"
  end.
Proof.
  intros Hnull s Hback. unfold render_row, mbind, M_bind.
  pose proof (compare_cells_null buffer (j * n) idx0 (seq 0 n) Hnull false s
                Hback) as Hrow.
  destruct (compare_cells buffer (j * n) (seq 0 n) false s) as [[flag|e] s1];
    [|done].
  destruct Hrow as [Hback1 Hcols].
  assert (∀ i, (i < n)%nat → (i + j * n)%nat ≠ idx0) as Hcols'.
  { intros i Hi. apply Hcols. apply elem_of_seq. lia. }
  destruct flag; cbn [negb]; [|done].
  unfold modify, write_row. by case_bool_decide.
Qed.

Lemma render_rows_null context buffer n idx0 js :
  arr_get idx0 buffer = VPrim PNull →
  ∀ s,
  (∃ o, arr_get idx0 (backBuffer s) = VObj o) →
  match for_each js (render_row context buffer n) s with
  | (Ok _, s') =>
      (∃ o, arr_get idx0 (backBuffer s') = VObj o) ∧
      ∀ i j, j ∈ js → (i < n)%nat → (i + j * n)%nat ≠ idx0
  | (Throw e, _) => e = "TypeError"
  end.
Proof.
  intros Hnull. induction js as [|j js IH]; intros s Hback.
  { cbn [for_each]. split; [done|]. by intros i j Hj%elem_of_nil. }
  cbn [for_each]. unfold mbind, M_bind.
  pose proof (render_row_null context buffer n idx0 j Hnull s Hback) as Hrow.
  destruct (render_row context buffer n j s) as [[[]|e] s1]; [|done].
  destruct Hrow as [Hback1 Hcols]. specialize (IH s1 Hback1).
  destruct (for_each js (render_row context buffer n) s1) as [[r|e] s2];
    [|done].
  destruct IH as [Hback2 Hrows]. split; [done|].
  intros i j' [->|Hj']%elem_of_cons Hi; [by apply Hcols|by apply Hrows].
Qed.

(** A repaint never throws, whatever the frame holds. *)
Lemma compare_cells_repaint buffer offs len :
  ∀ c flag s,
  repainted (c + offs) s →
  ∃ flag' s',
    compare_cells buffer offs (seq c len) flag s = (Ok flag', s') ∧
    repainted (c + len + offs) s' ∧
    cols s' = cols s ∧ rows s' = rows s.
Proof.
  induction len as [|len IH]; intros c flag s Hs.
  { exists flag, s. cbn [seq compare_cells]. split; [done|].
    by replace (c + 0 + offs)%nat with (c + offs)%nat by lia. }
  cbn [seq compare_cells]. unfold mbind, M_bind, gets, modify.
  destruct Hs as [Hbefore Hafter].
  rewrite (Hafter (c + offs)%nat) by lia. rewrite isSameCell_hole. cbn [negb].
  match goal with
  | |- context [compare_cells _ _ _ true ?s1] =>
      destruct (IH (S c) true s1) as (flag' & s' & Hcmp & Hs' & Hc & Hr)
  end.
  { unfold repainted. cbn [set_backBuffer backBuffer]. split.
    - intros idx Hidx. destruct (decide (idx = c + offs)%nat) as [->|Hne].
      + rewrite arr_get_set_eq. by eexists.
      + rewrite arr_get_set_ne by done. apply Hbefore. lia.
    - intros idx Hidx. rewrite arr_get_set_ne by lia. apply Hafter. lia. }
  exists flag', s'. split; [done|].
  replace (c + S len + offs)%nat with (S c + len + offs)%nat by lia.
  done.
Qed.

Lemma render_row_repaint context buffer n j s :
  repainted (j * n) s →
  ∃ s', render_row context buffer n j s = (Ok tt, s') ∧
        repainted (S j * n) s' ∧ cols s' = cols s ∧ rows s' = rows s.
Proof.
  intros Hs. unfold render_row, mbind, M_bind.
  destruct (compare_cells_repaint buffer (j * n) n 0 false s Hs)
    as (flag & s1 & -> & Hs1 & Hc1 & Hr1).
  replace (S j * n)%nat with (0 + n + j * n)%nat by lia.
  destruct flag; cbn [negb]; [|by exists s1].
  eexists. split; [done|]. unfold write_row, repainted in *.
  by case_bool_decide.
Qed.

Lemma render_rows_repaint context buffer n len :
  ∀ j s,
  repainted (j * n) s →
  ∃ s',
    for_each (seq j len) (render_row context buffer n) s = (Ok tt, s') ∧
    repainted ((j + len) * n) s' ∧ cols s' = cols s ∧ rows s' = rows s.
Proof.
  induction len as [|len IH]; intros j s Hs.
  { exists s. cbn [seq for_each]. split; [done|].
    by replace (j + 0)%nat with j by lia. }
  cbn [seq for_each]. unfold mbind, M_bind.
  destruct (render_row_repaint context buffer n j s Hs)
    as (s1 & -> & Hs1 & Hc1 & Hr1).
  destruct (IH (S j) s1 Hs1) as (s' & Hrows & Hs' & Hc & Hr).
  exists s'. split; [done|].
  replace ((j + S len) * n)%nat with ((S j + len) * n)%nat by lia.
  split; [done|]. split; congruence.
Qed.

Lemma render_repaint context buffer s :
  cols s ≠ Some (ctx_cols context) ∨ rows s ≠ Some (ctx_rows context) →
  ∃ s', render context buffer s = (Ok tt, s') ∧
        repainted (ctx_rows context * ctx_cols context) s' ∧
        cols s' = Some (ctx_cols context) ∧ rows s' = Some (ctx_rows context).
Proof.
  intros Hdims. unfold render, mbind, M_bind, modify, gets.
  assert (negb (bool_decide (Some (ctx_rows context) = rows s))
          || negb (bool_decide (Some (ctx_cols context) = cols s)) = true) as ->.
  { destruct Hdims as [Hc|Hr].
    - rewrite (bool_decide_false (Some (ctx_cols context) = cols s))
        by (intros Heq; by apply Hc).
      by rewrite orb_true_r.
    - by rewrite (bool_decide_false (Some (ctx_rows context) = rows s))
        by (intros Heq; by apply Hr). }
  cbn [backBuffer cols rows children writes default from_option id].
  match goal with
  | |- context [for_each _ _ ?s0] =>
      destruct (render_rows_repaint context buffer (ctx_cols context)
                  (ctx_rows context) 0 s0) as (s' & Hrows & Hs' & Hc & Hr)
  end.
  { split; [lia|]. intros idx _. cbn [backBuffer].
    unfold arr_get. by rewrite lookup_nil. }
  exists s'. split; [done|]. done.
Qed.

(** Without a resize, a [null] cell of the grid whose back buffer
    entry is an object makes [render] throw. *)
Lemma render_null_throws context buffer s idx0 :
  cols s = Some (ctx_cols context) → rows s = Some (ctx_rows context) →
  (idx0 < ctx_cols context * ctx_rows context)%nat →
  arr_get idx0 buffer = VPrim PNull →
  (∃ o, arr_get idx0 (backBuffer s) = VObj o) →
  ∃ s', render context buffer s = (Throw "TypeError", s').
Proof.
  intros Hc Hr Hidx Hnull Hback.
  unfold render, mbind, M_bind, modify, gets.
  rewrite Hc, Hr, !bool_decide_true by done.
  cbn [negb orb backBuffer cols rows children writes default from_option id].
  rewrite ?Hc, ?Hr. cbn [default from_option id].
  match goal with
  | |- context [for_each ?js ?body ?s0] =>
      pose proof (render_rows_null context buffer (ctx_cols context) idx0 js
                    Hnull s0 Hback) as Hrows;
      destruct (for_each js body s0) as [[r|e] s2]
  end.
  - exfalso. destruct Hrows as [_ Hrows].
    assert (0 < ctx_cols context)%nat as Hn by lia.
    apply (Hrows (idx0 `mod` ctx_cols context)%nat
                 (idx0 `div` ctx_cols context)%nat).
    + apply elem_of_seq. split; [lia|].
      apply Nat.Div0.div_lt_upper_bound. lia.
    + apply Nat.mod_upper_bound. lia.
    + pose proof (Nat.div_mod_eq idx0 (ctx_cols context)). lia.
  - exists s2. by rewrite Hrows.
Qed.

(** X10.  A [null] cell passes once.  A frame that holds [null] at an
    entry of the grid is drawn without an error when the renderer
    repaints (on its first call and after a resize), the [null] cell
    being left out of the markup; the next call of [render] on that
    frame throws a [TypeError], as the comparison with the back buffer
    reads a property of [null]. *)
Theorem render_null_cell (context : Context) (buffer : list value)
    (s : State) (idx0 : nat) :
  cols s ≠ Some (ctx_cols context) ∨ rows s ≠ Some (ctx_rows context) →
  (idx0 < ctx_cols context * ctx_rows context)%nat →
  arr_get idx0 buffer = VPrim PNull →
  ∃ s1 s2, render context buffer s = (Ok tt, s1) ∧
           render context buffer s1 = (Throw "TypeError", s2).
Proof.
  intros Hdims Hidx Hnull.
  destruct (render_repaint context buffer s Hdims)
    as (s1 & Hr1 & [Hobjects _] & Hc & Hr).
  destruct (render_null_throws context buffer s1 idx0 Hc Hr Hidx Hnull)
    as [s2 Hr2]; [apply Hobjects; lia|].
  by exists s1, s2.
Qed.

Lemma render_null_cell_witness :
  ∃ s1 s2, render two_rows frame_null renderer_loaded = (Ok tt, s1) ∧
           render two_rows frame_null s1 = (Throw "TypeError", s2).
Proof.
  apply (render_null_cell two_rows frame_null renderer_loaded 1).
  - by left.
  - simpl. lia.
  - reflexivity.
Defined.

End TextRendererMore.

(** ** More of the scheduler *)

Section RunMore.
Import Run.
Context {Vars RS FPS : Type} (fps_update : Q → FPS → FPS) (fps_fps : FPS → Q).
Local Abbreviation World := (Run.World (Vars := Vars) (RS := RS) (FPS := FPS)).
Local Abbreviation Idle := (idle (Vars := Vars) (RS := RS) (FPS := FPS)).

(** *** The loop over the cells *)

(** The cell [apply_main] writes depends on what the cell held and on
    nothing else of the buffer. *)
Lemma apply_main_get_congr idx out (b b' : list value) :
  arr_get idx b = arr_get idx b' →
  arr_get idx (apply_main idx out b) = arr_get idx (apply_main idx out b').
Proof. intros Heq. by rewrite !apply_main_cell, Heq. Qed.

Lemma apply_main_get_ne idx out (b : list value) k :
  k ≠ idx → arr_get k (apply_main idx out b) = arr_get k b.
Proof. intros Hk. unfold apply_main. by rewrite arr_get_set_ne. Qed.

Lemma with_buffer_id (w : World) : with_buffer (buffer w) w = w.
Proof. by destruct w. Qed.

Lemma with_buffer_twice (b b' : list value) (w : World) :
  with_buffer b' (with_buffer b w) = with_buffer b' w.
Proof. done. Qed.

(** A loop whose body only rewrites the buffer is a fold. *)
Lemma for_each_buffer {A} (g : A → list value → list value) (l : list A)
    (body : A → M World unit) :
  (∀ a w, body a w = (Ok tt, with_buffer (g a (buffer w)) w)) →
  ∀ w, for_each l body w =
         (Ok tt, with_buffer (foldl (λ b a, g a b) (buffer w) l) w).
Proof.
  intros Hbody. induction l as [|a l IH]; intros w.
  - cbn [for_each foldl]. by rewrite with_buffer_id.
  - cbn [for_each foldl]. unfold mbind, M_bind. rewrite Hbody, IH.
    by rewrite with_buffer_twice.
Qed.

Section PureMain.
Variables (f : Coordinate → Context → Cursor → value)
          (context : Context) (cursor : Cursor).
Local Abbreviation n := (ctx_cols context).
Local Abbreviation cell := (written_cell f context cursor).

Lemma main_cell_pure (j i : nat) (w : World) :
  main_cell (λ coord context cursor, mret (f coord context cursor))
            context cursor j i w =
    (Ok tt, with_buffer (cell j i (buffer w)) w).
Proof. by destruct w. Qed.

Lemma get_row_cells (j c : nat) (b : list value) (k : nat) :
  arr_get k (foldl (λ b i, cell j i b) b (seq 0 c)) =
    if decide (j * n ≤ k < j * n + c)%nat
    then arr_get k (cell j (k - j * n) b)
    else arr_get k b.
Proof.
  induction c as [|c IH].
  - cbn [seq foldl]. case_decide; [lia|done].
  - rewrite seq_S, foldl_app. cbn [foldl Nat.add].
    destruct (decide (k = c + j * n)%nat) as [->|Hk].
    + rewrite decide_True by lia.
      replace (c + j * n - j * n)%nat with c by lia.
      unfold cell at 1 3. apply apply_main_get_congr.
      rewrite IH. rewrite decide_False by lia. done.
    + unfold cell at 1. rewrite apply_main_get_ne by done. rewrite IH.
      repeat case_decide; try done; lia.
Qed.

Lemma get_grid_cells (r : nat) (b : list value) :
  let b' := foldl (λ b j, foldl (λ b i, cell j i b) b (seq 0 n)) b (seq 0 r) in
  (∀ i j, (i < n)%nat → (j < r)%nat →
     arr_get (i + j * n) b' = arr_get (i + j * n) (cell j i b)) ∧
  (∀ k, (r * n ≤ k)%nat → arr_get k b' = arr_get k b).
Proof.
  induction r as [|r [IHin IHout]]; cbv zeta.
  - cbn [seq foldl]. split; [lia|done].
  - rewrite seq_S, foldl_app. cbn [foldl Nat.add]. split.
    + intros i j Hi Hj. rewrite get_row_cells.
      destruct (decide (j = r)) as [->|Hjr].
      * rewrite decide_True by lia.
        replace (i + r * n - r * n)%nat with i by lia.
        unfold cell. apply apply_main_get_congr. apply IHout. lia.
      * rewrite decide_False by nia. apply IHin; lia.
    + intros k Hk. rewrite get_row_cells.
      rewrite decide_False by lia. apply IHout. lia.
Qed.

(** The loop over the cells, for a [main] that only computes. *)
Lemma main_phase_pure (w : World) :
  for_each (seq 0 (ctx_rows context)) (λ j,
    for_each (seq 0 n) (λ i,
      main_cell (λ coord context cursor, mret (f coord context cursor))
                context cursor j i)) w
    = (Ok tt,
       with_buffer
         (foldl (λ b j, foldl (λ b i, cell j i b) b (seq 0 n))
                (buffer w) (seq 0 (ctx_rows context))) w).
Proof.
  apply (for_each_buffer (λ j b, foldl (λ b i, cell j i b) b (seq 0 n))).
  intros j w1.
  by rewrite (for_each_buffer (cell j) _ _ (main_cell_pure j)).
Qed.


End PureMain.

(** *** A renderer that does not fit the element *)

Lemma steps_no_renderer program settings context cursor (rs : RS) p :
  triple (Idle rs p) (steps program settings context cursor)
         (λ _ _, False) (Idle rs p).
Proof.
  unfold steps.
  apply (triple_bind _ _ _ _ (λ _, Idle rs p)).
  { apply triple_modify. intros w Hw. unfold normalize_buffer.
    by destruct (_ || _). }
  intros [].
  apply (triple_bind _ _ _ _ (λ _, Idle rs p)).
  { destruct (pre program) as [h|]; [|by apply triple_ret].
    by apply call_triple. }
  intros [].
  apply (triple_bind _ _ _ _ (λ _, Idle rs p)).
  { destruct (main program) as [h|]; [|by apply triple_ret].
    apply triple_for_each. intros j _. apply triple_for_each. intros i _.
    by apply main_cell_triple. }
  intros [].
  apply (triple_bind _ _ _ _ (λ _, Idle rs p)).
  { destruct (post program) as [h|]; [|by apply triple_ret].
    by apply call_triple. }
  intros [].
  apply (triple_bind _ _ _ _ (λ r w, Idle rs p w ∧ r = None)).
  { apply triple_gets. intros w Hw. split; [done|apply Hw]. }
  intros r.
  apply (triple_bind _ _ _ _ (λ _ _, False)).
  - destruct r as [r|].
    + intros w [_ ?]. done.
    + apply triple_throw. by intros w [? _].
  - intros [] w [].
Qed.

Lemma loop_no_renderer program settings t w :
  renderer w = None →
  ¬ fps settings == 0 →
  1000 / fps settings <= t - timeSample w →
  ∃ e w', loop fps_update fps_fps program settings t w = (Throw e, w') ∧
          Idle (renderer_state w) (promise w) w' ∧
          requested w' = requested w.
Proof.
  intros Hr Hfps Hle.
  destruct (loop fps_update fps_fps program settings t w) as [r w'] eqn:Hloop.
  pose proof (loop_accept_chassis fps_update fps_fps _ _ _ _ _ _ Hfps Hle Hloop)
    as (_ & _ & _ & _ & _ & Hreq & _).
  destruct (grid_is_number settings w) eqn:Hgrid.
  - rewrite loop_accept in Hloop by done. cbv zeta in Hloop.
    match type of Hloop with
    | steps ?p ?s ?c ?cur ?w0 = _ =>
        pose proof (steps_no_renderer p s c cur (renderer_state w) (promise w)
                      w0) as Hsteps
    end.
    rewrite Hloop in Hsteps. destruct r as [[]|e].
    + destruct Hsteps. done.
    + exists e, w'. split; [done|]. split; [by apply Hsteps|done].
  - rewrite loop_no_grid in Hloop by done. injection Hloop as <- <-.
    eexists _, _. split; [done|]. split; [done|]. by rewrite Hreq.
Qed.

Lemma run_renderer renderers settings (w0 : World) :
  let w := run renderers settings w0 in
  renderer w = choose_renderer renderers settings ∧
  renderer_state w = renderer_state w0 ∧ promise w = Pending ∧
  requested w = requested w0 ∧ stored w = stored w0.
Proof. done. Qed.

Lemma fonts_ready_keeps program settings measured (w : World) :
  let w' := snd (fonts_ready fps_fps program settings measured w) in
  renderer w' = renderer w ∧ renderer_state w' = renderer_state w ∧
  promise w' = promise w ∧ state w' = state w ∧ metrics w' = measured ∧
  requested w' =
    match fst (fonts_ready fps_fps program settings measured w) with
    | None => S (requested w)
    | Some _ => requested w
    end.
Proof.
  unfold fonts_ready, boot_once, mbind, M_bind, modify, gets,
    requestAnimationFrame.
  destruct (boot program) as [h|]; [|done].
  unfold call, lift. cbn [buffer variables].
  by destruct (h _ _) as [[[]|e] bv].
Qed.

Lemma animation_frame_idle program settings t width height rs p (w : World) :
  Idle rs p w →
  Idle rs p
    (snd (animation_frame fps_update fps_fps program settings t width height w)).
Proof.
  intros Hw. unfold animation_frame.
  destruct (requested w) as [|k]; [done|].
  set (w0 := {| state := state w; requested := k |}).
  assert (Idle rs p w0) as Hw0 by done.
  destruct (gate_cases settings (t - timeSample w0)) as [Hearly|[Hfps Hle]].
  - rewrite loop_skip by done. by destruct (once settings).
  - destruct Hw0 as (Hr & Hrs & Hp).
    destruct (loop_no_renderer program settings t w0 Hr Hfps Hle)
      as (e & w' & -> & Hidle & _).
    by rewrite Hrs, Hp in Hidle.
Qed.

(** X12.  An element that does not fit the renderer is never drawn to.
    When the text renderer is asked for on a canvas element, or the
    canvas renderer on another element, [run] only prints a warning and
    pairs no renderer with the element.  Every frame the time gate
    accepts then throws - where the missing renderer is called, after
    the hooks have run, if not before - without a request for the next
    frame; and from [run] on, through [boot] and any
    animation frames, the renderer's state is never touched and the
    promise stays pending. *)
Theorem unfit_element_never_draws renderers program settings :
  unfit settings →
  (∀ t (w : World),
     renderer w = None →
     ¬ fps settings == 0 → 1000 / fps settings <= t - timeSample w →
     ∃ e w', loop fps_update fps_fps program settings t w = (Throw e, w') ∧
             requested w' = requested w) ∧
  (∀ (w0 : World) measured width height ts,
     let w1 := snd (fonts_ready fps_fps program settings measured
                      (run renderers settings w0)) in
     let w2 := snd (animation_frames fps_update fps_fps program settings
                      width height ts w1) in
     renderer w2 = None ∧ renderer_state w2 = renderer_state w0 ∧
     promise w2 = Pending).
Proof.
  intros Hunfit. split.
  - intros t w Hr Hfps Hle.
    destruct (loop_no_renderer program settings t w Hr Hfps Hle)
      as (e & w' & Hloop & _ & Hreq).
    by exists e, w'.
  - intros w0 measured width height ts w1.
    assert (Idle (renderer_state w0) Pending w1) as Hw1.
    { pose proof (fonts_ready_keeps program settings measured
                    (run renderers settings w0)) as (Hr & Hrs & Hp & _).
      fold w1 in Hr, Hrs, Hp.
      destruct (run_renderer renderers settings w0) as (Hr0 & Hrs0 & Hp0 & _).
      unfold idle. rewrite Hr, Hrs, Hp, Hr0, Hrs0, Hp0.
      split; [|done]. unfold choose_renderer.
      by destruct Hunfit as [[-> ->]|[-> ->]]. }
    clearbody w1. cbv zeta. revert w1 Hw1.
    induction ts as [|t ts IH]; intros w1 Hw1; [done|].
    cbn [animation_frames].
    pose proof (animation_frame_idle program settings t width height _ _ w1 Hw1)
      as Hstep.
    destruct (animation_frame _ _ _ _ _ _ _ w1) as [e w'].
    specialize (IH w' Hstep).
    by destruct (animation_frames _ _ _ _ _ _ ts w') as [es w''].
Qed.

(** *** The promise *)

Lemma animation_frame_promise program settings t width height (w : World) :
  let w' :=
    snd (animation_frame fps_update fps_fps program settings t width height w) in
  (frame (state w) ≤ frame (state w'))%Z ∧
  match promise w with
  | Pending =>
      promise w' = Pending ∨
      ∃ c, promise w' = Resolved c ∧ ctx_frame c = frame (state w) ∧
           frame (state w') = (frame (state w) + 1)%Z
  | p => promise w' = p
  end.
Proof.
  unfold animation_frame.
  destruct (requested w) as [|k].
  { cbn [snd]. split; [lia|]. destruct (promise w); auto. }
  set (w0 := {| state := state w; requested := k |}).
  change (state w) with (state w0). change (promise w) with (promise w0).
  clearbody w0.
  destruct (gate_cases settings (t - timeSample w0)) as [Hearly|[Hfps Hle]].
  - rewrite loop_skip by done. cbn [snd].
    assert (state (if once settings then w0 else request w0) = state w0 ∧
            promise (if once settings then w0 else request w0) = promise w0)
      as [-> ->] by (by destruct (once settings)).
    split; [lia|]. destruct (promise w0); auto.
  - destruct (loop fps_update fps_fps program settings t w0) as [r w'] eqn:Hloop.
    pose proof (loop_accept_chassis fps_update fps_fps _ _ _ _ _ _ Hfps Hle Hloop)
      as (Hstate & _ & _ & _ & _ & _ & Hpromise).
    assert (snd match r with
                | Ok _ => (None, w')
                | Throw e => (Some e, w')
                end = w') as -> by (by destruct r).
    rewrite Hstate, Hpromise. cbn [state store_pointer timing_update frame].
    split; [lia|].
    destruct r as [[]|e], (promise w0); auto.
    right. eexists. split; [done|]. split; [done|lia].
Qed.

(** X13.  The promise of [run] settles at most once, and never by a
    rejection.  Through any animation frames the frame counter never
    decreases; a promise that is settled stays as it is; and a pending
    promise is either still pending afterwards or resolved with the
    context of a frame that completed, whose frame number is the value
    of the frame counter before that frame - at least the counter at
    the start, and strictly behind the counter at the end. *)
Theorem promise_settles_once program settings width height ts :
  ∀ w : World,
  let w' := snd (animation_frames fps_update fps_fps program settings
                   width height ts w) in
  (frame (state w) ≤ frame (state w'))%Z ∧
  match promise w with
  | Pending =>
      promise w' = Pending ∨
      ∃ c, promise w' = Resolved c ∧
           (frame (state w) ≤ ctx_frame c < frame (state w'))%Z
  | p => promise w' = p
  end.
Proof.
  induction ts as [|t ts IH]; intros w; cbv zeta.
  - cbn [animation_frames snd]. split; [lia|]. destruct (promise w); auto.
  - cbn [animation_frames].
    pose proof (animation_frame_promise program settings t width height w)
      as [Hmono Hstep]. cbv zeta in Hmono, Hstep.
    destruct (animation_frame _ _ _ _ _ _ _ w) as [e w1].
    specialize (IH w1). cbv zeta in IH. destruct IH as [Hmono' Hrest].
    destruct (animation_frames _ _ _ _ _ _ ts w1) as [es w2].
    cbn [snd] in *. split; [lia|].
    destruct (promise w) as [|c|e0].
    + destruct Hstep as [Hp|(c & Hp & Hc & Hf)]; rewrite Hp in Hrest.
      * destruct Hrest as [?|(c & ? & ?)]; [by left|].
        right. exists c. split; [done|lia].
      * right. exists c. split; [done|lia].
    + by rewrite Hstep in Hrest.
    + by rewrite Hstep in Hrest.
Qed.

(** *** The frame rate *)

(** One animation frame: either the frame counter and the time sample
    stay, or the counter advances by one and the sample by an interval
    at least, without passing the timestamp. *)
Lemma animation_frame_cap program settings t width height (w : World) :
  0 < fps settings →
  let w' :=
    snd (animation_frame fps_update fps_fps program settings t width height w) in
  (timeSample w' = timeSample w ∧ frame (state w') = frame (state w)) ∨
  (frame (state w') = (frame (state w) + 1)%Z ∧
   timeSample w + 1000 / fps settings <= timeSample w' ∧ timeSample w' <= t).
Proof.
  intros Hfps.
  assert (0 < 1000 / fps settings) as Hint.
  { apply Qlt_shift_div_l; [done|]. by rewrite Qmult_0_l. }
  unfold animation_frame.
  destruct (requested w) as [|k]; [by left|].
  set (w0 := {| state := state w; requested := k |}).
  change (state w) with (state w0). change (timeSample w) with (timeSample w0).
  clearbody w0.
  assert (¬ fps settings == 0) as Hrate.
  { intros H0. rewrite H0 in Hfps. by apply Qlt_irrefl in Hfps. }
  destruct (Qlt_le_dec (t - timeSample w0) (1000 / fps settings)) as [Hlt|Hle].
  - rewrite loop_skip by (by right). left. by destruct (once settings).
  - right.
    destruct (loop fps_update fps_fps program settings t w0) as [r w'] eqn:Hloop.
    pose proof (loop_accept_chassis fps_update fps_fps _ _ _ _ _ _ Hrate Hle Hloop)
      as (Hstate & Hsample & _).
    assert (snd match r with
                | Ok _ => (None, w')
                | Throw e => (Some e, w')
                end = w') as -> by (by destruct r).
    rewrite Hstate, Hsample.
    cbn [state timeSample store_pointer timing_update frame].
    destruct (js_rem_spec _ _ Hint Hle) as [[Hrem0 Hrem1] (j & Hj & Hwhole)].
    split; [done|].
    assert (1 <= inject_Z j) as Hj'.
    { change 1 with (inject_Z 1). by rewrite <-Zle_Qle. }
    set (rem := js_rem (t - timeSample w0) (1000 / fps settings)) in *.
    set (interval := 1000 / fps settings) in *.
    split; [|lra].
    assert (interval <= inject_Z j * interval) by nra.
    lra.
Qed.

(** X14.  The frame rate is capped.  Whatever timestamps the animation
    frames come with, and however many there are, the loop body runs at
    most once per interval of [1000 / fps] milliseconds: up to a time
    [T] that the timestamps do not pass, the frame counter advances by
    at most [(T - timeSample) / interval], and the time sample never
    passes [T]. *)
Theorem frame_rate_capped program settings width height ts (T : Q) :
  ∀ w : World,
  0 < fps settings →
  timeSample w <= T →
  (∀ t, t ∈ ts → t <= T) →
  let w' := snd (animation_frames fps_update fps_fps program settings
                   width height ts w) in
  inject_Z (frame (state w') - frame (state w)) * (1000 / fps settings)
    <= timeSample w' - timeSample w ∧
  timeSample w' <= T.
Proof.
  induction ts as [|t ts IH]; intros w Hfps Hsample Hts; cbv zeta.
  - cbn [animation_frames snd]. rewrite Z.sub_diag. split; [|done].
    change (inject_Z 0) with 0. set (interval := 1000 / fps settings). lra.
  - cbn [animation_frames].
    pose proof (animation_frame_cap program settings t width height w Hfps)
      as Hstep. cbv zeta in Hstep.
    assert (t <= T) as Ht by (apply Hts; left).
    destruct (animation_frame _ _ _ _ _ _ _ w) as [e w1]. cbn [snd] in Hstep.
    assert (timeSample w1 <= T) as Hsample1.
    { destruct Hstep as [[-> _]|(_ & _ & Hle)]; [done|lra]. }
    specialize (IH w1 Hfps Hsample1 ltac:(intros t' Ht'; apply Hts; by right)).
    cbv zeta in IH. destruct IH as [IHrate IHsample].
    destruct (animation_frames _ _ _ _ _ _ ts w1) as [es w2].
    cbn [snd] in *. split; [|done].
    destruct Hstep as [[Hs Hf]|(Hf & Hadv & _)].
    + by rewrite <-Hs, <-Hf.
    + replace (frame (state w2) - frame (state w))%Z
        with ((frame (state w2) - frame (state w1)) + 1)%Z by lia.
      rewrite inject_Z_plus. change (inject_Z 1) with 1.
      set (k := inject_Z (frame (state w2) - frame (state w1))) in *.
      set (interval := 1000 / fps settings) in *.
      lra.
Qed.

(** *** Once mode and [boot] *)

Lemma animation_frames_none_requested program settings width height ts
    (w : World) :
  requested w = 0%nat →
  animation_frames fps_update fps_fps program settings width height ts w
    = ([], w).
Proof.
  intros Hreq. induction ts as [|t ts IH]; [done|].
  cbn [animation_frames]. unfold animation_frame. rewrite Hreq.
  by rewrite IH.
Qed.

(** X15.  In once mode the loop body runs at most once.  With one
    animation frame requested (as [boot] leaves it), only the first
    animation frame served matters: whether the time gate skips it or
    accepts it, and whether the frame completes or throws, no further
    frame is requested, so the animation frames after it change
    nothing; the frame counter advances by one at most. *)
Theorem once_runs_one_frame program settings width height t ts (w : World) :
  once settings = true →
  requested w = 1%nat →
  let first :=
    animation_frame fps_update fps_fps program settings t width height w in
  animation_frames fps_update fps_fps program settings width height (t :: ts) w
    = (option_list (fst first), snd first) ∧
  requested (snd first) = 0%nat ∧
  (frame (state w) ≤ frame (state (snd first)) ≤ frame (state w) + 1)%Z.
Proof.
  intros Honce Hreq first.
  assert (requested (snd first) = 0%nat ∧
          (frame (state w) ≤ frame (state (snd first)) ≤ frame (state w) + 1)%Z)
    as [Hnone Hframe].
  { unfold first, animation_frame. rewrite Hreq.
    set (w0 := {| state := state w; requested := 0 |}).
    change (state w) with (state w0).
    assert (requested w0 = 0%nat) as Hreq0 by done. clearbody w0.
    destruct (gate_cases settings (t - timeSample w0)) as [Hearly|[Hfps Hle]].
    - rewrite loop_skip by done. rewrite Honce. cbn [snd]. split; [done|lia].
    - destruct (loop fps_update fps_fps program settings t w0) as [r w'] eqn:Hloop.
      pose proof (loop_accept_chassis fps_update fps_fps _ _ _ _ _ _ Hfps Hle Hloop)
        as (Hstate & _ & _ & _ & _ & Hrequested & _).
      rewrite Honce, Hreq0 in Hrequested.
      assert (snd match r with
                  | Ok _ => (None, w')
                  | Throw e => (Some e, w')
                  end = w') as -> by (by destruct r).
      rewrite Hstate. cbn [state store_pointer timing_update frame].
      split; [by destruct r|lia]. }
  split; [|done].
  cbn [animation_frames]. fold first. destruct first as [e w1].
  cbn [snd fst] in *.
  rewrite animation_frames_none_requested by done.
  by rewrite app_nil_r.
Qed.

(** X16.  [boot] requests the first frame only if the program's [boot]
    hook returns.  When the hook throws, nothing is requested, and the
    promise is left pending rather than rejected: with no frame
    requested before, no animation frame ever reaches the loop.  When
    it returns, or there is none, exactly one frame is requested.
    Either way the metrics are those measured at that time. *)
Theorem boot_requests_first_frame program settings measured (w : World) :
  let booted := fonts_ready fps_fps program settings measured w in
  metrics (snd booted) = measured ∧
  promise (snd booted) = promise w ∧
  state (snd booted) = state w ∧
  match fst booted with
  | None => requested (snd booted) = S (requested w)
  | Some e =>
      (∃ h, boot program = Some h) ∧
      requested (snd booted) = requested w ∧
      (requested w = 0%nat →
       ∀ width height ts,
         animation_frames fps_update fps_fps program settings width height ts
                          (snd booted) = ([], snd booted))
  end.
Proof.
  intros booted.
  pose proof (fonts_ready_keeps program settings measured w)
    as (_ & _ & Hp & Hs & Hm & Hreq).
  fold booted in Hp, Hs, Hm, Hreq.
  split; [done|]. split; [done|]. split; [done|].
  destruct (fst booted) as [e|] eqn:He; [|done].
  split; [|split; [done|]].
  - unfold booted, fonts_ready, boot_once, mbind, M_bind, modify, gets,
      requestAnimationFrame in He.
    destruct (boot program) as [h|]; [by exists h|done].
  - intros Hnone width height ts.
    apply animation_frames_none_requested. by rewrite Hreq.
Qed.

(** *** The size of the grid *)

Lemma dimension_setting (setting : nat) (size metric : Q) :
  setting ≠ 0%nat → dimension setting size metric = Some setting.
Proof. intros Hs. unfold dimension. by rewrite bool_decide_false. Qed.

Lemma dimension_auto (size metric : Q) :
  0 < metric → 0 <= size →
  dimension 0 size metric = Some (Z.to_nat (Qfloor (size / metric))).
Proof.
  intros Hmetric Hsize. unfold dimension. cbn [bool_decide decide_rel].
  rewrite bool_decide_true by done. rewrite js_div_positive by done.
  destruct (Qlt_le_dec (size / metric) 0) as [Hneg|_]; [|done].
  exfalso. apply (Qlt_not_le _ _ Hneg).
  apply Qle_shift_div_l; [done|]. by rewrite Qmult_0_l.
Qed.

(** X17.  The grid follows the settings, or else the element.  A
    number of columns (rows) other than 0 in the settings is the number
    of columns (rows) of the context, whatever the size of the element.
    With 0, the number is the largest number of cells that fit in the
    width (height) of the element: that many cells fit, and one more
    does not. *)
Theorem getContext_grid settings (w : World) :
  let context := getContext fps_fps settings w in
  let fits (k : nat) (size cell : Q) :=
    inject_Z (Z.of_nat k) * cell <= size ∧
    size < (inject_Z (Z.of_nat k) + 1) * cell in
  ctx_width context = rect_width w ∧ ctx_height context = rect_height w ∧
  (cols settings ≠ 0%nat → ctx_cols context = cols settings) ∧
  (rows settings ≠ 0%nat → ctx_rows context = rows settings) ∧
  (cols settings = 0%nat → 0 < cellWidth (metrics w) → 0 <= rect_width w →
   fits (ctx_cols context) (rect_width w) (cellWidth (metrics w))) ∧
  (rows settings = 0%nat → 0 < lineHeight (metrics w) → 0 <= rect_height w →
   fits (ctx_rows context) (rect_height w) (lineHeight (metrics w))).
Proof.
  assert (∀ size cell : Q, 0 < cell → 0 <= size →
            inject_Z (Z.of_nat (Z.to_nat (Qfloor (size / cell)))) * cell <= size ∧
            size < (inject_Z (Z.of_nat (Z.to_nat (Qfloor (size / cell)))) + 1)
                   * cell) as Hfits.
  { intros size cell Hcell Hsize.
    set (q := size / cell).
    assert (size == q * cell) as Hq.
    { unfold q. field. intros H0. rewrite H0 in Hcell.
      by apply Qlt_irrefl in Hcell. }
    assert (0 <= q) as Hq0.
    { unfold q. apply Qle_shift_div_l; [done|]. by rewrite Qmult_0_l. }
    assert (0 ≤ Qfloor q)%Z as Hfloor0.
    { change 0%Z with (Qfloor 0). by apply Qfloor_resp_le. }
    rewrite Z2Nat.id by done.
    pose proof (Qfloor_le q) as Hfl.
    pose proof (Qlt_floor q) as Hfu.
    rewrite inject_Z_plus in Hfu. change (inject_Z 1) with 1 in Hfu.
    split; rewrite Hq at 1; nra. }
  intros context fits. unfold context, getContext.
  cbn [ctx_width ctx_height ctx_cols ctx_rows].
  split; [done|]. split; [done|].
  split; [|split; [|split]].
  - intros Hc. by rewrite dimension_setting.
  - intros Hr. by rewrite dimension_setting.
  - intros Hc Hcell Hsize. rewrite Hc, dimension_auto by done. by apply Hfits.
  - intros Hr Hcell Hsize. rewrite Hr, dimension_auto by done. by apply Hfits.
Qed.

End RunMore.

(** *** The order of the calls *)

Section Trace.
Import Run.
Context {RS FPS : Type} (fps_update : Q → FPS → FPS) (fps_fps : FPS → Q).
Local Abbreviation World :=
  (Run.World (Vars := list Event) (RS := RS) (FPS := FPS)).

(** A loop whose body never throws is a fold. *)
Lemma for_each_fold {S A} (g : A → S → S) (l : list A) (body : A → M S unit) :
  (∀ a s, body a s = (Ok tt, g a s)) →
  ∀ s, for_each l body s = (Ok tt, foldl (λ s a, g a s) s l).
Proof.
  intros Hbody. induction l as [|a l IH]; intros s; [done|].
  cbn [for_each foldl]. unfold mbind, M_bind. by rewrite Hbody, IH.
Qed.

Lemma foldl_variables {A} (g : A → World → World) (ev : A → list Event)
    (l : list A) :
  (∀ a w, variables (g a w) = variables w ++ ev a) →
  ∀ w, variables (foldl (λ w a, g a w) w l) = variables w ++ (l ≫= ev).
Proof.
  intros Hg. induction l as [|a l IH]; intros w.
  - cbn [foldl]. by rewrite app_nil_r.
  - cbn [foldl]. rewrite IH, Hg, bind_cons. by rewrite <-(assoc_L (++)).
Qed.

(** The loop over the cells, for the tracer. *)
Lemma main_phase_trace h context cursor (w : World) :
  main tracer = Some h →
  ∃ w', for_each (seq 0 (ctx_rows context)) (λ j,
          for_each (seq 0 (ctx_cols context)) (λ i,
            main_cell h context cursor j i)) w = (Ok tt, w') ∧
        variables w' =
          variables w
          ++ (seq 0 (ctx_rows context) ≫= λ j,
                (λ i, EvMain i j (i + j * ctx_cols context))
                  <$> seq 0 (ctx_cols context)).
Proof.
  intros [= <-].
  set (n := ctx_cols context).
  set (cell := λ (j i : nat) (w : World),
         with_buffer
           (apply_main (i + j * n) undefined (buffer w))
           (with_hook_state
              (buffer w, variables w ++ [EvMain i j (i + j * n)]) w)).
  assert (∀ j i w, main_cell (λ coord _ _,
                       modify (λ bv, (fst bv,
                                      snd bv ++ [EvMain (x coord) (y coord)
                                                        (index coord)]));;
                       mret undefined) context cursor j i w
                   = (Ok tt, cell j i w)) as Hcell by done.
  eexists. split.
  - apply (for_each_fold (λ j w, foldl (λ w i, cell j i w) w (seq 0 n))).
    intros j w1. by apply (for_each_fold (cell j)).
  - rewrite (foldl_variables _
               (λ j, (λ i, EvMain i j (i + j * n)) <$> seq 0 n)); [done|].
    intros j w1.
    rewrite (foldl_variables (cell j) (λ i, [EvMain i j (i + j * n)])) by done.
    f_equal.
Qed.

Lemma steps_trace settings context cursor (v0 : list Event) :
  let final := v0 ++ frame_events (ctx_cols context) (ctx_rows context) in
  triple (λ w : World, variables w = v0)
         (steps tracer settings context cursor)
         (λ _ w, variables w = final) (λ w, variables w = final).
Proof.
  intros final. unfold steps.
  change (pre tracer)
    with (Some (λ (_ : Context) (_ : Cursor),
                  modify (S := list value * list Event)
                         (λ bv, (fst bv, snd bv ++ [EvPre])))).
  change (post tracer)
    with (Some (λ (_ : Context) (_ : Cursor),
                  modify (S := list value * list Event)
                         (λ bv, (fst bv, snd bv ++ [EvPost])))).
  assert (∃ h, main tracer = Some h) as [h Hmain] by (by eexists).
  rewrite Hmain.
  apply (triple_bind _ _ _ _ (λ _ w, variables w = v0)).
  { apply triple_modify. intros w Hw. unfold normalize_buffer.
    by destruct (_ || _). }
  intros [].
  apply (triple_bind _ _ _ _ (λ _ w, variables w = v0 ++ [EvPre])).
  { apply triple_lift. intros w Hw. cbn. by rewrite Hw. }
  intros [].
  apply (triple_bind _ _ _ _
           (λ _ w, variables w =
                     (v0 ++ [EvPre])
                     ++ (seq 0 (ctx_rows context) ≫= λ j,
                           (λ i, EvMain i j (i + j * ctx_cols context))
                             <$> seq 0 (ctx_cols context)))).
  { intros w Hw.
    destruct (main_phase_trace h context cursor w Hmain) as (w' & -> & Hw').
    by rewrite Hw', Hw. }
  intros [].
  apply (triple_bind _ _ _ _ (λ _ w, variables w = final)).
  { apply triple_lift. intros w Hw. cbn. rewrite Hw. unfold final, frame_events.
    by rewrite <-!(assoc_L (++)). }
  intros [].
  apply (triple_bind _ _ _ _ (λ _ w, variables w = final));
    [by apply triple_gets|].
  intros r.
  apply (triple_bind _ _ _ _ (λ _ w, variables w = final)).
  { destruct r as [r|]; [|by apply triple_throw].
    apply (triple_bind _ _ _ _ (λ _ w, variables w = final));
      [by apply triple_gets|].
    intros b. apply triple_lift. intros w Hw.
    by destruct (render r context b settings (renderer_state w)) as [[]]. }
  intros [].
  intros w Hw.
  unfold when, mbind, M_bind, requestAnimationFrame, resolve, modify.
  by destruct (once settings).
Qed.


End Trace.

(** ** The scheduler with the text renderer *)

Section Pipeline.
Import Run.
Context {Vars FPS : Type} (fps_update : Q → FPS → FPS) (fps_fps : FPS → Q).
Local Abbreviation World :=
  (Run.World (Vars := Vars) (RS := TextRenderer.State) (FPS := FPS)).

(** The loop body of a program without [pre], [main] and [post]: the
    buffer is normalised and handed to the renderer. *)
Lemma steps_no_hooks program settings context cursor (w : World) r :
  pre program = None → main program = None → post program = None →
  renderer w = Some r →
  steps program settings context cursor w =
    let w1 := normalize_buffer settings context w in
    match render r context (buffer w1) settings (renderer_state w1) with
    | (Ok _, s) => (Ok tt, finish settings context (with_renderer_state s w1))
    | (Throw e, s) => (Throw e, with_renderer_state s w1)
    end.
Proof.
  intros Hpre Hmain Hpost Hr. unfold steps. rewrite Hpre, Hmain, Hpost.
  unfold mbind, M_bind, mret, M_ret, modify, gets, lift. cbv zeta.
  assert (renderer (normalize_buffer settings context w) = Some r) as ->.
  { rewrite <-Hr. unfold normalize_buffer. by destruct (_ || _). }
  destruct (render r context _ settings _) as [[[]|e] s]; [|done].
  unfold finish, when, requestAnimationFrame, resolve, modify.
  by destruct (once settings).
Qed.

Lemma default_cell_plain settings :
  plain_cell (fontWeight settings) (color settings) (backgroundColor settings)
             (default_cell settings).
Proof.
  eexists. split; [reflexivity|]. unfold field.
  repeat split; by simplify_map_eq.
Qed.

Lemma row_glyphs_spaces (buffer : list value) offs columns :
  (∀ i, i ∈ columns →
     TextRenderer.prop "char" (arr_get (i + offs) buffer) = PStr " ") →
  row_glyphs buffer offs columns = spaces (length columns).
Proof.
  induction columns as [|i columns IH]; intros Hcells; [done|].
  cbn [row_glyphs foldr length spaces]. rewrite (Hcells i) by left.
  fold (row_glyphs buffer offs columns). rewrite IH; [done|].
  intros i' Hi'. apply Hcells. by right.
Qed.

Lemma span_open_default settings :
  span_open (text_settings settings) (fontWeight settings) (color settings)
            (backgroundColor settings) = "<span>".
Proof.
  unfold span_open, text_settings.
  cbn [TextRenderer.color TextRenderer.backgroundColor TextRenderer.fontWeight].
  by rewrite !bool_decide_true by done.
Qed.

(** The markup of a row of the normalised buffer. *)
Lemma row_html_default settings (n m j : nat) :
  (0 < n)%nat → (j < m)%nat →
  TextRenderer.row_html (text_settings settings)
    (replicate (n * m) (default_cell settings)) (j * n) n =
  blank_row settings n.
Proof.
  intros Hn Hj.
  assert (∀ i, (i < n)%nat →
            arr_get (i + j * n) (replicate (n * m) (default_cell settings)) =
            default_cell settings) as Hcell.
  { intros i Hi. unfold arr_get. rewrite lookup_replicate_2 by nia. done. }
  assert (row_glyphs (replicate (n * m) (default_cell settings)) (j * n)
                     (seq 0 n) = spaces n) as Hglyphs.
  { rewrite row_glyphs_spaces; [by rewrite length_seq|].
    intros i Hi%elem_of_seq. rewrite Hcell by lia.
    unfold default_cell, TextRenderer.prop, field. by simplify_map_eq. }
  assert (∀ i, (i < n)%nat →
            plain_cell (fontWeight settings) (color settings)
              (backgroundColor settings)
              (arr_get (i + j * n) (replicate (n * m) (default_cell settings))))
    as Hplain.
  { intros i Hi. rewrite Hcell by done. apply default_cell_plain. }
  unfold blank_row. case_bool_decide as Hstyle.
  - destruct Hstyle as (Hw & Hc & Hb). rewrite Hw, Hc, Hb in Hplain.
    by rewrite row_html_bare.
  - rewrite (row_html_span _ _ _ _ (fontWeight settings) (color settings)
               (backgroundColor settings)) by done.
    by rewrite Hglyphs, span_open_default.
Qed.


(** The loop body of a program whose only hook is a [main] that only
    computes. *)
Lemma steps_pure_main program settings context cursor
    (f : Coordinate → Context → Cursor → value) (w : World) r :
  pre program = None → post program = None →
  main program = Some (λ coord context cursor, mret (f coord context cursor)) →
  renderer w = Some r →
  let n := ctx_cols context in
  let w1 := normalize_buffer settings context w in
  ∃ b,
    (∀ i j, (i < n)%nat → (j < ctx_rows context)%nat →
       arr_get (i + j * n) b =
         arr_get (i + j * n)
           (apply_main (i + j * n)
              (f {| x := i; y := j; index := (i + j * n)%nat |} context cursor)
              (buffer w1))) ∧
    steps program settings context cursor w =
      match render r context b settings (renderer_state w1) with
      | (Ok _, s) =>
          (Ok tt, finish settings context
                    (with_renderer_state s (with_buffer b w1)))
      | (Throw e, s) => (Throw e, with_renderer_state s (with_buffer b w1))
      end.
Proof.
  intros Hpre Hpost Hmain Hr n w1. eexists. split.
  { intros i j Hi Hj.
    by apply (get_grid_cells f context cursor (ctx_rows context) (buffer w1)). }
  unfold steps. rewrite Hpre, Hmain, Hpost.
  unfold mbind, M_bind, modify, gets. fold w1.
  change ((mret tt : M World unit) w1) with (@Ok unit tt, w1). cbv iota beta.
  rewrite main_phase_pure.
  change ((mret tt : M World unit) ?w2) with (@Ok unit tt, w2). cbv iota beta.
  assert (renderer w1 = Some r) as Hr1.
  { rewrite <-Hr. unfold w1, normalize_buffer. by destruct (_ || _). }
  cbn [renderer with_buffer with_hook_state buffer fst]. rewrite Hr1.
  unfold lift. cbn [renderer_state].
  destruct (render r context _ settings _) as [[[]|e] s]; [|done].
  unfold finish, when, requestAnimationFrame, resolve, modify, mret, M_ret.
  by destruct (once settings).
Qed.

Lemma row_glyphs_repeat (buffer : list value) offs columns (g : prim) :
  (∀ i, i ∈ columns →
     TextRenderer.prop "char" (arr_get (i + offs) buffer) = g) →
  row_glyphs buffer offs columns = repeat_text (to_string g) (length columns).
Proof.
  induction columns as [|i columns IH]; intros Hcells; [done|].
  cbn [row_glyphs foldr length repeat_text]. rewrite (Hcells i) by left.
  fold (row_glyphs buffer offs columns). rewrite IH; [done|].
  intros i' Hi'. apply Hcells. by right.
Qed.


End Pipeline.

(** *** More of the scheduler on concrete runs *)

Lemma unfit_element_never_draws_witness :
  let w1 := snd (Run.fonts_ready Demo.fps_fps Demo.no_hooks
                   DemoMore.text_on_canvas Demo.measured
                   (Run.run (λ _, textRenderer) DemoMore.text_on_canvas
                            Demo.host)) in
  let w2 := snd (animation_frames Demo.fps_update Demo.fps_fps Demo.no_hooks
                   DemoMore.text_on_canvas 30 60 (ticks 40 3) w1) in
  Run.renderer_state w2 = renderer_loaded ∧ Run.promise w2 = Run.Pending.
Proof.
  assert (unfit DemoMore.text_on_canvas) as Hunfit by (by left).
  pose proof (unfit_element_never_draws Demo.fps_update Demo.fps_fps
                (λ _, textRenderer) Demo.no_hooks DemoMore.text_on_canvas
                Hunfit) as [_ Hrun].
  destruct (Hrun Demo.host Demo.measured 30%Q 60%Q (ticks 40 3))
    as (_ & Hstate & Hpromise).
  split; [exact Hstate|exact Hpromise].
Defined.

Lemma frame_rate_capped_witness :
  let w := Demo.booted Demo.no_hooks false in
  let w' := snd (animation_frames Demo.fps_update Demo.fps_fps Demo.no_hooks
                   (Demo.settings false) 30 60 [10; 40; 50; 80]%Q w) in
  (inject_Z (Run.frame (Run.state w') - Run.frame (Run.state w))
     * (1000 / Run.fps (Demo.settings false))
   <= Run.timeSample w' - Run.timeSample w)%Q ∧
  (Run.timeSample w' <= 80)%Q.
Proof.
  intros w.
  apply (frame_rate_capped Demo.fps_update Demo.fps_fps Demo.no_hooks
           (Demo.settings false) 30 60 [10; 40; 50; 80]%Q 80 w).
  - vm_compute. reflexivity.
  - vm_compute. discriminate.
  - intros t Ht.
    repeat (apply elem_of_cons in Ht as [->|Ht]; [vm_compute; discriminate|]).
    by apply elem_of_nil in Ht.
Defined.

Lemma once_runs_one_frame_witness :
  let w := Demo.booted Demo.no_hooks true in
  let first := Run.animation_frame Demo.fps_update Demo.fps_fps Demo.no_hooks
                 (Demo.settings true) 40 30 60 w in
  animation_frames Demo.fps_update Demo.fps_fps Demo.no_hooks
    (Demo.settings true) 30 60 [40%Q; 80%Q; 120%Q] w
    = (option_list (fst first), snd first) ∧
  Run.requested (snd first) = 0%nat.
Proof.
  intros w first.
  assert (Run.once (Demo.settings true) = true) as Honce by reflexivity.
  assert (Run.requested w = 1%nat) as Hreq by (vm_compute; reflexivity).
  destruct (once_runs_one_frame Demo.fps_update Demo.fps_fps Demo.no_hooks
              (Demo.settings true) 30 60 40 [80%Q; 120%Q] w Honce Hreq)
    as (Hframes & Hnone & _).
  split; [exact Hframes|exact Hnone].
Defined.

Lemma getContext_grid_witness :
  let w := snd (Run.animation_frame Demo.fps_update Demo.fps_fps Demo.no_hooks
                  DemoMore.auto_grid 10 35 70
                  (Demo.booted Demo.no_hooks false)) in
  let context := Run.getContext Demo.fps_fps DemoMore.auto_grid w in
  (inject_Z (Z.of_nat (Run.ctx_cols context)) * 10 <= 35)%Q ∧
  (35 < (inject_Z (Z.of_nat (Run.ctx_cols context)) + 1) * 10)%Q ∧
  (inject_Z (Z.of_nat (Run.ctx_rows context)) * 20 <= 70)%Q ∧
  (70 < (inject_Z (Z.of_nat (Run.ctx_rows context)) + 1) * 20)%Q.
Proof.
  intros w context.
  destruct (getContext_grid Demo.fps_fps DemoMore.auto_grid w)
    as (_ & _ & _ & _ & Hcols & Hrows).
  assert (0 < Run.cellWidth (Run.metrics w))%Q as Hcw
    by (vm_compute; reflexivity).
  assert (0 < Run.lineHeight (Run.metrics w))%Q as Hlh
    by (vm_compute; reflexivity).
  assert (0 <= Run.rect_width w)%Q as Hwidth by (vm_compute; discriminate).
  assert (0 <= Run.rect_height w)%Q as Hheight by (vm_compute; discriminate).
  destruct (Hcols eq_refl Hcw Hwidth) as [Hc1 Hc2].
  destruct (Hrows eq_refl Hlh Hheight) as [Hr1 Hr2].
  assert (Run.cellWidth (Run.metrics w) = 10%Q) as Ecw
    by (vm_compute; reflexivity).
  assert (Run.lineHeight (Run.metrics w) = 20%Q) as Elh
    by (vm_compute; reflexivity).
  assert (Run.rect_width w = 35%Q) as Ew by (vm_compute; reflexivity).
  assert (Run.rect_height w = 70%Q) as Eh by (vm_compute; reflexivity).
  rewrite Ecw, Ew in Hc1, Hc2. rewrite Elh, Eh in Hr1, Hr2.
  repeat split; assumption.
Defined.


(** *** The scheduler with the text renderer, on concrete runs *)


